(** * termbox_port: the session multiplexer of rex_termbox, and its shadow buffer

    A shallow embedding of [c_src/termbox_port.c].  The C program serves one
    client over a Unix socket: it parses newline-framed text commands, calls
    the termbox library, mirrors every painted cell into a shadow buffer that
    [get_cell] reads back, and forwards termbox events to the client.

    The embedding keeps the C program's shape.  Machine integers are [Z] with
    the casts written out, C strings are [string] cut at the first NUL, the
    three shadow-buffer globals are a record, and every call that leaves the
    program (termbox, libc I/O, malloc) is appended to a trace in the order
    the C code makes it.  What such a call returns is decided by a [World]:
    a table of functions from the trace so far to the returned value. *)

From Stdlib Require Import ZArith String Ascii Lia DecimalString DecimalZ.
From stdpp Require Import base tactics list strings.

Local Open Scope Z_scope.

#[local] Arguments String.append !_ _ / : simpl nomatch.

(** ** The pieces of the C library the program calls *)

Module Libc.

Definition NUL : ascii := "000"%char.
Definition LF : ascii := "010"%char.
Definition CR : ascii := "013"%char.
Definition SP : ascii := " "%char.

(** A line feed, as a string. *)
Definition nl : string := String LF EmptyString.

(** One double quote, for the JSON-like event line. *)
Definition dq : string := String "034"%char EmptyString.

(** Integer conversions of an LP64 target, two's complement. *)
Definition to_uint8 (v : Z) : Z := v mod 2 ^ 8.
Definition to_uint16 (v : Z) : Z := v mod 2 ^ 16.
Definition to_uint32 (v : Z) : Z := v mod 2 ^ 32.
Definition to_uint64 (v : Z) : Z := v mod 2 ^ 64.
Definition to_int (v : Z) : Z := (v + 2 ^ 31) mod 2 ^ 32 - 2 ^ 31.

Definition LONG_MAX : Z := 2 ^ 63 - 1.
Definition LONG_MIN : Z := - 2 ^ 63.
Definition ULONG_MAX : Z := 2 ^ 64 - 1.

(** What a [char*] denotes: the bytes before the first NUL. *)
Fixpoint cstr (s : string) : string :=
  match s with
  | EmptyString => EmptyString
  | String c s' => if Ascii.eqb c NUL then EmptyString else String c (cstr s')
  end.

Definition strlen (s : string) : Z := Z.of_nat (String.length (cstr s)).

(** [isspace] in the C locale. *)
Definition isspace (c : ascii) : bool :=
  let n := nat_of_ascii c in
  (n =? 32)%nat || ((9 <=? n)%nat && (n <=? 13)%nat).

Definition digit_of (c : ascii) : option Z :=
  let n := nat_of_ascii c in
  if ((48 <=? n)%nat && (n <=? 57)%nat)%bool
  then Some (Z.of_nat n - 48) else None.

Fixpoint skip_spaces (s : string) : string :=
  match s with
  | String c s' => if isspace c then skip_spaces s' else s
  | EmptyString => EmptyString
  end.

(** The value of the longest decimal prefix, starting from [acc]. *)
Fixpoint digits (s : string) (acc : Z) : Z :=
  match s with
  | String c s' =>
      match digit_of c with
      | Some d => digits s' (10 * acc + d)
      | None => acc
      end
  | EmptyString => acc
  end.

(** Optional sign of a number: [(negative, rest)]. *)
Definition sign (s : string) : bool * string :=
  match s with
  | String "-"%char s' => (true, s')
  | String "+"%char s' => (false, s')
  | _ => (false, s)
  end.

(** [strtol(s, NULL, 10)]: leading blanks, a sign, digits; out of range
    values stick to [LONG_MIN]/[LONG_MAX]; no digits gives 0. *)
Definition strtol (s : string) : Z :=
  let '(neg, body) := sign (skip_spaces s) in
  let v := digits body 0 in
  let v := if neg then - v else v in
  Z.max LONG_MIN (Z.min LONG_MAX v).

(** [atoi] is [(int) strtol(s, NULL, 10)]. *)
Definition atoi (s : string) : Z := to_int (strtol s).

(** [strtoul(s, NULL, 10)]: as [strtol], but the magnitude saturates at
    [ULONG_MAX] and a minus sign negates modulo [2^64]. *)
Definition strtoul (s : string) : Z :=
  let '(neg, body) := sign (skip_spaces s) in
  let v := digits body 0 in
  if ULONG_MAX <? v then ULONG_MAX
  else if neg then to_uint64 (- v) else v.

(** [printf]'s [%d] and [%u]. *)
Definition fmt_d (v : Z) : string := NilZero.string_of_int (Z.to_int v).
Definition fmt_u (v : Z) : string := NilZero.string_of_int (Z.to_int v).

(** [strtok] with the one delimiter the program uses, a space: skip the
    delimiters in front, then cut the token at the next delimiter.  The
    result is the token and the text [strtok(NULL, " ")] resumes from. *)
Fixpoint skip_delims (s : string) : string :=
  match s with
  | String c s' => if Ascii.eqb c SP then skip_delims s' else s
  | EmptyString => EmptyString
  end.

Fixpoint take_token (s : string) : string * string :=
  match s with
  | String c s' =>
      if Ascii.eqb c SP then (EmptyString, s')
      else let '(tok, rest) := take_token s' in (String c tok, rest)
  | EmptyString => (EmptyString, EmptyString)
  end.

Definition strtok (s : string) : option (string * string) :=
  match skip_delims s with
  | EmptyString => None
  | s' => Some (take_token s')
  end.

(** [strchr(s, '\n')]: the text before the first line feed and the text
    after it; the search stops at a NUL. *)
Fixpoint strchr_lf (s : string) : option (string * string) :=
  match s with
  | EmptyString => None
  | String c s' =>
      if Ascii.eqb c LF then Some (EmptyString, s')
      else if Ascii.eqb c NUL then None
      else match strchr_lf s' with
           | Some (l, r) => Some (String c l, r)
           | None => None
           end
  end.

(** The last byte of a buffer, [s[len - 1]]. *)
Fixpoint last_char (s : string) : option ascii :=
  match s with
  | EmptyString => None
  | String c EmptyString => Some c
  | String _ s' => last_char s'
  end.

Fixpoint drop_last (s : string) : string :=
  match s with
  | EmptyString => EmptyString
  | String _ EmptyString => EmptyString
  | String c s' => String c (drop_last s')
  end.

Fixpoint drop (n : nat) (s : string) : string :=
  match n, s with
  | O, _ => s
  | S n', String _ s' => drop n' s'
  | S _, EmptyString => EmptyString
  end.

End Libc.
Import Libc.

(** ** Data model *)

(** [struct tb_cell]: a 32-bit codepoint and two 16-bit attributes. *)
Record tb_cell := Cell { ch : Z; fg : Z; bg : Z }.

(** [struct tb_event]: [type] and [mod] are 8-bit, [key] 16-bit, [ch] 32-bit,
    the four others are [int]. *)
Record tb_event := Event {
  ev_type : Z; ev_mod : Z; ev_key : Z; ev_ch : Z;
  ev_w : Z; ev_h : Z; ev_x : Z; ev_y : Z
}.

Definition MAX_LINE_LENGTH : Z := 4096.
Definition MAX_ARGS : nat := 10.
Definition SOCKET_BUFFER_SIZE : Z := 4096.
Definition MAX_EVENT_STR_SIZE : Z := 256.
Definition sizeof_tb_cell : Z := 8.

(** Every call that leaves the program, with its arguments. *)
Inductive call :=
| TbPresent
| TbClear
| TbChangeCell (x y c f b : Z)
| TbWidth
| TbHeight
| TbSetCursor (x y : Z)
| TbSelectInputMode (mode : Z)
| TbSelectOutputMode (mode : Z)
| TbSetClearAttributes (f b : Z)
| TbPeekEvent (timeout : Z)
| TbShutdown
| Free
| Malloc (bytes : Z)
| WriteExact (fd : Z) (data : string)
| Select (fd : Z)
| Read (fd : Z) (count : Z)
| Close (fd : Z)
| Socket
| Unlink (path : string)
| Bind (fd : Z) (path : string)
| Listen (fd : Z) (backlog : Z)
| Accept (fd : Z)
| FcntlGetfl (fd : Z)
| FcntlSetflNonblock (fd : Z)
| Perror (msg : string)
| Stderr (text : string)
| Stdout (text : string).

#[global] Instance call_eq_dec : EqDecision call.
Proof. solve_decision. Defined.

(** The kinds of calls the statements single out. *)
Definition is_peek (c : call) : bool :=
  match c with TbPeekEvent _ => true | _ => false end.
Definition is_read (c : call) : bool :=
  match c with Read _ _ => true | _ => false end.
Definition is_select (c : call) : bool :=
  match c with Select _ => true | _ => false end.
Definition is_write (c : call) : bool :=
  match c with WriteExact _ _ => true | _ => false end.
Definition is_perror (c : call) : bool :=
  match c with Perror _ => true | _ => false end.
Definition is_stdout (c : call) : bool :=
  match c with Stdout _ => true | _ => false end.
Definition is_stderr (c : call) : bool :=
  match c with Stderr _ => true | _ => false end.
Definition is_accept (c : call) : bool :=
  match c with Accept _ => true | _ => false end.

(** What [read] gave back: an error (with [errno == EINTR] or not), or the
    bytes read, none of them at end of stream. *)
Inductive read_result :=
| ReadError (eintr : bool)
| ReadBytes (data : string).

(** The world outside the program.  The termbox constants and the two pure
    UTF-8 helpers come from [termbox.h]; [utf8_buffer_junk] is a piece of
    the stack; every other field answers one kind of call from the trace up
    to and including that call.

    - [tb_utf8_char_to_unicode s] is the codepoint stored through [out] and
      the number of bytes the call reports for the text [s], which is at
      least one since termbox's length table has no zero entry;
    - [tb_utf8_unicode_to_char c] is the bytes the call stores through
      [out], from [out[0]] on, and the returned byte count; the bytes of the
      caller's buffer after these are left as they are;
    - [utf8_buffer_junk] is what [get_cell]'s [utf8_buffer], an array with no
      initialiser, holds when it is declared after the trace so far: whatever
      the stack has there; bytes past the end of this text read as zero;
    - [malloc_ret] is [None] for a NULL result, else the indeterminate
      content of the fresh block, cell by cell;
    - [write_exact_fails] sums up the retry loop of [write_exact] by its two
      outcomes: every byte written, or [-1]. *)
Record World := {
  TB_DEFAULT : Z;
  TB_EVENT_RESIZE : Z;
  tb_utf8_char_to_unicode : string -> Z * positive;
  tb_utf8_unicode_to_char : Z -> string * Z;
  utf8_buffer_junk : list call -> string;
  tb_width_ret : list call -> Z;
  tb_height_ret : list call -> Z;
  tb_select_input_mode_ret : list call -> Z;
  tb_select_output_mode_ret : list call -> Z;
  tb_peek_event_ret : list call -> Z * tb_event;
  malloc_ret : list call -> option (nat -> tb_cell);
  write_exact_fails : list call -> bool;
  select_ret : list call -> Z * bool;
  read_ret : list call -> read_result;
  socket_ret : list call -> Z;
  bind_ret : list call -> Z;
  listen_ret : list call -> Z;
  accept_ret : list call -> Z;
  fcntl_getfl_ret : list call -> Z;
  fcntl_setfl_ret : list call -> Z;
  getpid_ret : Z
}.

(** The program's globals, and the trace of calls made so far. *)
Record state := State {
  shadow_buffer : option (list tb_cell);
  shadow_buffer_width : Z;
  shadow_buffer_height : Z;
  client_socket_fd : Z;
  actual_socket_path : string;
  trace : list call
}.

(** The globals as their initialisers leave them. *)
Definition initial_state : state :=
  {| shadow_buffer := None; shadow_buffer_width := 0;
     shadow_buffer_height := 0; client_socket_fd := -1;
     actual_socket_path := EmptyString; trace := [] |}.

Definition set_shadow_buffer (b : option (list tb_cell)) (s : state) : state :=
  {| shadow_buffer := b; shadow_buffer_width := shadow_buffer_width s;
     shadow_buffer_height := shadow_buffer_height s;
     client_socket_fd := client_socket_fd s;
     actual_socket_path := actual_socket_path s; trace := trace s |}.

Definition set_dims (w h : Z) (s : state) : state :=
  {| shadow_buffer := shadow_buffer s; shadow_buffer_width := w;
     shadow_buffer_height := h;
     client_socket_fd := client_socket_fd s;
     actual_socket_path := actual_socket_path s; trace := trace s |}.

Definition set_client_socket_fd (fd : Z) (s : state) : state :=
  {| shadow_buffer := shadow_buffer s;
     shadow_buffer_width := shadow_buffer_width s;
     shadow_buffer_height := shadow_buffer_height s;
     client_socket_fd := fd;
     actual_socket_path := actual_socket_path s; trace := trace s |}.

Definition set_trace (t : list call) (s : state) : state :=
  {| shadow_buffer := shadow_buffer s;
     shadow_buffer_width := shadow_buffer_width s;
     shadow_buffer_height := shadow_buffer_height s;
     client_socket_fd := client_socket_fd s;
     actual_socket_path := actual_socket_path s; trace := t |}.

Definition set_actual_socket_path (p : string) (s : state) : state :=
  {| shadow_buffer := shadow_buffer s;
     shadow_buffer_width := shadow_buffer_width s;
     shadow_buffer_height := shadow_buffer_height s;
     client_socket_fd := client_socket_fd s;
     actual_socket_path := p; trace := trace s |}.

(** ** A state monad for the C statements *)

Definition M (A : Type) : Type := state -> A * state.

Definition ret {A} (a : A) : M A := fun s => (a, s).

Definition bind {A B} (m : M A) (k : A -> M B) : M B :=
  fun s => let '(a, s') := m s in k a s'.

Notation "x <- m ;; k" := (bind m (fun x => k))
  (at level 100, m at next level, right associativity).
Notation "m ;; k" := (bind m (fun _ => k))
  (at level 100, right associativity).

Definition get : M state := fun s => (s, s).
Definition modify (f : state -> state) : M unit := fun s => (tt, f s).

(** Make a call: it joins the trace, and the trace is handed back so that the
    world can be asked for the result. *)
Definition emit (c : call) : M (list call) :=
  fun s => let t := trace s ++ [c] in (t, set_trace t s).

Definition when (b : bool) (m : M unit) : M unit := if b then m else ret tt.

(** The 2-D index of the shadow buffer, [(size_t)y * width + x]. *)
Definition cell_index (width x y : Z) : nat := Z.to_nat (y * width + x).

(** The nested [for] loops that store one cell value at every position,
    row by row. *)
Definition fill_row (c : tb_cell) (width y : Z) (buf : list tb_cell)
  : list tb_cell :=
  foldl (fun b x => <[cell_index width x y := c]> b) buf (seqZ 0 width).

Definition fill_cells (c : tb_cell) (width height : Z) (buf : list tb_cell)
  : list tb_cell :=
  foldl (fun b y => fill_row c width y b) buf (seqZ 0 height).

Section Program.

Variable W : World.

Definition default_cell : tb_cell :=
  {| ch := Z.of_nat (nat_of_ascii SP); fg := TB_DEFAULT W; bg := TB_DEFAULT W |}.

(** *** write_exact, write_socket_line *)

Definition write_exact (fd : Z) (buf : string) : M Z :=
  if (String.length buf =? 0)%nat then ret 0
  else
    h <- emit (WriteExact fd buf) ;;
    if write_exact_fails W h then ret (-1)
    else ret (Z.of_nat (String.length buf)).

Definition write_socket_line (fd : Z) (line : string) : M Z :=
  let len := strlen line in
  if len =? 0 then ret 0
  else write_exact fd (cstr line +:+ nl).

(** *** update_shadow_buffer_size *)

(** [(size_t)width * height * sizeof(struct tb_cell)]: the product is taken
    in [size_t], that is modulo [2^64]. *)
Definition buffer_size (width height : Z) : Z :=
  to_uint64 (width * height * sizeof_tb_cell).

(** The block [malloc] hands out holds [buffer_size / sizeof(struct tb_cell)]
    cells.  When the product above does not fit [size_t] that is fewer than
    [width * height]: the stores of the initialising loop past the end of
    the block are undefined in C and the model leaves them out, so what it
    says of the cells means nothing then; the statements about cells carry
    a hypothesis that rules it out ([wf] for a state, [fits] for a
    resize). *)
Definition update_shadow_buffer_size (width height : Z) : M unit :=
  s <- get ;;
  when (bool_decide (shadow_buffer s <> None))
       (emit Free ;; modify (set_shadow_buffer None)) ;;
  modify (set_dims width height) ;;
  if (width <=? 0) || (height <=? 0) then
    modify (set_dims 0 0)
  else
    let buffer_size := buffer_size width height in
    h <- emit (Malloc buffer_size) ;;
    match malloc_ret W h with
    | None =>
        emit (Stderr ("termbox_port C_LOG ERROR: Error: Failed to allocate shadow buffer ("
                        +:+ fmt_u buffer_size +:+ " bytes)."
                        +:+ nl)) ;;
        modify (set_dims 0 0)
    | Some block =>
        let fresh := map block (seq 0 (Z.to_nat (buffer_size / sizeof_tb_cell))) in
        modify (set_shadow_buffer
                  (Some (fill_cells default_cell width height fresh)))
    end.

(** *** send_event_to_client *)

(** The formatted event: at most 135 bytes for 8-, 16- and 32-bit fields,
    so the 256 bytes of [event_str] never cut it short. *)

Definition event_line (ev : tb_event) : string :=
  "EVENT {" +:+ dq +:+ "type" +:+ dq +:+ ":" +:+ fmt_u (ev_type ev)
    +:+ ", " +:+ dq +:+ "mod" +:+ dq +:+ ":" +:+ fmt_u (ev_mod ev)
    +:+ ", " +:+ dq +:+ "key" +:+ dq +:+ ":" +:+ fmt_u (ev_key ev)
    +:+ ", " +:+ dq +:+ "ch" +:+ dq +:+ ":" +:+ fmt_u (ev_ch ev)
    +:+ ", " +:+ dq +:+ "w" +:+ dq +:+ ":" +:+ fmt_d (ev_w ev)
    +:+ ", " +:+ dq +:+ "h" +:+ dq +:+ ":" +:+ fmt_d (ev_h ev)
    +:+ ", " +:+ dq +:+ "x" +:+ dq +:+ ":" +:+ fmt_d (ev_x ev)
    +:+ ", " +:+ dq +:+ "y" +:+ dq +:+ ":" +:+ fmt_d (ev_y ev) +:+ "}".

Definition send_event_to_client (client_fd : Z) (ev : tb_event) : M unit :=
  r <- write_socket_line client_fd (event_line ev) ;;
  if r <? 0 then
    emit (Perror "Error writing event to client socket") ;; ret tt
  else ret tt.

(** *** handle_client_command *)

(** The [strtok] loop: at most [MAX_ARGS] tokens are taken. *)
Fixpoint collect_args (n : nat) (s : string) : list string :=
  match n with
  | O => []
  | S n' =>
      match strtok s with
      | None => []
      | Some (token, rest) => token :: collect_args n' rest
      end
  end.

(** The two trailing-byte strips at the head of the function. *)
Definition strip_last (c : ascii) (s : string) : string :=
  match last_char s with
  | Some c' => if Ascii.eqb c' c then drop_last s else s
  | None => s
  end.

(** The bounds test guarding every access to the shadow buffer. *)
Definition cell_in_bounds (s : state) (x y : Z) : bool :=
  bool_decide (shadow_buffer s <> None)
  && (0 <=? x) && (x <? shadow_buffer_width s)
  && (0 <=? y) && (y <? shadow_buffer_height s).

(** The mirror write shared by [print] and [change_cell]. *)
Definition mirror_cell (x y : Z) (c : tb_cell) : M unit :=
  s <- get ;;
  if cell_in_bounds s x y then
    match shadow_buffer s with
    | Some buf =>
        modify (set_shadow_buffer
                  (Some (<[cell_index (shadow_buffer_width s) x y := c]> buf)))
    | None => ret tt
    end
  else ret tt.

(** [print]: the text is put back together from [args[5]] on, with one
    space between two tokens; [None] when the 4096-byte buffer would
    overflow. *)
Fixpoint rebuild_text (rest : list string) (first : bool)
         (text_buffer : string) : option string :=
  match rest with
  | [] => Some text_buffer
  | a :: rest' =>
      let arg_len := Z.of_nat (String.length a) in
      let used := Z.of_nat (String.length text_buffer) in
      if SOCKET_BUFFER_SIZE <=? used + arg_len + (if first then 0 else 1)
      then None
      else rebuild_text rest' false
             (text_buffer +:+ (if first then EmptyString
                               else String SP EmptyString) +:+ a)
  end.

(** [current_x++] on an [int].  At [INT_MAX] the increment overflows, which
    C leaves undefined; the model wraps round as the two's-complement
    addition of the target does, and the statements about columns carry the
    hypothesis that the walk stays below [INT_MAX]. *)
Definition next_column (current_x : Z) : Z := to_int (current_x + 1).

(** [print]: the decoding loop.  Every turn eats at least one byte, so
    [fuel] equal to the length of the text is never used up (see
    [print_loop_fuel]). *)
Fixpoint print_loop (fuel : nat) (text_ptr : string)
         (current_x y f b : Z) : M unit :=
  match fuel with
  | O => ret tt
  | S fuel' =>
      match text_ptr with
      | EmptyString => ret tt
      | _ =>
          let '(cp, n) := tb_utf8_char_to_unicode W text_ptr in
          let codepoint := to_uint32 cp in
          if codepoint =? 0 then ret tt
          else
            emit (TbChangeCell current_x y codepoint f b) ;;
            mirror_cell current_x y
              {| ch := codepoint; fg := f; bg := b |} ;;
            print_loop fuel' (drop (Pos.to_nat n) text_ptr)
                       (next_column current_x) y f b
      end
  end.

(** Bytes copied to the front of a buffer; the bytes after them stay. *)
Definition overwrite (bytes buffer : string) : string :=
  bytes +:+ drop (String.length bytes) buffer.

(** [get_cell]: the text printed by [%s] for a cell's codepoint.
    [utf8_buffer] is declared without an initialiser and holds [junk]; the
    encoder stores its bytes at the front; when it reports no byte,
    [strcpy] puts [?] and a NUL there; then the last of the 8 bytes is set
    to NUL, the only terminator the function itself writes.  [%s] reads up
    to the first NUL: the bytes of [junk] that follow the stored ones are
    part of the text unless a NUL comes first.  (termbox's encoder stores at
    most 6 bytes; a longer store would run over the array.) *)
Definition utf8_text (junk : string) (c : Z) : string :=
  let '(stored, bytes_written) := tb_utf8_unicode_to_char W c in
  let utf8_buffer := overwrite stored junk in
  let utf8_buffer :=
    if bytes_written <=? 0
    then overwrite ("?" +:+ String NUL EmptyString) utf8_buffer
    else utf8_buffer in
  cstr (substring 0 7 utf8_buffer).

(** The [OK_CELL] response; it stays far below the 256 bytes of
    [response_buffer]. *)
Definition cell_response (junk : string) (x y : Z) (c : tb_cell) : string :=
  "OK_CELL " +:+ fmt_d x +:+ " " +:+ fmt_d y +:+ " " +:+ utf8_text junk (ch c)
    +:+ " " +:+ fmt_u (fg c) +:+ " " +:+ fmt_u (bg c).

(** Write a success response; a failed write makes the handler return 1. *)
Definition respond (client_fd : Z) (line msg : string) : M Z :=
  r <- write_socket_line client_fd line ;;
  if r <? 0 then emit (Perror msg) ;; ret 1 else ret 0.

(** Write an error response; the result of the write is not looked at. *)
Definition reject (client_fd : Z) (line : string) : M Z :=
  write_socket_line client_fd line ;; ret 0.

(** [clear]: the block that resets the mirror. *)
Definition clear_shadow_buffer : M unit :=
  s <- get ;;
  match shadow_buffer s with
  | Some buf =>
      when ((0 <? shadow_buffer_width s) && (0 <? shadow_buffer_height s))
        (modify (set_shadow_buffer
           (Some (fill_cells default_cell (shadow_buffer_width s)
                    (shadow_buffer_height s) buf))))
  | None => ret tt
  end.

(** [get_cell]: the body for a well-formed request.  The two [None]
    branches stand for a read outside the allocated block; under the
    invariant [wf] they are never taken. *)
Definition read_shadow_cell (client_fd x y : Z) : M Z :=
  s <- get ;;
  if negb (cell_in_bounds s x y) then
    reject client_fd "ERROR invalid_coords_get_cell"
  else
    match shadow_buffer s with
    | Some buf =>
        match buf !! cell_index (shadow_buffer_width s) x y with
        | Some cell_data =>
            respond client_fd
                    (cell_response (utf8_buffer_junk W (trace s)) x y cell_data)
                    "Error writing OK_CELL response for get_cell"
        | None => ret 0
        end
    | None => ret 0
    end.

(** The head of the function: strip a trailing line feed, then a trailing
    carriage return, and cut the line into [args]. *)
Definition parse_command (command_line : string) : list string :=
  let command_line := strip_last CR (strip_last LF command_line) in
  collect_args MAX_ARGS (cstr command_line).

(** The chain of [strcmp] on [args[0]]; [argc] is the length of [args]. *)
Definition run_command (client_fd : Z) (args : list string) : M Z :=
  let argc := length args in
  let arg i := nth i args EmptyString in
  match args with
  | [] => ret 0
  | cmd :: _ =>
    if String.eqb cmd "present" then
      if (argc =? 1)%nat then
        emit TbPresent ;;
        respond client_fd "OK" "Error writing OK response for present"
      else reject client_fd "ERROR invalid_args_present"
    else if String.eqb cmd "clear" then
      if (argc =? 1)%nat then
        emit TbClear ;;
        clear_shadow_buffer ;;
        respond client_fd "OK" "Error writing OK response for clear"
      else reject client_fd "ERROR invalid_args_clear"
    else if String.eqb cmd "print" then
      if (6 <=? argc)%nat then
        let x := atoi (arg 1%nat) in
        let y := atoi (arg 2%nat) in
        let f := to_uint16 (atoi (arg 3%nat)) in
        let b := to_uint16 (atoi (arg 4%nat)) in
        match rebuild_text (List.skipn 5 args) true EmptyString with
        | None => reject client_fd "ERROR text_too_long_print"
        | Some text_buffer =>
            print_loop (String.length text_buffer) text_buffer x y f b ;;
            respond client_fd "OK" "Error writing OK response for print"
        end
      else reject client_fd "ERROR invalid_args_print"
    else if String.eqb cmd "change_cell" then
      if (argc =? 6)%nat then
        let x := atoi (arg 1%nat) in
        let y := atoi (arg 2%nat) in
        let codepoint := to_uint32 (strtoul (arg 3%nat)) in
        let f := to_uint16 (atoi (arg 4%nat)) in
        let b := to_uint16 (atoi (arg 5%nat)) in
        emit (TbChangeCell x y codepoint f b) ;;
        mirror_cell x y {| ch := codepoint; fg := f; bg := b |} ;;
        respond client_fd "OK" "Error writing OK response for change_cell"
      else reject client_fd "ERROR invalid_args_change_cell"
    else if String.eqb cmd "get_cell" then
      if (argc =? 3)%nat then
        read_shadow_cell client_fd (atoi (arg 1%nat)) (atoi (arg 2%nat))
      else reject client_fd "ERROR invalid_args_get_cell"
    else if String.eqb cmd "width" then
      if (argc =? 1)%nat then
        h <- emit TbWidth ;;
        respond client_fd ("OK_WIDTH " +:+ fmt_d (tb_width_ret W h))
                "Error writing OK_WIDTH response"
      else reject client_fd "ERROR invalid_args_width"
    else if String.eqb cmd "height" then
      if (argc =? 1)%nat then
        h <- emit TbHeight ;;
        respond client_fd ("OK_HEIGHT " +:+ fmt_d (tb_height_ret W h))
                "Error writing OK_HEIGHT response"
      else reject client_fd "ERROR invalid_args_height"
    else if String.eqb cmd "set_cursor" then
      if (argc =? 3)%nat then
        emit (TbSetCursor (atoi (arg 1%nat)) (atoi (arg 2%nat))) ;;
        respond client_fd "OK" "Error writing OK response for set_cursor"
      else reject client_fd "ERROR invalid_args_set_cursor"
    else if String.eqb cmd "set_input_mode" then
      if (argc =? 2)%nat then
        h <- emit (TbSelectInputMode (atoi (arg 1%nat))) ;;
        if tb_select_input_mode_ret W h <? 0 then
          reject client_fd "ERROR tb_select_input_mode_failed"
        else
          respond client_fd "OK" "Error writing OK response for set_input_mode"
      else reject client_fd "ERROR invalid_args_set_input_mode"
    else if String.eqb cmd "set_output_mode" then
      if (argc =? 2)%nat then
        h <- emit (TbSelectOutputMode (atoi (arg 1%nat))) ;;
        if tb_select_output_mode_ret W h <? 0 then
          reject client_fd "ERROR tb_select_output_mode_failed"
        else
          respond client_fd "OK" "Error writing OK response for set_output_mode"
      else reject client_fd "ERROR invalid_args_set_output_mode"
    else if String.eqb cmd "set_clear_attributes" then
      if (argc =? 3)%nat then
        emit (TbSetClearAttributes (to_uint16 (atoi (arg 1%nat)))
                                   (to_uint16 (atoi (arg 2%nat)))) ;;
        respond client_fd "OK"
                "Error writing OK response for set_clear_attributes"
      else reject client_fd "ERROR invalid_args_set_clear_attributes"
    else if String.eqb cmd "DEBUG_SEND_EVENT" then
      if (argc =? 9)%nat then
        let debug_event :=
          {| ev_type := to_uint8 (atoi (arg 1%nat));
             ev_mod := to_uint8 (atoi (arg 2%nat));
             ev_key := to_uint16 (atoi (arg 3%nat));
             ev_ch := to_uint32 (strtoul (arg 4%nat));
             ev_w := atoi (arg 5%nat);
             ev_h := atoi (arg 6%nat);
             ev_x := atoi (arg 7%nat);
             ev_y := atoi (arg 8%nat) |} in
        send_event_to_client client_fd debug_event ;; ret 0
      else reject client_fd "ERROR invalid_args_debug_send_event"
    else if String.eqb cmd "shutdown" then
      write_socket_line client_fd "OK" ;; ret 1
    else reject client_fd "ERROR unknown_command"
  end.

Definition handle_client_command (client_fd : Z) (command_line : string)
  : M Z :=
  run_command client_fd (parse_command command_line).

(** *** run_main_loop *)

(** The locals of the serving loop; [buffer_pos] is the length of
    [socket_buffer]. *)
Record loop_vars := LoopVars {
  socket_buffer : string;
  keep_running : bool;
  loop_exit_status : Z
}.

Definition stop (status : Z) (v : loop_vars) : loop_vars :=
  {| socket_buffer := socket_buffer v; keep_running := false;
     loop_exit_status := status |}.

Definition set_socket_buffer (b : string) (v : loop_vars) : loop_vars :=
  {| socket_buffer := b; keep_running := keep_running v;
     loop_exit_status := loop_exit_status v |}.

(** The inner [while] over the complete lines of the buffer.  It hands back
    [line_start] as the text from there to [buffer_pos].  Every line takes
    at least its line feed from the text, so [fuel] equal to the length of
    the buffer is never used up. *)
Fixpoint line_loop (fuel : nat) (client_fd : Z) (line_start : string)
         (v : loop_vars) : M (string * loop_vars) :=
  match fuel with
  | O => ret (line_start, v)
  | S fuel' =>
      match strchr_lf line_start with
      | None => ret (line_start, v)
      | Some (line, rest) =>
          cmd_result <- handle_client_command client_fd line ;;
          if cmd_result =? 1 then ret (line_start, stop 0 v)
          else if cmd_result <? 0 then ret (line_start, stop 1 v)
          else line_loop fuel' client_fd rest v
      end
  end.

(** Step 1 of a turn: peek at termbox, resize the shadow buffer on a
    resize event, forward the event. *)
Definition poll_terminal : M unit :=
  s <- get ;;
  h <- emit (TbPeekEvent 10) ;;
  let '(peek_ret, event) := tb_peek_event_ret W h in
  if 0 <? peek_ret then
    when (ev_type event =? TB_EVENT_RESIZE W)
         (update_shadow_buffer_size (ev_w event) (ev_h event)) ;;
    send_event_to_client (client_socket_fd s) event
  else ret tt.

(** Step 3, the branch for [bytes_read > 0]. *)
Definition process_received (data : string) (v : loop_vars) : M loop_vars :=
  s <- get ;;
  let buf := socket_buffer v +:+ data in
  r <- line_loop (String.length buf) (client_socket_fd s) buf v ;;
  let '(line_start, v) := r in
  if negb (keep_running v) then ret v
  else
    let remaining := line_start in
    if SOCKET_BUFFER_SIZE - 1 <=? Z.of_nat (String.length remaining)
    then ret (set_socket_buffer EmptyString v)
    else ret (set_socket_buffer remaining v).

(** Steps 2 and 3.  After a failed [select] the descriptor set is as the
    program filled it, so [FD_ISSET] holds whenever it is reached. *)
Definition poll_socket (v : loop_vars) : M loop_vars :=
  s <- get ;;
  let fd := client_socket_fd s in
  h <- emit (Select fd) ;;
  let '(activity, eintr) := select_ret W h in
  if (activity <? 0) && eintr then ret v
  else if activity =? 0 then ret v
  else
    v <- (if activity <? 0
          then emit (Perror "select() error") ;; ret (stop 1 v)
          else ret v) ;;
    let count := SOCKET_BUFFER_SIZE - 1 - Z.of_nat (String.length (socket_buffer v)) in
    h <- emit (Read fd count) ;;
    match read_ret W h with
    | ReadError eintr =>
        if eintr then ret v
        else emit (Perror "read() error from client socket") ;; ret (stop 1 v)
    | ReadBytes data =>
        let data := substring 0 (Z.to_nat count) data in
        if (String.length data =? 0)%nat then ret (stop 0 v)
        else process_received data v
    end.

(** One turn of [while (keep_running)]. *)
Definition loop_body (v : loop_vars) : M loop_vars :=
  poll_terminal ;; poll_socket v.

(** At most [turns] turns of the serving loop. *)
Fixpoint serve (turns : nat) (v : loop_vars) : M loop_vars :=
  match turns with
  | O => ret v
  | S n => if keep_running v then v' <- loop_body v ;; serve n v' else ret v
  end.

Definition close_client : M unit :=
  s <- get ;;
  emit (Close (client_socket_fd s)) ;; modify (set_client_socket_fd (-1)).

(** The head of [run_main_loop]: accept the one client and make its socket
    non-blocking.  [Some 1] is the early [return 1]. *)
Definition accept_client (listen_fd : Z) : M (option Z) :=
  s <- get ;;
  emit (Stderr ("termbox_port C_LOG: Entering main loop. Waiting for client connection on fd "
                  +:+ fmt_d listen_fd +:+ " at path " +:+ actual_socket_path s
                  +:+ "..." +:+ nl)) ;;
  h <- emit (Accept listen_fd) ;;
  let fd := accept_ret W h in
  modify (set_client_socket_fd fd) ;;
  if fd =? -1 then
    emit (Perror "Error accepting client connection") ;;
    emit (Stderr ("termbox_port C_LOG ERROR: Failed to accept UDS connection." +:+ nl)) ;;
    ret (Some 1)
  else
    emit (Stderr ("termbox_port C_LOG: Client connected successfully." +:+ nl)) ;;
    h <- emit (FcntlGetfl fd) ;;
    if fcntl_getfl_ret W h =? -1 then
      emit (Perror "Error getting socket flags") ;; close_client ;; ret (Some 1)
    else
      h <- emit (FcntlSetflNonblock fd) ;;
      if fcntl_setfl_ret W h =? -1 then
        emit (Perror "Error setting socket to non-blocking") ;;
        close_client ;; ret (Some 1)
      else ret None.

(** The locals of the loop at its first turn. *)
Definition first_turn : loop_vars :=
  {| socket_buffer := EmptyString; keep_running := true; loop_exit_status := 1 |}.

(** The tail of [run_main_loop]: once the loop has stopped, shut termbox
    down, close the client socket and return the status.  [None] when the
    loop has not stopped. *)
Definition drain (v : loop_vars) : M (option Z) :=
  if keep_running v then ret None
  else
    emit TbShutdown ;;
    s <- get ;;
    when (negb (client_socket_fd s =? -1)) close_client ;;
    ret (Some (loop_exit_status v)).

(** [run_main_loop], cut after [turns] turns: [None] when the loop is still
    serving then, else the returned status. *)
Definition run_main_loop (turns : nat) (listen_fd : Z) : M (option Z) :=
  early <- accept_client listen_fd ;;
  match early with
  | Some status => ret (Some status)
  | None => v <- serve turns first_turn ;; drain v
  end.

(** *** main *)

(** The last line of [main]: [return result == 0 ? 0 : 1]. *)
Definition exit_code (result : Z) : Z := if result =? 0 then 0 else 1.

(** [main], with the serving loop cut after [turns] turns; the result is
    the exit status of the process. *)
Definition main (turns : nat) : M (option Z) :=
  emit (Stderr ("termbox_port C_LOG: Port process starting up (UDS PATH VIA STDOUT MODE)." +:+ nl)) ;;
  h <- emit Socket ;;
  let listen_socket_fd := socket_ret W h in
  if listen_socket_fd =? -1 then
    emit (Perror "Error creating listen socket") ;;
    emit (Stderr ("error socket_create_failed" +:+ nl)) ;;
    ret (Some 1)
  else
    let path := "/tmp/termbox_port_" +:+ fmt_d (getpid_ret W) +:+ ".sock" in
    modify (set_actual_socket_path path) ;;
    emit (Unlink path) ;;
    h <- emit (Bind listen_socket_fd path) ;;
    if bind_ret W h =? -1 then
      emit (Perror "Error binding socket") ;;
      emit (Close listen_socket_fd) ;;
      emit (Unlink path) ;;
      emit (Stderr ("error socket_bind_failed" +:+ nl)) ;;
      ret (Some 1)
    else
      h <- emit (Listen listen_socket_fd 5) ;;
      if listen_ret W h =? -1 then
        emit (Perror "Error listening on socket") ;;
        emit (Close listen_socket_fd) ;;
        emit (Unlink path) ;;
        emit (Stderr ("error socket_listen_failed" +:+ nl)) ;;
        ret (Some 1)
      else
        emit (Stdout ("OK " +:+ path +:+ nl)) ;;
        result <- run_main_loop turns listen_socket_fd ;;
        match result with
        | None => ret None
        | Some r =>
            emit (Stderr ("termbox_port C_LOG: Port process exiting."
                            +:+ nl)) ;;
            ret (Some (exit_code r))
        end.

End Program.

Arguments ret {A} a s /.
Arguments bind {A B} m k s /.
Arguments get s /.
Arguments modify f s /.
Arguments emit c s /.
Arguments when b m /.

(** ** A scripted world, to run the program on concrete inputs *)

Module Script.

(** Byte [i] of a text; past its end, the zero bytes that fill the buffer. *)
Definition byte_at (s : string) (i : nat) : Z :=
  match String.get i s with
  | Some c => Z.of_nat (nat_of_ascii c)
  | None => 0
  end.

Definition chr (v : Z) : string :=
  String (ascii_of_nat (Z.to_nat v)) EmptyString.

(** Modelled from the spec: termbox's [tb_utf8_char_to_unicode] is not part
    of the repository's sources; the spec has [print] "decode text as a
    sequence of Unicode scalar values".  This is the standard UTF-8
    decoding of one scalar value, of one to four bytes. *)
Definition utf8_decode (s : string) : Z * positive :=
  let b0 := byte_at s 0 in
  let cont i := Z.land (byte_at s i) 63 in
  if b0 <? 128 then (b0, 1%positive)
  else if (192 <=? b0) && (b0 <? 224) then
    (Z.land b0 31 * 64 + cont 1%nat, 2%positive)
  else if (224 <=? b0) && (b0 <? 240) then
    ((Z.land b0 15 * 64 + cont 1%nat) * 64 + cont 2%nat, 3%positive)
  else if (240 <=? b0) && (b0 <? 248) then
    (((Z.land b0 7 * 64 + cont 1%nat) * 64 + cont 2%nat) * 64 + cont 3%nat,
     4%positive)
  else (b0, 1%positive).

(** Modelled from the spec: termbox's [tb_utf8_unicode_to_char] is not part
    of the repository's sources; the spec has [get_cell] answer with the
    "utf8-text-of-codepoint".  This is the standard UTF-8 encoding, of one
    to four bytes, and its length.  The bytes are all that is stored: no
    terminator comes after them. *)
Definition utf8_encode (c : Z) : string * Z :=
  if c <? 128 then (chr c, 1)
  else if c <? 2048 then
    (chr (192 + c / 64) +:+ chr (128 + c mod 64), 2)
  else if c <? 65536 then
    (chr (224 + c / 4096) +:+ chr (128 + (c / 64) mod 64)
       +:+ chr (128 + c mod 64), 3)
  else
    (chr (240 + c / 262144) +:+ chr (128 + (c / 4096) mod 64)
       +:+ chr (128 + (c / 64) mod 64) +:+ chr (128 + c mod 64), 4).

Definition count_calls (p : call -> bool) (h : list call) : nat :=
  length (filter (fun c => p c = true) h).

Definition no_event : Z * tb_event :=
  (0, {| ev_type := 0; ev_mod := 0; ev_key := 0; ev_ch := 0;
          ev_w := 0; ev_h := 0; ev_x := 0; ev_y := 0 |}).

Definition resize_event (w h : Z) : Z * tb_event :=
  (2, {| ev_type := 2; ev_mod := 0; ev_key := 0; ev_ch := 0;
          ev_w := w; ev_h := h; ev_x := 0; ev_y := 0 |}).

Definition key_event (c : Z) : Z * tb_event :=
  (1, {| ev_type := 1; ev_mod := 0; ev_key := 0; ev_ch := c;
          ev_w := 0; ev_h := 0; ev_x := 0; ev_y := 0 |}).

(** The [k]-th [tb_peek_event] answers with the [k]-th entry of [events]
    (no event once they are used up), the [k]-th [read] with the [k]-th
    entry of [reads] (end of stream once they are used up); [select] always
    finds the socket readable; the [k]-th write fails when [wfail k];
    [malloc] works when [mem]; the terminal is 80 by 24; the listening
    socket is descriptor 3, the client 4, the process 42; the stack is
    clean: [utf8_buffer] holds zero bytes when [get_cell] declares it. *)
Definition world (events : list (Z * tb_event)) (reads : list read_result)
           (wfail : nat -> bool) (mem : bool) : World :=
  {| TB_DEFAULT := 0;
     TB_EVENT_RESIZE := 2;
     tb_utf8_char_to_unicode := utf8_decode;
     tb_utf8_unicode_to_char := utf8_encode;
     utf8_buffer_junk := fun _ => EmptyString;
     tb_width_ret := fun _ => 80;
     tb_height_ret := fun _ => 24;
     tb_select_input_mode_ret := fun _ => 1;
     tb_select_output_mode_ret := fun _ => 1;
     tb_peek_event_ret := fun h =>
       nth (count_calls is_peek h - 1) events no_event;
     malloc_ret := fun _ =>
       if mem then Some (fun _ => {| ch := 7; fg := 7; bg := 7 |}) else None;
     write_exact_fails := fun h => wfail (count_calls is_write h - 1)%nat;
     select_ret := fun _ => (1, false);
     read_ret := fun h =>
       nth (count_calls is_read h - 1) reads (ReadBytes EmptyString);
     socket_ret := fun _ => 3;
     bind_ret := fun _ => 0;
     listen_ret := fun _ => 0;
     accept_ret := fun _ => 4;
     fcntl_getfl_ret := fun _ => 0;
     fcntl_setfl_ret := fun _ => 0;
     getpid_ret := 42 |}.

Definition never (_ : nat) : bool := false.

(** [W] with a bootstrap that fails at step [k]: 1 for [socket], 2 for
    [bind], 3 for [listen]. *)
Definition failing (k : nat) (W : World) : World :=
  {| TB_DEFAULT := TB_DEFAULT W;
     TB_EVENT_RESIZE := TB_EVENT_RESIZE W;
     tb_utf8_char_to_unicode := tb_utf8_char_to_unicode W;
     tb_utf8_unicode_to_char := tb_utf8_unicode_to_char W;
     utf8_buffer_junk := utf8_buffer_junk W;
     tb_width_ret := tb_width_ret W;
     tb_height_ret := tb_height_ret W;
     tb_select_input_mode_ret := tb_select_input_mode_ret W;
     tb_select_output_mode_ret := tb_select_output_mode_ret W;
     tb_peek_event_ret := tb_peek_event_ret W;
     malloc_ret := malloc_ret W;
     write_exact_fails := write_exact_fails W;
     select_ret := select_ret W;
     read_ret := read_ret W;
     socket_ret := fun h => if (k =? 1)%nat then -1 else socket_ret W h;
     bind_ret := fun h => if (k =? 2)%nat then -1 else bind_ret W h;
     listen_ret := fun h => if (k =? 3)%nat then -1 else listen_ret W h;
     accept_ret := accept_ret W;
     fcntl_getfl_ret := fcntl_getfl_ret W;
     fcntl_setfl_ret := fcntl_setfl_ret W;
     getpid_ret := getpid_ret W |}.

(** A quiet world: nothing fails, no event, no input. *)
Definition calm : World := world [] [] never true.

(** [W] with a stack that is not clean: [utf8_buffer] holds [junk] whenever
    [get_cell] declares it. *)
Definition littered (junk : string) (W : World) : World :=
  {| TB_DEFAULT := TB_DEFAULT W;
     TB_EVENT_RESIZE := TB_EVENT_RESIZE W;
     tb_utf8_char_to_unicode := tb_utf8_char_to_unicode W;
     tb_utf8_unicode_to_char := tb_utf8_unicode_to_char W;
     utf8_buffer_junk := fun _ => junk;
     tb_width_ret := tb_width_ret W;
     tb_height_ret := tb_height_ret W;
     tb_select_input_mode_ret := tb_select_input_mode_ret W;
     tb_select_output_mode_ret := tb_select_output_mode_ret W;
     tb_peek_event_ret := tb_peek_event_ret W;
     malloc_ret := malloc_ret W;
     write_exact_fails := write_exact_fails W;
     select_ret := select_ret W;
     read_ret := read_ret W;
     socket_ret := socket_ret W;
     bind_ret := bind_ret W;
     listen_ret := listen_ret W;
     accept_ret := accept_ret W;
     fcntl_getfl_ret := fcntl_getfl_ret W;
     fcntl_setfl_ret := fcntl_setfl_ret W;
     getpid_ret := getpid_ret W |}.

(** A state with a [w] by [h] shadow buffer of default cells. *)
Definition screen (w h : Z) : state :=
  {| shadow_buffer := Some (replicate (Z.to_nat (w * h)) (default_cell calm));
     shadow_buffer_width := w; shadow_buffer_height := h;
     client_socket_fd := 4; actual_socket_path := EmptyString; trace := [] |}.

End Script.

(** ** Notions the statements are written with *)

(** The invariant tying the three shadow-buffer globals together. *)
Definition wf (s : state) : Prop :=
  match shadow_buffer s with
  | None => shadow_buffer_width s = 0 /\ shadow_buffer_height s = 0
  | Some buf =>
      0 < shadow_buffer_width s /\ 0 < shadow_buffer_height s /\
      length buf = Z.to_nat (shadow_buffer_width s * shadow_buffer_height s)
  end.

(** The state after one more call. *)
Definition push (c : call) (s : state) : state := set_trace (trace s ++ [c]) s.

(** The [free] of the old storage, when there is one. *)
Definition freed (s : state) : list call :=
  match shadow_buffer s with Some _ => [Free] | None => [] end.

(** The line logged when [malloc] fails. *)
Definition alloc_failure_log (width height : Z) : string :=
  "termbox_port C_LOG ERROR: Error: Failed to allocate shadow buffer ("
    +:+ fmt_u (buffer_size width height) +:+ " bytes)." +:+ nl.

(** The byte count of a [width] by [height] grid fits [size_t]. *)
Definition fits (width height : Z) : Prop :=
  width * height * sizeof_tb_cell < 2 ^ 64.

(** The terminal never reports a resize whose byte count leaves [size_t]:
    every size it gives is a grid of fewer than [2^61] cells. *)
Definition modest (W : World) : Prop :=
  forall h,
    0 < ev_w (snd (tb_peek_event_ret W h)) ->
    0 < ev_h (snd (tb_peek_event_ret W h)) ->
    fits (ev_w (snd (tb_peek_event_ret W h))) (ev_h (snd (tb_peek_event_ret W h))).

Definition INT_MAX : Z := 2 ^ 31 - 1.

(** The cells of the block after the initialising loop. *)
Definition fresh_cells (W : World) (width height : Z) (block : nat -> tb_cell)
  : list tb_cell :=
  fill_cells (default_cell W) width height
    (map block (seq 0 (Z.to_nat (buffer_size width height / sizeof_tb_cell)))).

Definition with_cache (b : option (list tb_cell)) (w h : Z) (t : list call)
           (s : state) : state :=
  {| shadow_buffer := b; shadow_buffer_width := w; shadow_buffer_height := h;
     client_socket_fd := client_socket_fd s;
     actual_socket_path := actual_socket_path s; trace := t |}.

(** [keeps I m]: running [m] from a state in [I] ends in a state in [I]. *)
Definition keeps {A} (I : state -> Prop) (m : M A) : Prop :=
  forall s, I s -> I (snd (m s)).

(** The cells a command can store into: [change_cell] its one cell, [print]
    cells of its row. *)
Definition may_write (args : list string) (x y : Z) : bool :=
  match args with
  | cmd :: _ =>
      if String.eqb cmd "change_cell" then
        (x =? atoi (nth 1 args EmptyString)) && (y =? atoi (nth 2 args EmptyString))
      else if String.eqb cmd "print" then
        y =? atoi (nth 2 args EmptyString)
      else false
  | [] => false
  end.

(** The cell the shadow buffer holds at [(x, y)], if that is in bounds. *)
Definition cell_at (s : state) (x y : Z) : option tb_cell :=
  match shadow_buffer s with
  | Some buf =>
      if (0 <=? x) && (x <? shadow_buffer_width s)
         && (0 <=? y) && (y <? shadow_buffer_height s)
      then buf !! cell_index (shadow_buffer_width s) x y
      else None
  | None => None
  end.

(** The shape and the owner of the shadow buffer, which no command
    changes. *)
Definition shaped (w h fd : Z) (s : state) : Prop :=
  wf s /\ shadow_buffer_width s = w /\ shadow_buffer_height s = h /\
  client_socket_fd s = fd.

(** [answers W fd line s r]: handling [line] in state [s] makes exactly one
    write to the client, the response line [r]; only the [perror] of that
    write, when it fails, comes after it. *)
Definition answers (W : World) (fd : Z) (line : string) (s : state)
           (r : string) : Prop :=
  exists tail,
    trace (snd (handle_client_command W fd line s)) =
      trace s ++ WriteExact fd (r +:+ nl) :: tail
    /\ (tail = [] \/ exists msg, tail = [Perror msg]).

(** The lines of a list, handled one after the other. *)
Definition dispatch_all (W : World) (fd : Z) (lines : list string) (s : state)
  : state :=
  foldl (fun s line => snd (handle_client_command W fd line s)) s lines.

(** The invariant of the commands that leave the cell [(x, y)] alone. *)
Definition holds_default (W : World) (w h x y : Z) (s : state) : Prop :=
  (wf s /\ shadow_buffer_width s = w /\ shadow_buffer_height s = h) /\
  cell_at s x y = Some (default_cell W).

(** The table of the spec: for each verb that takes a fixed or a minimal
    number of arguments, the test its number of arguments must pass. *)
Definition arity (verb : string) : option (nat -> bool) :=
  if String.eqb verb "present" then Some (fun n => n =? 0)%nat
  else if String.eqb verb "clear" then Some (fun n => n =? 0)%nat
  else if String.eqb verb "print" then Some (fun n => 5 <=? n)%nat
  else if String.eqb verb "change_cell" then Some (fun n => n =? 5)%nat
  else if String.eqb verb "get_cell" then Some (fun n => n =? 2)%nat
  else if String.eqb verb "width" then Some (fun n => n =? 0)%nat
  else if String.eqb verb "height" then Some (fun n => n =? 0)%nat
  else if String.eqb verb "set_cursor" then Some (fun n => n =? 2)%nat
  else if String.eqb verb "set_input_mode" then Some (fun n => n =? 1)%nat
  else if String.eqb verb "set_output_mode" then Some (fun n => n =? 1)%nat
  else if String.eqb verb "set_clear_attributes" then Some (fun n => n =? 2)%nat
  else if String.eqb verb "DEBUG_SEND_EVENT" then Some (fun n => n =? 8)%nat
  else if String.eqb verb "shutdown" then Some (fun n => n =? 0)%nat
  else None.

Definition lower_ascii (c : ascii) : ascii :=
  let n := nat_of_ascii c in
  if ((65 <=? n) && (n <=? 90))%nat then ascii_of_nat (n + 32) else c.

Fixpoint lower (s : string) : string :=
  match s with
  | EmptyString => EmptyString
  | String c s' => String (lower_ascii c) (lower s')
  end.

(** The text of a [print] command as the spec has it: the tokens from the
    fifth argument on, rejoined with single spaces. *)
Definition rejoined (words : list string) : string := String.concat " " words.

(** What follows the first token in the rejoined text. *)
Fixpoint rejoined_tail (words : list string) : string :=
  match words with
  | [] => EmptyString
  | a :: words' => " " +:+ a +:+ rejoined_tail words'
  end.

(** The codepoints the decoding loop visits, with the loop's own fuel. *)
Fixpoint codepoints (W : World) (fuel : nat) (text : string) : list Z :=
  match fuel with
  | O => []
  | S fuel' =>
      match text with
      | EmptyString => []
      | _ =>
          let '(cp, n) := tb_utf8_char_to_unicode W text in
          if to_uint32 cp =? 0 then []
          else to_uint32 cp :: codepoints W fuel' (drop (Pos.to_nat n) text)
      end
  end.

(** The decoded codepoints of a text: the loop run until it stops by
    itself. *)
Definition decoded (W : World) (text : string) : list Z :=
  codepoints W (String.length text) text.

(** The spec's walk: one paint call and one mirror write per codepoint, the
    column going up by one each time, as the [int] it is. *)
Fixpoint paint (x y f b : Z) (cps : list Z) : M unit :=
  match cps with
  | [] => ret tt
  | cp :: cps' =>
      emit (TbChangeCell x y cp f b) ;;
      mirror_cell x y {| ch := cp; fg := f; bg := b |} ;;
      paint (next_column x) y f b cps'
  end.

(** The columns the walk visits for [n] codepoints, from column [x] on. *)
Fixpoint columns (x : Z) (n : nat) : list Z :=
  match n with
  | O => []
  | S n' => x :: columns (next_column x) n'
  end.

(** The walk of [n] codepoints from column [x] never leaves the range of
    [int]: every [current_x++] it makes is defined. *)
Definition walk_fits (x : Z) (n : nat) : Prop :=
  - 2 ^ 31 <= x /\ x + Z.of_nat n <= INT_MAX.

(** The paint calls of the walk, in order. *)
Definition paint_calls (x y f b : Z) (cps : list Z) : list call :=
  imap (fun i cp => TbChangeCell (x + Z.of_nat i) y cp f b) cps.

(** The codepoint the walk puts at [(x', y')], if it gets there. *)
Definition painted (x y : Z) (cps : list Z) (x' y' : Z) : option Z :=
  if (y' =? y) && (x <=? x') then cps !! Z.to_nat (x' - x) else None.

(** The cell a command stores into the shadow buffer, if any:
    [change_cell] its one cell; [print] the cell of each codepoint it walks
    over, when its text fits the buffer.  ([clear] stores the default cell
    everywhere and is not counted.) *)
Definition stores_at (W : World) (args : list string) (x y : Z) : bool :=
  match args with
  | cmd :: _ =>
      if String.eqb cmd "change_cell" then
        (length args =? 6)%nat
        && (x =? atoi (nth 1 args EmptyString))
        && (y =? atoi (nth 2 args EmptyString))
      else if String.eqb cmd "print" then
        (6 <=? length args)%nat
        && match rebuild_text (List.skipn 5 args) true EmptyString with
           | Some text =>
               (y =? atoi (nth 2 args EmptyString))
               && existsb (Z.eqb x)
                    (columns (atoi (nth 1 args EmptyString))
                             (length (decoded W text)))
           | None => false
           end
      else false
  | [] => false
  end.

Fixpoint all_chars (p : ascii -> bool) (s : string) : bool :=
  match s with
  | EmptyString => true
  | String c s' => p c && all_chars p s'
  end.

(** A byte that can sit inside a line: neither a line feed nor a NUL. *)
Definition plain (c : ascii) : bool := negb (Ascii.eqb c LF) && negb (Ascii.eqb c NUL).

(** A complete line, as the client sends it before its line feed. *)
Definition is_line (l : string) : Prop := all_chars plain l = true.

(** The bytes of some complete lines, each with its line feed, followed by
    the beginning [rem] of a line still to be completed. *)
Fixpoint framed (lines : list string) (rem : string) : string :=
  match lines with
  | [] => rem
  | l :: lines' => l +:+ nl +:+ framed lines' rem
  end.

(** The spec's reading of the inner loop: the lines are handled one after
    the other, in the order of arrival, until one of them asks to stop. *)
Fixpoint dispatch_seq (W : World) (fd : Z) (lines : list string) (v : loop_vars)
  : M loop_vars :=
  match lines with
  | [] => ret v
  | line :: lines' =>
      cmd_result <- handle_client_command W fd line ;;
      if cmd_result =? 1 then ret (stop 0 v)
      else if cmd_result <? 0 then ret (stop 1 v)
      else dispatch_seq W fd lines' v
  end.

(** The lines of [lines] all let the loop go on: the state after them. *)
Fixpoint run_through (W : World) (fd : Z) (lines : list string) (s : state) : option state :=
  match lines with
  | [] => Some s
  | line :: lines' =>
      let '(r, s') := handle_client_command W fd line s in
      if (r =? 1) || (r <? 0) then None else run_through W fd lines' s'
  end.

(** The trace only grows. *)
Definition extends (t : list call) (s : state) : Prop :=
  exists rest, trace s = t ++ rest.

Definition startup_log : call :=
  Stderr ("termbox_port C_LOG: Port process starting up (UDS PATH VIA STDOUT MODE)." +:+ nl).

Definition socket_path (W : World) : string :=
  "/tmp/termbox_port_" +:+ fmt_d (getpid_ret W) +:+ ".sock".

(** A byte that can sit inside a token. *)
Definition word_char (c : ascii) : bool :=
  negb (Ascii.eqb c SP) && negb (Ascii.eqb c NUL)
  && negb (Ascii.eqb c LF) && negb (Ascii.eqb c CR).

(** A token: one byte or more, none of them a space, a NUL, a line feed or
    a carriage return. *)
Definition token (a : string) : Prop :=
  a <> EmptyString /\ all_chars word_char a = true.

(** A byte of a line made of tokens: anything but NUL, LF and CR. *)
Definition line_char (c : ascii) : bool :=
  negb (Ascii.eqb c NUL) && negb (Ascii.eqb c LF) && negb (Ascii.eqb c CR).

(** ** Notions of the further properties *)

(** ** The retry loop of write_exact *)

(** [write_exact] one level down: the [while] loop around [write].
    [sys_write] answers a call of [write] from the buffers offered so far,
    the last of them being the one of this call: the value returned, and
    whether [errno] is [EINTR].  [fuel] bounds the number of calls; the
    result is [None] when it is used up with bytes still to write. *)
Fixpoint write_exact_loop (sys_write : list string -> Z * bool) (fuel : nat)
         (buf : string) (bytes_written : Z) (offers : list string)
  : option Z * list string :=
  let count := Z.of_nat (String.length buf) in
  if bytes_written <? count then
    match fuel with
    | O => (None, offers)
    | S fuel' =>
        let offers := offers ++ [drop (Z.to_nat bytes_written) buf] in
        let '(result, eintr) := sys_write offers in
        if result <? 0 then
          if eintr then write_exact_loop sys_write fuel' buf bytes_written offers
          else (Some (-1), offers)
        else write_exact_loop sys_write fuel' buf (bytes_written + result) offers
    end
  else (Some bytes_written, offers).

(** The bytes [write] took, call after call: of each offered buffer, as many
    bytes from its start as the call returned. *)
Fixpoint accepted (sys_write : list string -> Z * bool)
         (before offers : list string) : string :=
  match offers with
  | [] => EmptyString
  | o :: rest =>
      let h := before ++ [o] in
      (if fst (sys_write h) <? 0 then EmptyString
       else substring 0 (Z.to_nat (fst (sys_write h))) o)
        +:+ accepted sys_write h rest
  end.

(** [write] never reports more bytes than it was offered. *)
Definition conforming (sys_write : list string -> Z * bool) : Prop :=
  forall h o, fst (sys_write (h ++ [o])) <= Z.of_nat (String.length o).

(** Every call of [write] either fails for good or takes a byte at least. *)
Definition progressing (sys_write : list string -> Z * bool) : Prop :=
  forall h o, o <> EmptyString ->
    (fst (sys_write (h ++ [o])) < 0 /\ snd (sys_write (h ++ [o])) = false)
    \/ 0 < fst (sys_write (h ++ [o])).

(** Every call of [write] is interrupted or takes nothing. *)
Definition stalling (sys_write : list string -> Z * bool) : Prop :=
  forall h, (fst (sys_write h) < 0 /\ snd (sys_write h) = true)
            \/ fst (sys_write h) = 0.

(** A kernel for the examples: the [k]-th call of [write] gives the [k]-th
    entry of [answers], and takes everything once they are used up. *)
Definition scripted_write (answers : list (Z * bool)) (h : list string)
  : Z * bool :=
  let offered := Z.of_nat (String.length (List.last h EmptyString)) in
  let '(r, e) := nth (length h - 1) answers (offered, false) in
  (Z.min r offered, e).

(** ** Lines and verbs *)

(** A line of spaces only; the empty line is one. *)
Definition blank (l : string) : Prop := all_chars (Ascii.eqb SP) l = true.

(** The verbs [handle_client_command] compares [args[0]] with, in the order
    of its [strcmp] chain. *)
Definition verbs : list string :=
  ["present"; "clear"; "print"; "change_cell"; "get_cell"; "width"; "height";
   "set_cursor"; "set_input_mode"; "set_output_mode"; "set_clear_attributes";
   "DEBUG_SEND_EVENT"; "shutdown"]%string.

(** The termbox calls a command can make. *)
Definition is_termbox (c : call) : bool :=
  match c with
  | TbPresent | TbClear | TbChangeCell _ _ _ _ _ | TbWidth | TbHeight
  | TbSetCursor _ _ | TbSelectInputMode _ | TbSelectOutputMode _
  | TbSetClearAttributes _ _ => true
  | _ => false
  end.

(** ** Which calls a part of the program makes *)

(** [only I P m]: run from a state in [I], [m] ends in a state in [I], and
    every call it makes satisfies [P]. *)
Definition only {A} (I : state -> Prop) (P : call -> Prop) (m : M A) : Prop :=
  forall s, I s ->
    I (snd (m s)) /\ exists t, trace (snd (m s)) = trace s ++ t /\ Forall P t.

(** The calls of a command handled for the client [fd]: termbox calls, writes
    to [fd], and [perror]. *)
Definition is_command_call (fd : Z) (c : call) : bool :=
  match c with
  | WriteExact fd' _ => fd' =? fd
  | Perror _ => true
  | c => is_termbox c
  end.

(** The receive buffer has room for one byte at least. *)
Definition roomy (v : loop_vars) : Prop :=
  Z.of_nat (String.length (socket_buffer v)) < SOCKET_BUFFER_SIZE - 1.

(** The calls of the serving loop for the client [fd]: the peek with its
    10 ms, what a resize does to the storage, the calls of the commands, and
    [select] and [read] on [fd], the latter for at least one byte and at
    most the 4095 the buffer takes. *)
Definition is_serving_call (fd : Z) (c : call) : bool :=
  match c with
  | TbPeekEvent timeout => timeout =? 10
  | Free | Malloc _ | Stderr _ => true
  | Select fd' => fd' =? fd
  | Read fd' count =>
      (fd' =? fd) && (1 <=? count) && (count <=? SOCKET_BUFFER_SIZE - 1)
  | c => is_command_call fd c
  end.

(** The calls of the bootstrap in [main], and the write to standard output. *)
Definition is_bootstrap (c : call) : bool :=
  match c with
  | Socket | Unlink _ | Bind _ _ | Listen _ _ | Stdout _ => true
  | _ => false
  end.

(** ** What a command hands back and writes *)

(** [yields Q m]: whatever the state, the value [m] returns satisfies [Q]. *)
Definition yields {A} (Q : A -> Prop) (m : M A) : Prop :=
  forall s, Q (fst (m s)).

(** The two values of [handle_client_command]. *)
Definition zero_or_one (r : Z) : Prop := r = 0 \/ r = 1.

(** What comes of a failed write of the line [r], by the kind of line:
    [result] is what the handler returns, [tail] the calls it makes after
    the write.  A success response makes it return 1; an error response is
    not looked at; an event line gets a [perror] and nothing else. *)
Definition fate (r : string) (result : Z) (tail : list call) : Prop :=
  if String.prefix "OK" r then result = 1
  else if String.prefix "ERROR" r then result = 0 /\ tail = []
  else if String.prefix "EVENT" r then
    result = 0 /\ tail = [Perror "Error writing event to client socket"]
  else False.

(** [replies W fd m]: run from a well-formed state, [m] makes termbox
    calls, then exactly one write, of one non-empty C string [r] and a line
    feed, to [fd]; after it comes nothing but the [perror] of that write.
    The text [r] holds no line feed, unless it is an [OK_CELL] line, which
    carries the text of the cell as it is.  When the write fails, what [m]
    does next is the [fate] of [r]. *)
Definition replies (W : World) (fd : Z) (m : M Z) : Prop :=
  forall s, wf s ->
    exists pre r tail,
      trace (snd (m s)) = trace s ++ pre ++ WriteExact fd (r +:+ nl) :: tail
      /\ Forall (fun c => is_termbox c = true) pre
      /\ (r <> EmptyString /\ cstr r = r)
      /\ (tail = [] \/ exists msg, tail = [Perror msg])
      /\ (is_line r \/ exists junk x y c, r = cell_response W junk x y c)
      /\ (write_exact_fails W (trace s ++ pre ++ [WriteExact fd (r +:+ nl)]) = true ->
          fate r (fst (m s)) tail).

Arguments fate : simpl never.

(** ** The cells and the other globals *)

(** The verbs that store into the shadow buffer. *)
Definition writers : list string := ["clear"; "print"; "change_cell"]%string.

(** The geometry of the shadow buffer and the two other globals: everything
    but the cells and the trace. *)
Definition same_frame (s s' : state) : Prop :=
  shadow_buffer_width s' = shadow_buffer_width s
  /\ shadow_buffer_height s' = shadow_buffer_height s
  /\ client_socket_fd s' = client_socket_fd s
  /\ actual_socket_path s' = actual_socket_path s
  /\ (shadow_buffer s' = None <-> shadow_buffer s = None).

(** ** Numbers in a command *)

(** A token [atoi] finds no number in: its first byte is neither a blank,
    nor a sign, nor a digit. *)
Definition no_number (t : string) : bool :=
  match t with
  | EmptyString => true
  | String c _ =>
      negb (isspace c) && negb (Ascii.eqb c "-") && negb (Ascii.eqb c "+")
      && match digit_of c with Some _ => false | None => true end
  end.

(** ** More scripted worlds *)

(** [W] with a [select] that fails, and not by [EINTR]. *)
Definition deaf (W : World) : World :=
  {| TB_DEFAULT := TB_DEFAULT W;
     TB_EVENT_RESIZE := TB_EVENT_RESIZE W;
     tb_utf8_char_to_unicode := tb_utf8_char_to_unicode W;
     tb_utf8_unicode_to_char := tb_utf8_unicode_to_char W;
     utf8_buffer_junk := utf8_buffer_junk W;
     tb_width_ret := tb_width_ret W;
     tb_height_ret := tb_height_ret W;
     tb_select_input_mode_ret := tb_select_input_mode_ret W;
     tb_select_output_mode_ret := tb_select_output_mode_ret W;
     tb_peek_event_ret := tb_peek_event_ret W;
     malloc_ret := malloc_ret W;
     write_exact_fails := write_exact_fails W;
     select_ret := fun _ => (-1, false);
     read_ret := read_ret W;
     socket_ret := socket_ret W;
     bind_ret := bind_ret W;
     listen_ret := listen_ret W;
     accept_ret := accept_ret W;
     fcntl_getfl_ret := fcntl_getfl_ret W;
     fcntl_setfl_ret := fcntl_setfl_ret W;
     getpid_ret := getpid_ret W |}.

(** [W] with a client that cannot be set up: [k] is 1 for a failing
    [accept], 2 for a failing [fcntl(F_GETFL)], 3 for a failing
    [fcntl(F_SETFL)]. *)
Definition refusing (k : nat) (W : World) : World :=
  {| TB_DEFAULT := TB_DEFAULT W;
     TB_EVENT_RESIZE := TB_EVENT_RESIZE W;
     tb_utf8_char_to_unicode := tb_utf8_char_to_unicode W;
     tb_utf8_unicode_to_char := tb_utf8_unicode_to_char W;
     utf8_buffer_junk := utf8_buffer_junk W;
     tb_width_ret := tb_width_ret W;
     tb_height_ret := tb_height_ret W;
     tb_select_input_mode_ret := tb_select_input_mode_ret W;
     tb_select_output_mode_ret := tb_select_output_mode_ret W;
     tb_peek_event_ret := tb_peek_event_ret W;
     malloc_ret := malloc_ret W;
     write_exact_fails := write_exact_fails W;
     select_ret := select_ret W;
     read_ret := read_ret W;
     socket_ret := socket_ret W;
     bind_ret := bind_ret W;
     listen_ret := listen_ret W;
     accept_ret := fun h => if (k =? 1)%nat then -1 else accept_ret W h;
     fcntl_getfl_ret := fun h => if (k =? 2)%nat then -1 else fcntl_getfl_ret W h;
     fcntl_setfl_ret := fun h => if (k =? 3)%nat then -1 else fcntl_setfl_ret W h;
     getpid_ret := getpid_ret W |}.

(** ** Lines with more spaces than needed *)

(** [n] spaces. *)
Fixpoint spaces (n : nat) : string :=
  match n with
  | O => EmptyString
  | S n' => String SP (spaces n')
  end.

(** A line written loosely: [lead] spaces in front, then each token
    followed by one space and as many more as is paired with it. *)
Fixpoint loose_tail (toks : list (string * nat)) : string :=
  match toks with
  | [] => EmptyString
  | (a, gap) :: toks' => a +:+ spaces (S gap) +:+ loose_tail toks'
  end.

Definition loose (lead : nat) (toks : list (string * nat)) : string :=
  spaces lead +:+ loose_tail toks.

(** The log line at the head of [run_main_loop]. *)
Definition waiting_log (listen_fd : Z) (s : state) : call :=
  Stderr ("termbox_port C_LOG: Entering main loop. Waiting for client connection on fd "
            +:+ fmt_d listen_fd +:+ " at path " +:+ actual_socket_path s
            +:+ "..." +:+ nl).

Definition connected_log : call :=
  Stderr ("termbox_port C_LOG: Client connected successfully." +:+ nl).

(** ** The shadow buffer *)

Section Fill.

Context {A B : Type} (step : A -> B -> A) (Q P : A -> Prop).
Hypothesis Q_step : forall a b, Q a -> Q (step a b).
Hypothesis P_step : forall a b, Q a -> P a -> P (step a b).

Lemma foldl_keeps_Q l a : Q a -> Q (foldl step a l).
Proof. revert a; induction l as [|b l IH]; simpl; auto. Qed.

Lemma foldl_keeps l a : Q a -> P a -> P (foldl step a l).
Proof. revert a; induction l as [|b l IH]; simpl; auto. Qed.

Lemma foldl_hits l a b0 :
  (forall a, Q a -> P (step a b0)) -> b0 ∈ l -> Q a -> P (foldl step a l).
Proof.
  intros Hhit Hin; revert a.
  induction l as [|b l IH]; simpl; intros a Ha.
  - by apply elem_of_nil in Hin.
  - apply elem_of_cons in Hin as [->|Hin].
    + apply foldl_keeps; auto.
    + apply IH; auto.
Qed.

End Fill.

Lemma fill_row_length c w y buf : length (fill_row c w y buf) = length buf.
Proof.
  unfold fill_row.
  apply (foldl_keeps_Q _ (fun b => length b = length buf)); [|done].
  intros a b Ha. by rewrite length_insert.
Qed.

Lemma fill_row_keeps c w y buf k :
  buf !! k = Some c -> fill_row c w y buf !! k = Some c.
Proof.
  unfold fill_row.
  apply (foldl_keeps _ (fun _ => True) (fun b => b !! k = Some c)); [done| |done].
  intros a x _ Ha.
  destruct (decide (cell_index w x y = k)) as [<-|Hne].
  - apply list_lookup_insert_eq. by apply lookup_lt_Some in Ha.
  - by rewrite list_lookup_insert_ne.
Qed.

Lemma fill_row_hits c w y buf x :
  0 <= x < w -> (cell_index w x y < length buf)%nat ->
  fill_row c w y buf !! cell_index w x y = Some c.
Proof.
  intros Hx Hlen. unfold fill_row.
  apply (foldl_hits _ (fun b => length b = length buf)
           (fun b => b !! cell_index w x y = Some c)) with (b0 := x);
    [| | |apply elem_of_seqZ; lia|done].
  - intros a b Ha. by rewrite length_insert.
  - intros a b Hl Ha.
    destruct (decide (cell_index w b y = cell_index w x y)) as [->|Hne].
    + apply list_lookup_insert_eq. lia.
    + by rewrite list_lookup_insert_ne.
  - intros a Ha. apply list_lookup_insert_eq. lia.
Qed.

Lemma fill_cells_length c w h buf : length (fill_cells c w h buf) = length buf.
Proof.
  unfold fill_cells.
  apply (foldl_keeps_Q _ (fun b => length b = length buf)); [|done].
  intros a b Ha. by rewrite fill_row_length.
Qed.

(** The two nested loops leave the same value in every cell. *)
Lemma fill_cells_all c w h buf :
  0 < w -> 0 < h -> length buf = Z.to_nat (w * h) ->
  fill_cells c w h buf = replicate (Z.to_nat (w * h)) c.
Proof.
  intros Hw Hh Hlen. apply list_eq; intros k.
  destruct (decide (k < Z.to_nat (w * h))%nat) as [Hk|Hk].
  - rewrite lookup_replicate_2 by done.
    set (x := Z.of_nat k mod w). set (y := Z.of_nat k / w).
    assert (Hxy : cell_index w x y = k).
    { unfold cell_index, x, y.
      pose proof (Z.div_mod (Z.of_nat k) w). lia. }
    assert (0 <= x < w) by (apply Z.mod_pos_bound; lia).
    assert (0 <= y < h).
    { unfold y. split; [apply Z.div_pos; lia|].
      apply Z.div_lt_upper_bound; lia. }
    unfold fill_cells.
    apply (foldl_hits _ (fun b => length b = length buf)
             (fun b => b !! k = Some c)) with (b0 := y);
      [| | |apply elem_of_seqZ; lia|done].
    + intros a b Ha. by rewrite fill_row_length.
    + intros a b _ Ha. by apply fill_row_keeps.
    + intros a Ha. rewrite <- Hxy. apply fill_row_hits; [done|]. lia.
  - rewrite lookup_ge_None_2; [|rewrite fill_cells_length; lia].
    symmetry. apply lookup_ge_None_2. rewrite length_replicate. lia.
Qed.

Lemma wf_initial : wf initial_state.
Proof. done. Qed.

(** ** Strings without NUL, and what a write leaves in the trace *)

Lemma cstr_app a b : cstr a = a -> cstr (a +:+ b) = a +:+ cstr b.
Proof.
  induction a as [|c a IH]; simpl; [done|].
  destruct (Ascii.eqb c NUL); [done|].
  intros [= Ha]. by rewrite IH.
Qed.

Lemma cstr_idemp s : cstr (cstr s) = cstr s.
Proof.
  induction s as [|c s IH]; simpl; [done|].
  destruct (Ascii.eqb c NUL) eqn:E; simpl; [done|]. by rewrite E, IH.
Qed.

Lemma cstr_string_of_uint d : cstr (NilZero.string_of_uint d) = NilZero.string_of_uint d.
Proof.
  destruct d as [|d|d|d|d|d|d|d|d|d|d]; [done|..]; simpl; f_equal;
    induction d; simpl; by f_equal.
Qed.

Lemma cstr_fmt_d v : cstr (fmt_d v) = fmt_d v.
Proof.
  unfold fmt_d, NilZero.string_of_int.
  destruct (Z.to_int v); [apply cstr_string_of_uint|].
  simpl. f_equal. apply cstr_string_of_uint.
Qed.

Lemma cstr_fmt_u v : cstr (fmt_u v) = fmt_u v.
Proof. apply cstr_fmt_d. Qed.

Lemma string_app_assoc a b c : (a +:+ b) +:+ c = a +:+ (b +:+ c).
Proof. induction a as [|x a IH]; simpl; [done|]. by rewrite IH. Qed.

Lemma length_app_string a b :
  String.length (a +:+ b) = (String.length a + String.length b)%nat.
Proof. induction a; simpl; auto. Qed.

Section Writes.

Variable W : World.

Lemma write_socket_line_eq fd line s :
  cstr line = line -> line <> EmptyString ->
  write_socket_line W fd line s =
    (if write_exact_fails W (trace s ++ [WriteExact fd (line +:+ nl)])
     then -1 else Z.of_nat (String.length (line +:+ nl)),
     push (WriteExact fd (line +:+ nl)) s).
Proof.
  intros Hc Hne. unfold write_socket_line, strlen. rewrite Hc.
  destruct line as [|c line]; [done|]. simpl.
  unfold write_exact. simpl.
  by destruct (write_exact_fails W _).
Qed.

Lemma respond_eq fd line msg s :
  cstr line = line -> line <> EmptyString ->
  respond W fd line msg s =
    if write_exact_fails W (trace s ++ [WriteExact fd (line +:+ nl)])
    then (1, push (Perror msg) (push (WriteExact fd (line +:+ nl)) s))
    else (0, push (WriteExact fd (line +:+ nl)) s).
Proof.
  intros Hc Hne. unfold respond. simpl.
  rewrite write_socket_line_eq by done.
  destruct (write_exact_fails W _); simpl; [done|].
  destruct (_ <? 0) eqn:E; [apply Z.ltb_lt in E; lia|done].
Qed.

Lemma reject_eq fd line s :
  cstr line = line -> line <> EmptyString ->
  reject W fd line s = (0, push (WriteExact fd (line +:+ nl)) s).
Proof.
  intros Hc Hne. unfold reject. simpl.
  by rewrite write_socket_line_eq.
Qed.

End Writes.

(** ** Resizing the shadow buffer *)

Lemma buffer_size_fits width height :
  0 < width -> 0 < height -> fits width height ->
  buffer_size width height = width * height * sizeof_tb_cell.
Proof.
  unfold fits, buffer_size, to_uint64, sizeof_tb_cell. intros Hw Hh Hf.
  apply Z.mod_small. nia.
Qed.

(** When the byte count fits, the block is the whole grid and the loop
    leaves the default cell everywhere. *)
Lemma fresh_cells_fits W width height block :
  0 < width -> 0 < height -> fits width height ->
  fresh_cells W width height block =
    replicate (Z.to_nat (width * height)) (default_cell W).
Proof.
  intros Hw Hh Hf. unfold fresh_cells.
  rewrite buffer_size_fits by done.
  unfold sizeof_tb_cell. rewrite Z.div_mul by done.
  apply fill_cells_all; [done..|]. by rewrite length_map, length_seq.
Qed.

Lemma update_shadow_buffer_size_eq W width height s :
  update_shadow_buffer_size W width height s =
    (tt,
     let t := trace s ++ freed s in
     let m := Malloc (buffer_size width height) in
     if (width <=? 0) || (height <=? 0) then with_cache None 0 0 t s
     else match malloc_ret W (t ++ [m]) with
          | Some block =>
              with_cache (Some (fresh_cells W width height block))
                width height (t ++ [m]) s
          | None =>
              with_cache None 0 0
                (t ++ [m; Stderr (alloc_failure_log width height)]) s
          end).
Proof.
  unfold update_shadow_buffer_size, freed, with_cache, alloc_failure_log,
    fresh_cells.
  destruct s as [[buf|] w h fd path t]; simpl.
  - destruct ((width <=? 0) || (height <=? 0)) eqn:E; simpl; [done|].
    destruct (malloc_ret W _) as [block|]; simpl; [done|].
    by rewrite <- !app_assoc.
  - rewrite app_nil_r.
    destruct ((width <=? 0) || (height <=? 0)) eqn:E; simpl; [done|].
    destruct (malloc_ret W _) as [block|]; simpl; [done|].
    by rewrite <- !app_assoc.
Qed.

Lemma update_shadow_buffer_size_fd W width height s :
  client_socket_fd (snd (update_shadow_buffer_size W width height s)) =
    client_socket_fd s.
Proof.
  rewrite update_shadow_buffer_size_eq. cbn [snd].
  destruct (_ || _); [done|]. by destruct (malloc_ret W _).
Qed.

Lemma update_shadow_buffer_size_wf W width height s :
  (0 < width -> 0 < height -> fits width height) ->
  wf (snd (update_shadow_buffer_size W width height s)).
Proof.
  intros Hf. rewrite update_shadow_buffer_size_eq. simpl.
  destruct ((width <=? 0) || (height <=? 0)) eqn:E; [done|].
  apply orb_false_iff in E as [E1 E2]. apply Z.leb_gt in E1, E2.
  destruct (malloc_ret W _); [|done].
  unfold wf; simpl. rewrite fresh_cells_fits by auto.
  rewrite length_replicate. lia.
Qed.

(** ** Invariants of the command handler *)

Section Keeps.

Variable W : World.
Variable I : state -> Prop.
Hypothesis I_push : forall s c, I s -> I (set_trace (trace s ++ [c]) s).

Lemma keeps_ret {A} (a : A) : keeps I (ret a).
Proof. by intros s Hs. Qed.

Lemma keeps_bind {A B} (m : M A) (k : A -> M B) :
  keeps I m -> (forall a, keeps I (k a)) -> keeps I (bind m k).
Proof.
  intros Hm Hk s Hs. simpl. specialize (Hm s Hs).
  destruct (m s) as [a s']. by apply Hk.
Qed.

Lemma keeps_emit c : keeps I (emit c).
Proof. intros s Hs. simpl. by apply I_push. Qed.

Lemma keeps_write_exact fd buf : keeps I (write_exact W fd buf).
Proof.
  unfold write_exact. destruct (_ =? _)%nat; [apply keeps_ret|].
  apply keeps_bind; [apply keeps_emit|]. intros h.
  destruct (write_exact_fails W h); apply keeps_ret.
Qed.

Lemma keeps_write_socket_line fd line : keeps I (write_socket_line W fd line).
Proof.
  unfold write_socket_line.
  destruct (_ =? _); [apply keeps_ret|apply keeps_write_exact].
Qed.

Lemma keeps_respond fd line msg : keeps I (respond W fd line msg).
Proof.
  unfold respond. apply keeps_bind; [apply keeps_write_socket_line|].
  intros r. destruct (r <? 0); [|apply keeps_ret].
  apply keeps_bind; [apply keeps_emit|]. intros _. apply keeps_ret.
Qed.

Lemma keeps_reject fd line : keeps I (reject W fd line).
Proof.
  unfold reject. apply keeps_bind; [apply keeps_write_socket_line|].
  intros _. apply keeps_ret.
Qed.

Lemma keeps_send_event fd ev : keeps I (send_event_to_client W fd ev).
Proof.
  unfold send_event_to_client.
  apply keeps_bind; [apply keeps_write_socket_line|].
  intros r. destruct (r <? 0); [|apply keeps_ret].
  apply keeps_bind; [apply keeps_emit|]. intros _. apply keeps_ret.
Qed.

Lemma keeps_read_shadow_cell fd x y : keeps I (read_shadow_cell W fd x y).
Proof.
  intros s Hs. unfold read_shadow_cell. simpl.
  destruct (negb _); [by apply keeps_reject|].
  destruct (shadow_buffer s) as [buf|]; [|done].
  destruct (buf !! _); [|done]. by apply keeps_respond.
Qed.

Lemma keeps_print_loop fuel text x y f b :
  (forall x c, keeps I (mirror_cell x y c)) ->
  keeps I (print_loop W fuel text x y f b).
Proof.
  intros Hm. revert text x.
  induction fuel as [|fuel IH]; intros text x; simpl; [apply keeps_ret|].
  destruct text as [|c text]; [apply keeps_ret|].
  destruct (tb_utf8_char_to_unicode W _) as [cp n].
  destruct (_ =? 0); [apply keeps_ret|].
  apply keeps_bind; [apply keeps_emit|]. intros _.
  apply keeps_bind; [apply Hm|]. intros _. apply IH.
Qed.

(** A command keeps every invariant that does not look at the trace, that
    [clear] keeps, and that stores into the cells the command can write
    keep. *)
Lemma keeps_run_command fd args :
  keeps I (clear_shadow_buffer W) ->
  (forall x y c, may_write args x y = true -> keeps I (mirror_cell x y c)) ->
  keeps I (run_command W fd args).
Proof.
  intros Hclear Hmirror. unfold run_command, may_write in *.
  destruct args as [|cmd args']; [apply keeps_ret|].
  repeat match goal with
         | |- keeps I (if String.eqb cmd ?v then _ else _) =>
             destruct (String.eqb cmd v) eqn:?
         end;
    repeat lazymatch goal with
      | |- keeps _ (mirror_cell _ _ _) => fail
      | |- keeps _ (print_loop _ _ _ _ _ _ _) => fail
      | |- keeps _ (clear_shadow_buffer _) => assumption
      | |- keeps _ (bind _ _) => apply keeps_bind; [|intros ?]
      | |- keeps _ (if ?c then _ else _) => destruct c
      | |- keeps _ (match ?c with Some _ => _ | None => _ end) => destruct c
      | |- keeps _ (ret _) => apply keeps_ret
      | |- keeps _ (emit _) => apply keeps_emit
      | |- keeps _ (respond _ _ _ _) => apply keeps_respond
      | |- keeps _ (reject _ _ _) => apply keeps_reject
      | |- keeps _ (send_event_to_client _ _ _) => apply keeps_send_event
      | |- keeps _ (read_shadow_cell _ _ _ _) => apply keeps_read_shadow_cell
      | |- keeps _ (write_socket_line _ _ _) => apply keeps_write_socket_line
      end.
  - (* print *)
    apply keeps_print_loop. intros x c. apply Hmirror.
    match goal with H : String.eqb cmd "print" = true |- _ =>
      apply String.eqb_eq in H; subst cmd end.
    apply Z.eqb_refl.
  - (* change_cell *)
    apply Hmirror. by rewrite !Z.eqb_refl.
Qed.

End Keeps.

(** ** Cells of a well-formed shadow buffer *)

Lemma cell_index_lt w h x y :
  0 <= x < w -> 0 <= y < h -> (cell_index w x y < Z.to_nat (w * h))%nat.
Proof. unfold cell_index. intros. apply Z2Nat.inj_lt; nia. Qed.

Lemma cell_index_inj w x y x' y' :
  0 <= x < w -> 0 <= x' < w -> 0 <= y -> 0 <= y' ->
  cell_index w x y = cell_index w x' y' -> x = x' /\ y = y'.
Proof.
  unfold cell_index. intros Hx Hx' Hy Hy' Heq.
  apply Z2Nat.inj in Heq; [|nia..].
  assert (y = y') by nia. subst. lia.
Qed.

Lemma cell_in_bounds_true s x y :
  cell_in_bounds s x y = true <->
  shadow_buffer s <> None /\
  0 <= x < shadow_buffer_width s /\ 0 <= y < shadow_buffer_height s.
Proof.
  unfold cell_in_bounds.
  rewrite !andb_true_iff, bool_decide_eq_true, !Z.leb_le, !Z.ltb_lt. tauto.
Qed.

Lemma wf_in_bounds s x y :
  wf s -> 0 <= x < shadow_buffer_width s -> 0 <= y < shadow_buffer_height s ->
  cell_in_bounds s x y = true.
Proof.
  intros Hwf Hx Hy. apply cell_in_bounds_true. split; [|done].
  unfold wf in Hwf. destruct (shadow_buffer s); [done|lia].
Qed.

Lemma mirror_cell_eq x y c s :
  mirror_cell x y c s =
    (tt, if cell_in_bounds s x y
         then match shadow_buffer s with
              | Some buf =>
                  set_shadow_buffer
                    (Some (<[cell_index (shadow_buffer_width s) x y := c]> buf)) s
              | None => s
              end
         else s).
Proof.
  unfold mirror_cell. simpl.
  destruct (cell_in_bounds s x y); [|done]. by destruct (shadow_buffer s).
Qed.

(** A store into an in-bounds cell is read back. *)
Lemma mirror_cell_hit x y c s :
  wf s -> 0 <= x < shadow_buffer_width s -> 0 <= y < shadow_buffer_height s ->
  cell_at (snd (mirror_cell x y c s)) x y = Some c.
Proof.
  intros Hwf Hx Hy. rewrite mirror_cell_eq. simpl.
  rewrite wf_in_bounds by done.
  unfold wf in Hwf. unfold cell_at.
  destruct (shadow_buffer s) as [buf|] eqn:E; [|lia]. simpl.
  destruct Hwf as (_ & _ & Hlen).
  replace ((0 <=? x) && _ && _ && _) with true
    by (symmetry; rewrite !andb_true_iff, !Z.leb_le, !Z.ltb_lt; lia).
  apply list_lookup_insert_eq. rewrite Hlen. by apply cell_index_lt.
Qed.

(** A store leaves every other cell as it was. *)
Lemma mirror_cell_miss x y c s x0 y0 :
  (x, y) <> (x0, y0) ->
  cell_at (snd (mirror_cell x y c s)) x0 y0 = cell_at s x0 y0.
Proof.
  intros Hne. rewrite mirror_cell_eq. simpl.
  destruct (cell_in_bounds s x y) eqn:Hb; [|done].
  apply cell_in_bounds_true in Hb as (_ & Hx & Hy).
  unfold cell_at. destruct (shadow_buffer s) as [buf|] eqn:E; [|by rewrite E].
  simpl.
  destruct ((0 <=? x0) && _ && _ && _) eqn:Hb0; [|done].
  rewrite !andb_true_iff, !Z.leb_le, !Z.ltb_lt in Hb0.
  apply list_lookup_insert_ne. intros Heq.
  apply cell_index_inj in Heq; [|lia..]. destruct Heq; congruence.
Qed.

Section ReadBack.

Variable W : World.

Lemma shaped_trace w h fd s t : shaped w h fd s -> shaped w h fd (set_trace t s).
Proof. by intros H. Qed.

Lemma shaped_push w h fd s c :
  shaped w h fd s -> shaped w h fd (set_trace (trace s ++ [c]) s).
Proof. apply shaped_trace. Qed.

Lemma shaped_mirror_cell w h fd x y c : keeps (shaped w h fd) (mirror_cell x y c).
Proof.
  intros s (Hwf & Hw & Hh & Hfd). rewrite mirror_cell_eq. simpl.
  destruct (cell_in_bounds s x y); [|done].
  unfold shaped, wf in *.
  destruct (shadow_buffer s) as [buf|] eqn:E; simpl; [|by rewrite E].
  by rewrite length_insert.
Qed.

Lemma clear_shadow_buffer_eq s :
  wf s ->
  clear_shadow_buffer W s =
    (tt, match shadow_buffer s with
         | Some _ =>
             set_shadow_buffer
               (Some (replicate
                        (Z.to_nat (shadow_buffer_width s * shadow_buffer_height s))
                        (default_cell W))) s
         | None => s
         end).
Proof.
  intros Hwf. unfold clear_shadow_buffer, wf in *. simpl.
  destruct (shadow_buffer s) as [buf|]; [|done].
  destruct Hwf as (Hw & Hh & Hlen).
  replace ((0 <? _) && _) with true
    by (symmetry; rewrite andb_true_iff, !Z.ltb_lt; lia).
  simpl. by rewrite fill_cells_all.
Qed.

Lemma shaped_clear w h fd : keeps (shaped w h fd) (clear_shadow_buffer W).
Proof.
  intros s (Hwf & Hw & Hh & Hfd). rewrite clear_shadow_buffer_eq by done.
  unfold shaped, wf in *. simpl.
  destruct (shadow_buffer s) as [buf|] eqn:E; simpl; [|by rewrite E].
  rewrite length_replicate. tauto.
Qed.

Lemma shaped_run_command w h fd fd' args :
  keeps (shaped w h fd) (run_command W fd' args).
Proof.
  apply keeps_run_command.
  - apply shaped_push.
  - apply shaped_clear.
  - intros. apply shaped_mirror_cell.
Qed.

Lemma wf_handle_client_command fd line s :
  wf s -> wf (snd (handle_client_command W fd line s)).
Proof.
  intros Hwf.
  apply (shaped_run_command (shadow_buffer_width s) (shadow_buffer_height s)
           (client_socket_fd s) fd (parse_command line) s).
  by repeat split.
Qed.

(** [get_cell] on a cell the buffer holds, and on one it does not. *)
Lemma read_shadow_cell_hit fd x y c s :
  cell_at s x y = Some c ->
  read_shadow_cell W fd x y s =
    respond W fd (cell_response W (utf8_buffer_junk W (trace s)) x y c)
            "Error writing OK_CELL response for get_cell" s.
Proof.
  unfold cell_at, read_shadow_cell, cell_in_bounds. simpl.
  destruct (shadow_buffer s) as [buf|]; [|done].
  rewrite bool_decide_eq_true_2 by done. simpl.
  destruct ((0 <=? x) && _ && _ && _); [|done]. simpl.
  by intros ->.
Qed.

Lemma read_shadow_cell_miss fd x y s :
  wf s ->
  ~ (0 <= x < shadow_buffer_width s /\ 0 <= y < shadow_buffer_height s) ->
  read_shadow_cell W fd x y s =
    reject W fd "ERROR invalid_coords_get_cell" s.
Proof.
  intros Hwf Hout. unfold read_shadow_cell. simpl.
  destruct (cell_in_bounds s x y) eqn:Hb; [|done].
  apply cell_in_bounds_true in Hb. tauto.
Qed.

Lemma cstr_utf8_text junk c : cstr (utf8_text W junk c) = utf8_text W junk c.
Proof.
  unfold utf8_text. destruct (tb_utf8_unicode_to_char W c).
  apply cstr_idemp.
Qed.

Lemma cstr_cell_response junk x y c :
  cstr (cell_response W junk x y c) = cell_response W junk x y c.
Proof.
  unfold cell_response.
  rewrite (cstr_app "OK_CELL ") by done. f_equal.
  rewrite cstr_app by apply cstr_fmt_d. f_equal.
  rewrite (cstr_app " ") by done. f_equal.
  rewrite cstr_app by apply cstr_fmt_d. f_equal.
  rewrite (cstr_app " ") by done. f_equal.
  rewrite cstr_app by apply cstr_utf8_text. f_equal.
  rewrite (cstr_app " ") by done. f_equal.
  rewrite cstr_app by apply cstr_fmt_u. f_equal.
  rewrite (cstr_app " ") by done. f_equal.
  apply cstr_fmt_u.
Qed.

(** What the trace shows of a successful [get_cell]. *)
Lemma read_shadow_cell_trace fd x y c s :
  cell_at s x y = Some c ->
  exists tail,
    trace (snd (read_shadow_cell W fd x y s)) =
      trace s
        ++ WriteExact fd
             (cell_response W (utf8_buffer_junk W (trace s)) x y c +:+ nl) :: tail
    /\ (tail = [] \/ exists msg, tail = [Perror msg]).
Proof.
  intros Hc. rewrite (read_shadow_cell_hit _ _ _ c) by done.
  rewrite respond_eq; [|apply cstr_cell_response|done].
  destruct (write_exact_fails W _); simpl.
  - eexists. rewrite <- app_assoc. split; [done|]. right. by eexists.
  - eexists. split; [done|]. by left.
Qed.

End ReadBack.

(** ** change_cell and get_cell *)

Section RoundTrip.

Variable W : World.

Lemma cell_at_set_trace s t x y : cell_at (set_trace t s) x y = cell_at s x y.
Proof. done. Qed.

Lemma respond_cell_at fd line msg s x y :
  cell_at (snd (respond W fd line msg s)) x y = cell_at s x y.
Proof.
  destruct (cell_at s x y) eqn:E.
  - apply (keeps_respond W (fun s => cell_at s x y = Some t)); [|done].
    intros. by rewrite cell_at_set_trace.
  - apply (keeps_respond W (fun s => cell_at s x y = None)); [|done].
    intros. by rewrite cell_at_set_trace.
Qed.

Lemma run_change_cell fd tx ty tc tf tb s :
  run_command W fd ["change_cell"; tx; ty; tc; tf; tb]%string s =
    (emit (TbChangeCell (atoi tx) (atoi ty) (to_uint32 (strtoul tc))
                        (to_uint16 (atoi tf)) (to_uint16 (atoi tb))) ;;
     mirror_cell (atoi tx) (atoi ty)
       {| ch := to_uint32 (strtoul tc); fg := to_uint16 (atoi tf);
          bg := to_uint16 (atoi tb) |} ;;
     respond W fd "OK" "Error writing OK response for change_cell") s.
Proof. reflexivity. Qed.

Lemma run_get_cell fd tx ty s :
  run_command W fd ["get_cell"; tx; ty]%string s =
    read_shadow_cell W fd (atoi tx) (atoi ty) s.
Proof. reflexivity. Qed.

(** After [change_cell] on an in-bounds cell, the buffer holds the cell. *)
Lemma change_cell_stores fd tx ty tc tf tb s :
  wf s ->
  0 <= atoi tx < shadow_buffer_width s ->
  0 <= atoi ty < shadow_buffer_height s ->
  cell_at (snd (run_command W fd ["change_cell"; tx; ty; tc; tf; tb]%string s))
          (atoi tx) (atoi ty)
  = Some {| ch := to_uint32 (strtoul tc); fg := to_uint16 (atoi tf);
            bg := to_uint16 (atoi tb) |}.
Proof.
  intros Hwf Hx Hy. rewrite run_change_cell.
  cbn [bind emit].
  match goal with
  | |- context [mirror_cell ?x ?y ?c ?s0] =>
      pose proof (mirror_cell_hit x y c s0) as Hhit;
      destruct (mirror_cell x y c s0) as [[] s1]
  end.
  rewrite respond_cell_at. apply Hhit; done.
Qed.

End RoundTrip.

Lemma respond_answers W fd line s r msg :
  cstr r = r -> r <> EmptyString ->
  handle_client_command W fd line s = respond W fd r msg s ->
  answers W fd line s r.
Proof.
  intros Hc Hne Heq. unfold answers. rewrite Heq, respond_eq by done.
  destruct (write_exact_fails W _); simpl.
  - eexists. rewrite <- app_assoc. split; [done|]. right. by eexists.
  - eexists. split; [done|]. by left.
Qed.

Lemma reject_answers W fd line s r :
  cstr r = r -> r <> EmptyString ->
  handle_client_command W fd line s = reject W fd r s ->
  answers W fd line s r.
Proof.
  intros Hc Hne Heq. unfold answers. rewrite Heq, reject_eq by done.
  eexists. split; [done|]. by left.
Qed.

Lemma get_cell_answers W fd line tx ty s c :
  parse_command line = ["get_cell"; tx; ty]%string ->
  cell_at s (atoi tx) (atoi ty) = Some c ->
  answers W fd line s
    (cell_response W (utf8_buffer_junk W (trace s)) (atoi tx) (atoi ty) c).
Proof.
  intros Hp Hc.
  apply respond_answers with (msg := "Error writing OK_CELL response for get_cell"%string).
  - apply cstr_cell_response.
  - done.
  - unfold handle_client_command. rewrite Hp, run_get_cell.
    by apply read_shadow_cell_hit.
Qed.

Lemma get_cell_answers_error W fd line tx ty s :
  parse_command line = ["get_cell"; tx; ty]%string ->
  wf s ->
  ~ (0 <= atoi tx < shadow_buffer_width s /\
     0 <= atoi ty < shadow_buffer_height s) ->
  answers W fd line s "ERROR invalid_coords_get_cell".
Proof.
  intros Hp Hwf Hout. apply reject_answers; [done..|].
  unfold handle_client_command. rewrite Hp, run_get_cell.
  by apply read_shadow_cell_miss.
Qed.

(** ** Resize events *)

Section Resize.

Variable W : World.

Lemma cstr_event_line ev : cstr (event_line ev) = event_line ev.
Proof.
  unfold event_line.
  repeat first
    [ apply cstr_fmt_d
    | rewrite (cstr_app (fmt_u _)) by apply cstr_fmt_u; f_equal
    | rewrite (cstr_app (fmt_d _)) by apply cstr_fmt_d; f_equal
    | rewrite cstr_app by done; f_equal ].
Qed.

Lemma event_line_nonempty ev : event_line ev <> EmptyString.
Proof. done. Qed.

Lemma send_event_to_client_eq fd ev s :
  send_event_to_client W fd ev s =
    (tt,
     if write_exact_fails W (trace s ++ [WriteExact fd (event_line ev +:+ nl)])
     then push (Perror "Error writing event to client socket")
               (push (WriteExact fd (event_line ev +:+ nl)) s)
     else push (WriteExact fd (event_line ev +:+ nl)) s).
Proof.
  unfold send_event_to_client. cbn [bind].
  rewrite write_socket_line_eq
    by (apply cstr_event_line || apply event_line_nonempty).
  destruct (write_exact_fails W _); [done|].
  destruct (_ <? 0) eqn:E; [apply Z.ltb_lt in E; lia|done].
Qed.

Lemma holds_default_run_command w h x y fd args :
  0 <= x < w -> 0 <= y < h ->
  may_write args x y = false ->
  keeps (holds_default W w h x y) (run_command W fd args).
Proof.
  intros Hx Hy Hspare. apply keeps_run_command.
  - by intros s t Hs.
  - intros s ((Hwf & Hw & Hh) & Hc).
    pose proof (shaped_clear W w h (client_socket_fd s) s) as Hk.
    destruct Hk as (Hwf' & Hw' & Hh' & _); [done|].
    split; [done|].
    rewrite clear_shadow_buffer_eq in * by done. simpl in *.
    unfold cell_at in *.
    destruct (shadow_buffer s) as [buf|]; [|done]. simpl in *.
    destruct ((0 <=? x) && _ && _ && _); [|done].
    apply lookup_replicate_2. subst w h. by apply cell_index_lt.
  - intros x' y' c Hmay s ((Hwf & Hw & Hh) & Hc).
    pose proof (shaped_mirror_cell w h (client_socket_fd s) x' y' c s) as Hk.
    destruct Hk as (Hwf' & Hw' & Hh' & _); [done|].
    split; [done|].
    rewrite mirror_cell_miss; [done|].
    intros [= -> ->]. congruence.
Qed.


Lemma shaped_dispatch_all w h fd0 fd lines s :
  shaped w h fd0 s -> shaped w h fd0 (dispatch_all W fd lines s).
Proof.
  revert s. induction lines as [|l lines IH]; intros s Hs; [done|].
  simpl. apply IH. by apply shaped_run_command.
Qed.

(** Step 1 of a turn on a resize event whose allocation works. *)
Lemma poll_terminal_resize s r ev block :
  tb_peek_event_ret W (trace s ++ [TbPeekEvent 10]) = (r, ev) ->
  0 < r -> ev_type ev = TB_EVENT_RESIZE W ->
  0 < ev_w ev -> 0 < ev_h ev -> fits (ev_w ev) (ev_h ev) ->
  malloc_ret W (trace s ++ [TbPeekEvent 10] ++ freed s
                  ++ [Malloc (ev_w ev * ev_h ev * sizeof_tb_cell)])
    = Some block ->
  poll_terminal W s =
    send_event_to_client W (client_socket_fd s) ev
      (with_cache
         (Some (replicate (Z.to_nat (ev_w ev * ev_h ev)) (default_cell W)))
         (ev_w ev) (ev_h ev)
         (trace s ++ [TbPeekEvent 10] ++ freed s
            ++ [Malloc (ev_w ev * ev_h ev * sizeof_tb_cell)]) s).
Proof.
  intros Hpeek Hr Hty Hw Hh Hfits Hmem.
  unfold poll_terminal. cbn [bind get emit]. rewrite Hpeek.
  replace (0 <? r) with true by (symmetry; by apply Z.ltb_lt).
  rewrite Hty, Z.eqb_refl. cbn [when bind].
  rewrite update_shadow_buffer_size_eq. cbn [trace set_trace freed shadow_buffer].
  replace ((ev_w ev <=? 0) || (ev_h ev <=? 0)) with false
    by (symmetry; apply orb_false_iff; split; apply Z.leb_gt; lia).
  change (freed (set_trace _ s)) with (freed s).
  rewrite buffer_size_fits by done.
  rewrite <- !app_assoc. rewrite Hmem.
  by rewrite fresh_cells_fits.
Qed.

End Resize.

(** ** Argument counts *)

(** ** print *)

Lemma string_app_empty_r a : a +:+ EmptyString = a.
Proof. induction a as [|c a IH]; simpl; by f_equal. Qed.

Lemma rejoined_cons a words : rejoined (a :: words) = a +:+ rejoined_tail words.
Proof.
  revert a. induction words as [|a' words IH]; intros a.
  - cbn [rejoined_tail]. by rewrite string_app_empty_r.
  - change (rejoined (a :: a' :: words)) with (a +:+ " " +:+ rejoined (a' :: words)).
    by rewrite IH.
Qed.

Lemma rebuild_text_tail words acc :
  Z.of_nat (String.length (acc +:+ rejoined_tail words)) < SOCKET_BUFFER_SIZE ->
  rebuild_text words false acc = Some (acc +:+ rejoined_tail words).
Proof.
  revert acc. induction words as [|a words IH]; intros acc Hlen.
  - cbn [rebuild_text rejoined_tail]. by rewrite string_app_empty_r.
  - cbn [rebuild_text rejoined_tail] in *.
    rewrite <- !string_app_assoc in Hlen.
    rewrite !length_app_string in Hlen.
    destruct (SOCKET_BUFFER_SIZE <=? _) eqn:E.
    { apply Z.leb_le in E. cbn [String.length] in Hlen. lia. }
    rewrite IH.
    + by rewrite !string_app_assoc.
    + rewrite !length_app_string. cbn [String.length] in *. lia.
Qed.

(** The text buffer holds the rejoined text whenever that fits. *)
Lemma rebuild_text_rejoined words :
  Z.of_nat (String.length (rejoined words)) < SOCKET_BUFFER_SIZE ->
  rebuild_text words true EmptyString = Some (rejoined words).
Proof.
  destruct words as [|a words]; [done|].
  rewrite rejoined_cons. intros Hlen. cbn [rebuild_text].
  rewrite length_app_string in Hlen.
  destruct (SOCKET_BUFFER_SIZE <=? _) eqn:E.
  { apply Z.leb_le in E. simpl in E. lia. }
  change (EmptyString +:+ EmptyString +:+ a) with a.
  apply rebuild_text_tail. by rewrite length_app_string.
Qed.

Section Print.

Variable W : World.

Lemma length_drop n s : (String.length (drop n s) <= String.length s - n)%nat.
Proof.
  revert s. induction n as [|n IH]; intros s; simpl; [lia|].
  destruct s as [|c s]; simpl; [lia|]. apply IH.
Qed.

(** Fuel beyond the length of the text changes nothing. *)
Lemma codepoints_enough fuel fuel' text :
  (String.length text <= fuel)%nat -> (String.length text <= fuel')%nat ->
  codepoints W fuel text = codepoints W fuel' text.
Proof.
  revert fuel' text.
  induction fuel as [|fuel IH]; intros fuel' text Hlen Hlen'.
  - destruct text; [by destruct fuel'|simpl in Hlen; lia].
  - destruct text as [|c text]; [by destruct fuel'|].
    destruct fuel' as [|fuel']; [simpl in Hlen'; lia|].
    cbn [codepoints].
    destruct (tb_utf8_char_to_unicode W _) as [cp n].
    destruct (_ =? 0); [done|]. f_equal.
    pose proof (length_drop (Pos.to_nat n) (String c text)) as Hd.
    simpl in Hlen, Hlen', Hd. apply IH; lia.
Qed.

Lemma codepoints_fuel fuel text :
  (String.length text <= fuel)%nat -> codepoints W fuel text = decoded W text.
Proof. intros Hlen. by apply codepoints_enough. Qed.

Lemma print_loop_paint fuel text x y f b s :
  print_loop W fuel text x y f b s = paint x y f b (codepoints W fuel text) s.
Proof.
  revert text x s. induction fuel as [|fuel IH]; intros text x s; [done|].
  destruct text as [|c text]; [done|].
  cbn [print_loop codepoints].
  destruct (tb_utf8_char_to_unicode W _) as [cp n].
  destruct (_ =? 0); [done|].
  cbn [paint bind emit].
  destruct (mirror_cell _ _ _ _) as [[] s1]. apply IH.
Qed.

Lemma mirror_cell_trace x y c s : trace (snd (mirror_cell x y c s)) = trace s.
Proof.
  rewrite mirror_cell_eq. simpl.
  destruct (cell_in_bounds s x y); [|done]. by destruct (shadow_buffer s).
Qed.

(** While the walk fits, [current_x++] adds one. *)
Lemma next_column_fits x n :
  walk_fits x (S n) -> next_column x = x + 1 /\ walk_fits (x + 1) n.
Proof.
  unfold walk_fits, next_column, to_int, INT_MAX. intros [Hlo Hhi].
  split; [|lia]. rewrite Z.mod_small; lia.
Qed.

Lemma paint_trace x y f b cps s :
  walk_fits x (length cps) ->
  trace (snd (paint x y f b cps s)) = trace s ++ paint_calls x y f b cps.
Proof.
  revert x s. induction cps as [|cp cps IH]; intros x s Hfit.
  - simpl. by rewrite app_nil_r.
  - cbn [paint bind emit].
    apply next_column_fits in Hfit as [-> Hfit].
    destruct (mirror_cell _ _ _ _) as [[] s1] eqn:E.
    rewrite IH by done.
    replace (trace s1) with (trace (snd (mirror_cell x y {| ch := cp; fg := f; bg := b |}
      (set_trace (trace s ++ [TbChangeCell x y cp f b]) s)))) by (by rewrite E).
    rewrite mirror_cell_trace. cbn [trace set_trace].
    rewrite <- app_assoc. f_equal. unfold paint_calls. cbn [imap app].
    rewrite Z.add_0_r. f_equal. apply imap_ext. intros i c _. simpl.
    f_equal. lia.
Qed.

Lemma paint_shaped w h fd x y f b cps :
  keeps (shaped w h fd) (paint x y f b cps).
Proof.
  revert x. induction cps as [|cp cps IH]; intros x; [by intros s|].
  cbn [paint].
  apply keeps_bind; [apply keeps_emit, shaped_push|]. intros _.
  apply keeps_bind; [apply shaped_mirror_cell|]. intros _. apply IH.
Qed.

Lemma cell_at_is_Some s x y :
  wf s ->
  is_Some (cell_at s x y) <->
  0 <= x < shadow_buffer_width s /\ 0 <= y < shadow_buffer_height s.
Proof.
  intros Hwf. unfold cell_at, wf in *.
  destruct (shadow_buffer s) as [buf|].
  - destruct Hwf as (Hw & Hh & Hlen).
    destruct ((0 <=? x) && _ && _ && _) eqn:E.
    + rewrite !andb_true_iff, !Z.leb_le, !Z.ltb_lt in E.
      split; [lia|]. intros _. apply lookup_lt_is_Some.
      rewrite Hlen. apply cell_index_lt; lia.
    + split; [by intros [? ?]|]. intros Hb.
      rewrite !andb_false_iff, !Z.leb_gt, !Z.ltb_ge in E. lia.
  - split; [by intros [? ?]|lia].
Qed.

Lemma mirror_cell_same x y c s :
  wf s ->
  cell_at (snd (mirror_cell x y c s)) x y =
    match cell_at s x y with Some _ => Some c | None => None end.
Proof.
  intros Hwf. destruct (cell_at s x y) as [c0|] eqn:E.
  - assert (Hb : is_Some (cell_at s x y)) by (by rewrite E).
    apply cell_at_is_Some in Hb as [Hx Hy]; [|done].
    by apply mirror_cell_hit.
  - rewrite mirror_cell_eq. simpl.
    destruct (cell_in_bounds s x y) eqn:Hb; [|done].
    apply cell_in_bounds_true in Hb as (_ & Hx & Hy).
    assert (is_Some (cell_at s x y)) as [? ?] by (by apply cell_at_is_Some).
    congruence.
Qed.

(** The cells after the walk: where the walk got to, the painted cell if
    the position is in bounds, and everywhere else the cell of before. *)
Lemma paint_cells x y f b cps s x' y' :
  wf s -> walk_fits x (length cps) ->
  cell_at (snd (paint x y f b cps s)) x' y' =
    match painted x y cps x' y' with
    | Some cp =>
        match cell_at s x' y' with
        | Some _ => Some {| ch := cp; fg := f; bg := b |}
        | None => None
        end
    | None => cell_at s x' y'
    end.
Proof.
  revert x s. induction cps as [|cp cps IH]; intros x s Hwf Hfit.
  - unfold painted. simpl. by destruct (_ && _).
  - cbn [paint bind emit].
    apply next_column_fits in Hfit as [-> Hfit].
    set (s0 := set_trace _ s).
    assert (Hwf0 : wf s0) by done.
    pose proof (shaped_mirror_cell _ _ _ x y {| ch := cp; fg := f; bg := b |} s0
                  (conj Hwf0 (conj eq_refl (conj eq_refl eq_refl)))) as (Hwf1 & _).
    pose proof (mirror_cell_same x y {| ch := cp; fg := f; bg := b |} s0 Hwf0) as Hsame.
    pose proof (fun H => mirror_cell_miss x y {| ch := cp; fg := f; bg := b |} s0 x' y' H)
      as Hmiss.
    destruct (mirror_cell _ _ _ s0) as [[] s1]. cbn [snd] in *.
    rewrite IH by done. unfold painted.
    destruct (decide (x' = x /\ y' = y)) as [[-> ->]|Hne].
    + rewrite Z.eqb_refl. cbn [andb].
      replace (x + 1 <=? x) with false by (symmetry; apply Z.leb_gt; lia).
      replace (x <=? x) with true by (symmetry; apply Z.leb_le; lia).
      rewrite Z.sub_diag. cbn [lookup]. simpl. apply Hsame.
    + rewrite Hmiss by (intros [= -> ->]; tauto).
      change (cell_at s0 x' y') with (cell_at s x' y').
      destruct (y' =? y) eqn:Ey; [|done]. cbn [andb].
      apply Z.eqb_eq in Ey.
      destruct (x + 1 <=? x') eqn:E1.
      * apply Z.leb_le in E1.
        replace (x <=? x') with true by (symmetry; apply Z.leb_le; lia).
        replace (Z.to_nat (x' - x)) with (S (Z.to_nat (x' - (x + 1)))) by lia.
        done.
      * apply Z.leb_gt in E1.
        destruct (x <=? x') eqn:E2; [|done].
        apply Z.leb_le in E2. assert (x' = x) by lia. tauto.
Qed.

(** A cell off the columns of the walk, or off its row, is left as it
    was. *)
Lemma paint_frame x y f b cps s x' y' :
  (y' =? y) && existsb (Z.eqb x') (columns x (length cps)) = false ->
  cell_at (snd (paint x y f b cps s)) x' y' = cell_at s x' y'.
Proof.
  revert x s. induction cps as [|cp cps IH]; intros x s Hoff; [done|].
  cbn [paint bind emit].
  set (s0 := set_trace _ s).
  pose proof (fun H => mirror_cell_miss x y {| ch := cp; fg := f; bg := b |} s0 x' y' H)
    as Hmiss.
  destruct (mirror_cell _ _ _ s0) as [[] s1]. cbn [snd] in *.
  cbn [length columns existsb] in Hoff.
  rewrite IH.
  - rewrite Hmiss; [done|].
    intros [= -> ->]. by rewrite !Z.eqb_refl in Hoff.
  - destruct (y' =? y); [|done]. cbn [andb] in *.
    by apply orb_false_iff in Hoff as [_ Hoff].
Qed.

End Print.

Lemma run_print W fd tx ty tf tb word words s :
  Z.of_nat (String.length (rejoined (word :: words))) < SOCKET_BUFFER_SIZE ->
  run_command W fd ("print" :: tx :: ty :: tf :: tb :: word :: words)%string s =
    (paint (atoi tx) (atoi ty) (to_uint16 (atoi tf)) (to_uint16 (atoi tb))
           (decoded W (rejoined (word :: words))) ;;
     respond W fd "OK" "Error writing OK response for print") s.
Proof.
  intros Hlen. unfold run_command.
  cbn [String.eqb Ascii.eqb Bool.eqb length Nat.leb nth skipn].
  rewrite rebuild_text_rejoined by done.
  cbn [bind]. rewrite print_loop_paint.
  by rewrite codepoints_fuel.
Qed.

(** A command that does not store into the cell [(x, y)] leaves the default
    cell there. *)
Lemma holds_default_spared W w h x y fd args :
  0 <= x < w -> 0 <= y < h ->
  stores_at W args x y = false ->
  keeps (holds_default W w h x y) (run_command W fd args).
Proof.
  intros Hx Hy Hspare.
  assert (Hpush : forall s c, holds_default W w h x y s ->
                    holds_default W w h x y (set_trace (trace s ++ [c]) s))
    by (by intros s c Hs).
  destruct args as [|cmd rest]; [by intros s|].
  destruct (String.eqb cmd "change_cell") eqn:Ecc.
  - apply String.eqb_eq in Ecc. subst cmd.
    unfold stores_at in Hspare. cbn [String.eqb Ascii.eqb Bool.eqb] in Hspare.
    destruct (length ("change_cell"%string :: rest) =? 6)%nat eqn:El.
    + apply holds_default_run_command; [done..|].
      unfold may_write. cbn [String.eqb Ascii.eqb Bool.eqb]. exact Hspare.
    + unfold run_command. cbn [String.eqb Ascii.eqb Bool.eqb]. rewrite El.
      by apply keeps_reject.
  - destruct (String.eqb cmd "print") eqn:Ep.
    + apply String.eqb_eq in Ep. subst cmd.
      unfold stores_at in Hspare. cbn [String.eqb Ascii.eqb Bool.eqb] in Hspare.
      unfold run_command. cbn [String.eqb Ascii.eqb Bool.eqb].
      destruct (6 <=? length ("print"%string :: rest))%nat; [|by apply keeps_reject].
      destruct (rebuild_text _ _ _) as [text|]; [|by apply keeps_reject].
      apply keeps_bind; [|intros _; by apply keeps_respond].
      intros s ((Hwf & Hw & Hh) & Hc). rewrite print_loop_paint.
      split.
      * match goal with
        | |- context [paint ?x0 ?y0 ?f ?b ?cps s] =>
            destruct (paint_shaped w h (client_socket_fd s) x0 y0 f b cps s)
              as (Hwf' & Hw' & Hh' & _); [done|]
        end.
        done.
      * rewrite paint_frame; [done|]. exact Hspare.
    + apply holds_default_run_command; [done..|].
      unfold may_write. by rewrite Ecc, Ep.
Qed.

Lemma holds_default_dispatch_all W w h x y fd lines s :
  0 <= x < w -> 0 <= y < h ->
  Forall (fun l => stores_at W (parse_command l) x y = false) lines ->
  holds_default W w h x y s ->
  holds_default W w h x y (dispatch_all W fd lines s).
Proof.
  intros Hx Hy Hall. revert s.
  induction Hall as [|l lines Hl _ IH]; intros s Hs; [done|].
  simpl. apply IH. by apply holds_default_spared.
Qed.

(** ** Line framing *)

Lemma strchr_lf_line l rest :
  is_line l -> strchr_lf (l +:+ nl +:+ rest) = Some (l, rest).
Proof.
  unfold is_line. induction l as [|c l IH]; intros Hl; [done|].
  cbn [all_chars] in Hl. apply andb_true_iff in Hl as [Hc Hl].
  unfold plain in Hc. apply andb_true_iff in Hc as [H1 H2].
  apply negb_true_iff in H1, H2.
  change (String c l +:+ nl +:+ rest) with (String c (l +:+ nl +:+ rest)).
  cbn [strchr_lf]. by rewrite H1, H2, IH.
Qed.

Lemma framed_length lines rem :
  (length lines <= String.length (framed lines rem))%nat.
Proof.
  induction lines as [|l lines IH]; [simpl; lia|].
  cbn [framed length]. rewrite !length_app_string. cbn [String.length nl]. lia.
Qed.

Section Lines.

Variable W : World.

Lemma line_loop_framed fd lines rem fuel v s :
  Forall is_line lines -> strchr_lf rem = None ->
  (length lines <= fuel)%nat ->
  exists line_start,
    line_loop W fuel fd (framed lines rem) v s =
      (line_start, fst (dispatch_seq W fd lines v s), snd (dispatch_seq W fd lines v s))
    /\ (keep_running (fst (dispatch_seq W fd lines v s)) = true -> line_start = rem).
Proof.
  intros Hlines Hrem. revert fuel s.
  induction Hlines as [|l lines Hl _ IH]; intros fuel s Hfuel.
  - exists rem. split; [|done]. cbn [framed dispatch_seq ret fst snd].
    destruct fuel; cbn [line_loop]; [done|]. by rewrite Hrem.
  - destruct fuel as [|fuel]; [simpl in Hfuel; lia|].
    cbn [framed line_loop dispatch_seq]. rewrite strchr_lf_line by done.
    unfold bind.
    destruct (handle_client_command W fd l s) as [r s1].
    destruct (r =? 1); [eexists; split; [reflexivity|by intros H]|].
    destruct (r <? 0); [eexists; split; [reflexivity|by intros H]|].
    apply IH. simpl in Hfuel. lia.
Qed.

(** The block for [bytes_read > 0] hands the complete lines of the buffer to
    the handler in their order of arrival and keeps the incomplete rest. *)
Lemma process_received_framed data lines rem v s :
  socket_buffer v +:+ data = framed lines rem ->
  Forall is_line lines -> strchr_lf rem = None ->
  process_received W data v s =
    let r := dispatch_seq W (client_socket_fd s) lines v s in
    (if keep_running (fst r)
     then set_socket_buffer
            (if SOCKET_BUFFER_SIZE - 1 <=? Z.of_nat (String.length rem)
             then EmptyString else rem) (fst r)
     else fst r,
     snd r).
Proof.
  intros Hbuf Hlines Hrem. unfold process_received. cbn [bind get].
  rewrite Hbuf.
  destruct (line_loop_framed (client_socket_fd s) lines rem
              (String.length (framed lines rem)) v s Hlines Hrem
              (framed_length lines rem)) as (ls & -> & Hls).
  cbn zeta.
  destruct (keep_running (fst (dispatch_seq W _ lines v s))) eqn:E; cbn [negb].
  - rewrite Hls by done. by destruct (_ <=? _).
  - done.
Qed.

End Lines.

(** ** One turn of the serving loop *)

Lemma substring_all n s : (String.length s <= n)%nat -> substring 0 n s = s.
Proof.
  revert n. induction s as [|c s IH]; intros n Hlen.
  - by destruct n.
  - destruct n as [|n]; [simpl in Hlen; lia|].
    simpl. f_equal. apply IH. simpl in Hlen. lia.
Qed.

Section Turn.

Variable W : World.

Lemma poll_terminal_fd s :
  client_socket_fd (snd (poll_terminal W s)) = client_socket_fd s.
Proof.
  unfold poll_terminal. cbn [bind get emit].
  destruct (tb_peek_event_ret W _) as [r ev].
  destruct (0 <? r); [|done]. cbn [bind].
  set (s0 := set_trace _ s).
  assert (Hfd : forall s', client_socket_fd s' = client_socket_fd s ->
                client_socket_fd (snd (send_event_to_client W (client_socket_fd s) ev s'))
                = client_socket_fd s).
  { intros s' Hs'.
    by apply (keeps_send_event W (fun x => client_socket_fd x = client_socket_fd s)). }
  destruct (ev_type ev =? TB_EVENT_RESIZE W); cbn [when].
  - pose proof (update_shadow_buffer_size_fd W (ev_w ev) (ev_h ev) s0) as Hk.
    destruct (update_shadow_buffer_size W (ev_w ev) (ev_h ev) s0) as [[] s1].
    by apply Hfd.
  - by apply Hfd.
Qed.

(** What step 1 leaves in the trace when an event is pending: the peek,
    the calls of a resize if it is one, then the event line. *)
Lemma poll_terminal_forwards s r ev :
  tb_peek_event_ret W (trace s ++ [TbPeekEvent 10]) = (r, ev) -> 0 < r ->
  exists pre tail,
    trace (snd (poll_terminal W s)) =
      trace s ++ pre ++ WriteExact (client_socket_fd s) (event_line ev +:+ nl) :: tail
    /\ Forall (fun c => is_write c = false) pre
    /\ (tail = [] \/ exists msg, tail = [Perror msg]).
Proof.
  intros Hpeek Hr. unfold poll_terminal. cbn [bind get emit]. rewrite Hpeek.
  replace (0 <? r) with true by (symmetry; by apply Z.ltb_lt).
  cbn [bind].
  set (s0 := set_trace _ s).
  assert (Hsend : forall s' pre,
            trace s' = trace s ++ pre ->
            Forall (fun c => is_write c = false) pre ->
            exists pre tail,
              trace (snd (send_event_to_client W (client_socket_fd s) ev s')) =
                trace s ++ pre
                  ++ WriteExact (client_socket_fd s) (event_line ev +:+ nl) :: tail
              /\ Forall (fun c => is_write c = false) pre
              /\ (tail = [] \/ exists msg, tail = [Perror msg])).
  { intros s' pre Ht Hpre. rewrite send_event_to_client_eq. cbn [snd].
    destruct (write_exact_fails W _); cbn [push trace set_trace]; rewrite Ht.
    - exists pre, [Perror "Error writing event to client socket"%string].
      split; [by rewrite <- !app_assoc|]. split; [done|]. right. by eexists.
    - exists pre, []. split; [by rewrite <- !app_assoc|]. split; [done|]. by left. }
  destruct (ev_type ev =? TB_EVENT_RESIZE W); cbn [when].
  - pose proof (update_shadow_buffer_size_eq W (ev_w ev) (ev_h ev) s0) as Heq.
    destruct (update_shadow_buffer_size W (ev_w ev) (ev_h ev) s0) as [[] s1].
    injection Heq as Hs1.
    assert (Hfreed : Forall (fun c => is_write c = false) (freed s0)).
    { unfold freed. destruct (shadow_buffer s0); repeat constructor. }
    destruct ((ev_w ev <=? 0) || (ev_h ev <=? 0)).
    + apply (Hsend s1 ([TbPeekEvent 10] ++ freed s0)).
      * subst s1. cbn [trace with_cache s0 set_trace]. by rewrite <- app_assoc.
      * apply Forall_app. split; [repeat constructor|done].
    + destruct (malloc_ret W _).
      * apply (Hsend s1 ([TbPeekEvent 10] ++ freed s0
                           ++ [Malloc (buffer_size (ev_w ev) (ev_h ev))])).
        -- subst s1. cbn [trace with_cache s0 set_trace]. by rewrite <- !app_assoc.
        -- apply Forall_app. split; [repeat constructor|].
           apply Forall_app. split; [done|repeat constructor].
      * apply (Hsend s1 ([TbPeekEvent 10] ++ freed s0
                           ++ [Malloc (buffer_size (ev_w ev) (ev_h ev));
                               Stderr (alloc_failure_log (ev_w ev) (ev_h ev))])).
        -- subst s1. cbn [trace with_cache s0 set_trace]. by rewrite <- !app_assoc.
        -- apply Forall_app. split; [repeat constructor|].
           apply Forall_app. split; [done|repeat constructor].
  - apply (Hsend s0 [TbPeekEvent 10]); [done|repeat constructor].
Qed.

(** Steps 2 and 3 when the socket is readable and [read] gives bytes. *)
Lemma poll_socket_data v s a e data :
  let fd := client_socket_fd s in
  let count :=
    SOCKET_BUFFER_SIZE - 1 - Z.of_nat (String.length (socket_buffer v)) in
  select_ret W (trace s ++ [Select fd]) = (a, e) -> 0 < a ->
  read_ret W (trace s ++ [Select fd; Read fd count]) = ReadBytes data ->
  data <> EmptyString -> Z.of_nat (String.length data) <= count ->
  poll_socket W v s =
    process_received W data v (push (Read fd count) (push (Select fd) s)).
Proof.
  intros fd count Hsel Ha Hread Hne Hlen.
  unfold poll_socket. cbn [bind get emit]. fold fd. rewrite Hsel.
  replace (a <? 0) with false by (symmetry; apply Z.ltb_ge; lia).
  replace (a =? 0) with false by (symmetry; apply Z.eqb_neq; lia).
  cbn [andb bind ret emit trace set_trace].
  fold count.
  replace (read_ret W ((trace s ++ [Select fd]) ++ [Read fd count]))
    with (ReadBytes data) by (by rewrite <- app_assoc).
  rewrite substring_all by lia.
  destruct data as [|c data]; [done|]. reflexivity.
Qed.

(** Steps 2 and 3 on a readable socket: the complete lines of the buffer
    go to the handler in their order of arrival. *)
Lemma poll_socket_framed v s a e data lines rem :
  let fd := client_socket_fd s in
  let count :=
    SOCKET_BUFFER_SIZE - 1 - Z.of_nat (String.length (socket_buffer v)) in
  select_ret W (trace s ++ [Select fd]) = (a, e) -> 0 < a ->
  read_ret W (trace s ++ [Select fd; Read fd count]) = ReadBytes data ->
  data <> EmptyString -> Z.of_nat (String.length data) <= count ->
  socket_buffer v +:+ data = framed lines rem ->
  Forall is_line lines -> strchr_lf rem = None ->
  let r := dispatch_seq W fd lines v (push (Read fd count) (push (Select fd) s)) in
  poll_socket W v s =
    (if keep_running (fst r)
     then set_socket_buffer
            (if SOCKET_BUFFER_SIZE - 1 <=? Z.of_nat (String.length rem)
             then EmptyString else rem) (fst r)
     else fst r,
     snd r).
Proof.
  intros fd count Hsel Ha Hread Hne Hlen Hbuf Hlines Hrem r.
  rewrite (poll_socket_data v s a e data) by done.
  by rewrite (process_received_framed W data lines rem).
Qed.

Lemma loop_body_eq v s : loop_body W v s = poll_socket W v (snd (poll_terminal W s)).
Proof. unfold loop_body. cbn [bind]. by destruct (poll_terminal W s) as [[] s1]. Qed.

Lemma serve_stopped turns v s :
  keep_running v = false -> serve W turns v s = (v, s).
Proof. intros Hv. destruct turns; simpl; [done|]. by rewrite Hv. Qed.

Lemma serve_add a b v s :
  serve W (a + b) v s =
    let '(v', s') := serve W a v s in serve W b v' s'.
Proof.
  revert v s. induction a as [|a IH]; intros v s; [done|].
  cbn [Nat.add serve]. destruct (keep_running v) eqn:E.
  - cbn [bind]. destruct (loop_body W v s) as [v1 s1]. apply IH.
  - cbn [ret]. by rewrite serve_stopped.
Qed.

Lemma dispatch_seq_run_through fd before rest v s s' :
  run_through W fd before s = Some s' ->
  dispatch_seq W fd (before ++ rest) v s = dispatch_seq W fd rest v s'.
Proof.
  revert s. induction before as [|l before IH]; intros s Hrun.
  - by injection Hrun as ->.
  - cbn [app dispatch_seq run_through] in *. unfold bind.
    destruct (handle_client_command W fd l s) as [r s1].
    destruct (r =? 1); [done|]. destruct (r <? 0); [done|].
    by apply IH.
Qed.

End Turn.

(** ** shutdown *)

Lemma run_shutdown W fd rest s :
  run_command W fd ("shutdown" :: rest)%string s =
    (1, push (WriteExact fd ("OK" +:+ nl)) s).
Proof.
  unfold run_command. cbn [String.eqb Ascii.eqb Bool.eqb bind].
  by rewrite write_socket_line_eq.
Qed.

(** ** Failed writes *)

(** ** Invariants of the whole program *)

Section KeepsLoop.

Variable W : World.
Variable I : state -> Prop.
Hypothesis I_push : forall s c, I s -> I (set_trace (trace s ++ [c]) s).
Hypothesis I_fd : forall s fd, I s -> I (set_client_socket_fd fd s).
Hypothesis I_resize :
  forall h, keeps I (update_shadow_buffer_size W
                       (ev_w (snd (tb_peek_event_ret W h)))
                       (ev_h (snd (tb_peek_event_ret W h)))).
Hypothesis I_command : forall fd args, keeps I (run_command W fd args).

Lemma keeps_get_then {A} (k : state -> M A) :
  (forall s0, keeps I (k s0)) -> keeps I (bind get k).
Proof. intros Hk s Hs. cbn [bind get]. by apply Hk. Qed.

Lemma keeps_line_loop fuel fd line_start v :
  keeps I (line_loop W fuel fd line_start v).
Proof.
  revert line_start. induction fuel as [|fuel IH]; intros line_start;
    cbn [line_loop]; [apply keeps_ret|].
  destruct (strchr_lf line_start) as [[line rest]|]; [|apply keeps_ret].
  apply keeps_bind; [apply I_command|]. intros r.
  destruct (r =? 1); [apply keeps_ret|].
  destruct (r <? 0); [apply keeps_ret|]. apply IH.
Qed.

Lemma keeps_poll_terminal : keeps I (poll_terminal W).
Proof.
  unfold poll_terminal. apply keeps_get_then. intros s0.
  apply keeps_bind; [by apply keeps_emit|]. intros h.
  pose proof (I_resize h) as Hresize.
  destruct (tb_peek_event_ret W h) as [r ev]. cbn [snd] in Hresize.
  destruct (0 <? r); [|apply keeps_ret].
  apply keeps_bind; [|intros _; by apply keeps_send_event].
  destruct (_ =? _); cbn [when]; [apply Hresize|apply keeps_ret].
Qed.

Lemma keeps_process_received data v : keeps I (process_received W data v).
Proof.
  unfold process_received. apply keeps_get_then. intros s0.
  apply keeps_bind; [apply keeps_line_loop|]. intros [ls v'].
  destruct (negb _); [apply keeps_ret|]. destruct (_ <=? _); apply keeps_ret.
Qed.

Lemma keeps_poll_socket v : keeps I (poll_socket W v).
Proof.
  unfold poll_socket. apply keeps_get_then. intros s0.
  apply keeps_bind; [by apply keeps_emit|]. intros h.
  destruct (select_ret W h) as [a e].
  destruct (_ && _); [apply keeps_ret|].
  destruct (a =? 0); [apply keeps_ret|].
  apply keeps_bind.
  { destruct (a <? 0); [|apply keeps_ret].
    apply keeps_bind; [by apply keeps_emit|]. intros _. apply keeps_ret. }
  intros v'. apply keeps_bind; [by apply keeps_emit|]. intros h'.
  destruct (read_ret W h') as [[]|data].
  - apply keeps_ret.
  - apply keeps_bind; [by apply keeps_emit|]. intros _. apply keeps_ret.
  - destruct (_ =? _)%nat; [apply keeps_ret|apply keeps_process_received].
Qed.

Lemma keeps_loop_body v : keeps I (loop_body W v).
Proof.
  unfold loop_body. apply keeps_bind; [apply keeps_poll_terminal|].
  intros _. apply keeps_poll_socket.
Qed.

Lemma keeps_serve turns v : keeps I (serve W turns v).
Proof.
  revert v. induction turns as [|n IH]; intros v; cbn [serve]; [apply keeps_ret|].
  destruct (keep_running v); [|apply keeps_ret].
  apply keeps_bind; [apply keeps_loop_body|]. intros v'. apply IH.
Qed.

Lemma keeps_close_client : keeps I close_client.
Proof.
  unfold close_client. apply keeps_get_then. intros s0.
  apply keeps_bind; [by apply keeps_emit|]. intros _.
  intros s Hs. by apply I_fd.
Qed.

Lemma keeps_drain v : keeps I (drain v).
Proof.
  unfold drain. destruct (keep_running v); [apply keeps_ret|].
  apply keeps_bind; [by apply keeps_emit|]. intros _.
  apply keeps_get_then. intros s0.
  apply keeps_bind; [|intros _; apply keeps_ret].
  destruct (negb _); cbn [when]; [apply keeps_close_client|apply keeps_ret].
Qed.

Lemma keeps_accept_client listen_fd : keeps I (accept_client W listen_fd).
Proof.
  unfold accept_client. apply keeps_get_then. intros s0.
  apply keeps_bind; [by apply keeps_emit|]. intros _.
  apply keeps_bind; [by apply keeps_emit|]. intros h.
  apply keeps_bind; [intros s Hs; by apply I_fd|]. intros _.
  destruct (_ =? -1).
  { apply keeps_bind; [by apply keeps_emit|]. intros _.
    apply keeps_bind; [by apply keeps_emit|]. intros _. apply keeps_ret. }
  apply keeps_bind; [by apply keeps_emit|]. intros _.
  apply keeps_bind; [by apply keeps_emit|]. intros h1.
  destruct (_ =? -1).
  { apply keeps_bind; [by apply keeps_emit|]. intros _.
    apply keeps_bind; [apply keeps_close_client|]. intros _. apply keeps_ret. }
  apply keeps_bind; [by apply keeps_emit|]. intros h2.
  destruct (_ =? -1); [|apply keeps_ret].
  apply keeps_bind; [by apply keeps_emit|]. intros _.
  apply keeps_bind; [apply keeps_close_client|]. intros _. apply keeps_ret.
Qed.

Lemma keeps_run_main_loop turns listen_fd :
  keeps I (run_main_loop W turns listen_fd).
Proof.
  unfold run_main_loop. apply keeps_bind; [apply keeps_accept_client|].
  intros [status|]; [apply keeps_ret|].
  apply keeps_bind; [apply keeps_serve|]. intros v. apply keeps_drain.
Qed.

End KeepsLoop.

Lemma extends_push t s c : extends t s -> extends t (set_trace (trace s ++ [c]) s).
Proof. intros [rest Hr]. exists (rest ++ [c]). cbn. by rewrite Hr, app_assoc. Qed.

Lemma extends_resize W t w h : keeps (extends t) (update_shadow_buffer_size W w h).
Proof.
  intros s [rest Hr]. rewrite update_shadow_buffer_size_eq. cbn [snd].
  destruct (_ || _); cbn [with_cache trace].
  - exists (rest ++ freed s). by rewrite Hr, app_assoc.
  - destruct (malloc_ret W _); cbn [with_cache trace]; rewrite Hr;
      eexists; rewrite <- !app_assoc; reflexivity.
Qed.

Lemma extends_command W t fd args : keeps (extends t) (run_command W fd args).
Proof.
  apply keeps_run_command.
  - apply extends_push.
  - intros s [rest Hr]. exists rest. rewrite <- Hr.
    unfold clear_shadow_buffer. cbn [bind get].
    destruct (shadow_buffer s); [|done]. by destruct (_ && _).
  - intros x y c _ s [rest Hr]. exists rest. by rewrite mirror_cell_trace.
Qed.

Lemma run_main_loop_extends W turns listen_fd s :
  extends (trace s) (snd (run_main_loop W turns listen_fd s)).
Proof.
  apply (keeps_run_main_loop W (extends (trace s))).
  - apply extends_push.
  - by intros s0 fd H.
  - intros h. apply extends_resize.
  - apply extends_command.
  - exists []. by rewrite app_nil_r.
Qed.

(** ** Bootstrap *)

Lemma accept_client_trace W fd s :
  exists rest,
    trace (snd (accept_client W fd s)) =
      trace s
        ++ Stderr ("termbox_port C_LOG: Entering main loop. Waiting for client connection on fd "
                     +:+ fmt_d fd +:+ " at path " +:+ actual_socket_path s
                     +:+ "..." +:+ nl)
        :: Accept fd :: rest.
Proof.
  destruct s as [buf w h cfd p t].
  unfold accept_client.
  cbn [bind get emit modify trace set_trace actual_socket_path
       set_client_socket_fd].
  repeat first
    [ progress cbn [bind get emit modify trace set_trace ret snd close_client
                    set_client_socket_fd client_socket_fd app]
    | rewrite <- app_assoc
    | match goal with
      | |- context [if ?c then _ else _] => destruct c
      end ];
    eexists; reflexivity.
Qed.

(** ** Tokens *)

Lemma word_char_inv c :
  word_char c = true ->
  Ascii.eqb c SP = false /\ Ascii.eqb c NUL = false /\
  Ascii.eqb c LF = false /\ Ascii.eqb c CR = false.
Proof.
  unfold word_char. rewrite !andb_true_iff, !negb_true_iff. tauto.
Qed.

Lemma take_token_word a rest :
  all_chars word_char a = true ->
  take_token (a +:+ " " +:+ rest) = (a, rest).
Proof.
  induction a as [|c a IH]; intros Ha; [done|].
  cbn [all_chars] in Ha. apply andb_true_iff in Ha as [Hc Ha].
  apply word_char_inv in Hc as (Hsp & _).
  change (String c a +:+ " " +:+ rest) with (String c (a +:+ " " +:+ rest)).
  cbn [take_token]. by rewrite Hsp, IH.
Qed.

Lemma take_token_last a :
  all_chars word_char a = true -> take_token a = (a, EmptyString).
Proof.
  induction a as [|c a IH]; intros Ha; [done|].
  cbn [all_chars] in Ha. apply andb_true_iff in Ha as [Hc Ha].
  apply word_char_inv in Hc as (Hsp & _).
  cbn [take_token]. by rewrite Hsp, IH.
Qed.

Lemma strtok_rejoined a toks :
  token a -> strtok (rejoined (a :: toks)) = Some (a, rejoined toks).
Proof.
  intros [Hne Ha]. unfold strtok.
  destruct a as [|c a]; [done|].
  pose proof Ha as Ha'. cbn [all_chars] in Ha'.
  apply andb_true_iff in Ha' as [Hc _].
  apply word_char_inv in Hc as (Hsp & _).
  destruct toks as [|b toks].
  - change (rejoined [String c a]) with (String c a).
    cbn [skip_delims]. rewrite Hsp. by rewrite take_token_last.
  - change (rejoined (String c a :: b :: toks))
      with (String c (a +:+ " " +:+ rejoined (b :: toks))).
    cbn [skip_delims]. rewrite Hsp.
    change (String c (a +:+ " " +:+ rejoined (b :: toks)))
      with (String c a +:+ " " +:+ rejoined (b :: toks)).
    by rewrite take_token_word.
Qed.

(** The [strtok] loop gives back the tokens a line was made of, up to its
    bound. *)
Lemma collect_args_rejoined n toks :
  Forall token toks -> collect_args n (rejoined toks) = take n toks.
Proof.
  intros Htoks. revert n.
  induction Htoks as [|a toks Ha _ IH]; intros n.
  - by destruct n.
  - destruct n as [|n]; [done|].
    cbn [collect_args take]. rewrite strtok_rejoined by done. by rewrite IH.
Qed.

Lemma all_chars_app p a b :
  all_chars p (a +:+ b) = all_chars p a && all_chars p b.
Proof.
  induction a as [|c a IH]; [done|].
  change (String c a +:+ b) with (String c (a +:+ b)).
  cbn [all_chars]. by rewrite IH, andb_assoc.
Qed.

Lemma all_chars_weaken (p q : ascii -> bool) s :
  (forall c, p c = true -> q c = true) ->
  all_chars p s = true -> all_chars q s = true.
Proof.
  intros Hpq. induction s as [|c s IH]; [done|]. cbn [all_chars].
  rewrite !andb_true_iff. intros [Hc Hs]. auto.
Qed.

Lemma rejoined_line_chars toks :
  Forall token toks -> all_chars line_char (rejoined toks) = true.
Proof.
  intros Htoks. induction Htoks as [|a toks [_ Ha] Htoks IH]; [done|].
  assert (Ha' : all_chars line_char a = true).
  { revert Ha. apply all_chars_weaken. intros c Hc.
    apply word_char_inv in Hc as (_ & H1 & H2 & H3).
    unfold line_char. by rewrite H1, H2, H3. }
  destruct toks as [|b toks]; [done|].
  change (rejoined (a :: b :: toks)) with (a +:+ " " +:+ rejoined (b :: toks)).
  by rewrite !all_chars_app, Ha', IH.
Qed.

Lemma cstr_line_chars s : all_chars line_char s = true -> cstr s = s.
Proof.
  induction s as [|c s IH]; [done|]. cbn [all_chars cstr].
  rewrite andb_true_iff. intros [Hc Hs].
  unfold line_char in Hc. rewrite !andb_true_iff, !negb_true_iff in Hc.
  destruct Hc as [[-> _] _]. by rewrite IH.
Qed.

Lemma last_char_line_chars s c :
  all_chars line_char s = true -> last_char s = Some c -> line_char c = true.
Proof.
  induction s as [|c0 s IH]; [done|]. cbn [all_chars last_char].
  rewrite andb_true_iff. intros [Hc Hs].
  destruct s as [|c1 s]; [by intros [= <-]|]. by apply IH.
Qed.

Lemma strip_last_line_chars c s :
  line_char c = false -> all_chars line_char s = true -> strip_last c s = s.
Proof.
  intros Hc Hs. unfold strip_last.
  destruct (last_char s) as [c'|] eqn:E; [|done].
  destruct (Ascii.eqb c' c) eqn:Ec; [|done].
  apply Ascii.eqb_eq in Ec. subst c'.
  pose proof (last_char_line_chars s c Hs E). congruence.
Qed.

Lemma parse_command_rejoined toks :
  Forall token toks -> parse_command (rejoined toks) = take MAX_ARGS toks.
Proof.
  intros Htoks. unfold parse_command.
  pose proof (rejoined_line_chars toks Htoks) as Hl.
  rewrite (strip_last_line_chars LF) by done.
  rewrite (strip_last_line_chars CR) by done.
  rewrite cstr_line_chars by done.
  by apply collect_args_rejoined.
Qed.

Lemma collect_args_length n s : (length (collect_args n s) <= n)%nat.
Proof.
  revert s. induction n as [|n IH]; intros s; cbn [collect_args]; [done|].
  destruct (strtok s) as [[tok rest]|]; cbn [length]; [|lia].
  specialize (IH rest). lia.
Qed.

Lemma rejoined_tail_take_length k toks :
  (String.length (rejoined_tail (take k toks)) <= String.length (rejoined_tail toks))%nat.
Proof.
  revert k. induction toks as [|a toks IH]; intros k; [by destruct k|].
  destruct k as [|k]; cbn [take rejoined_tail]; [simpl; lia|].
  rewrite !length_app_string. specialize (IH k). lia.
Qed.

Lemma rejoined_take_length k toks :
  (String.length (rejoined (take k toks)) <= String.length (rejoined toks))%nat.
Proof.
  destruct toks as [|a toks]; [by destruct k|].
  destruct k as [|k]; [simpl; lia|].
  cbn [take]. rewrite !rejoined_cons, !length_app_string.
  pose proof (rejoined_tail_take_length k toks). lia.
Qed.

Lemma rejoined_skip_length a toks :
  (String.length (rejoined toks) <= String.length (rejoined (a :: toks)))%nat.
Proof.
  destruct toks as [|b toks]; [simpl; lia|].
  change (rejoined (a :: b :: toks)) with (a +:+ " " +:+ rejoined (b :: toks)).
  rewrite !length_app_string. lia.
Qed.

(** ** The text of a print always fits *)

Lemma skip_delims_length s : (String.length (skip_delims s) <= String.length s)%nat.
Proof.
  induction s as [|c s IH]; [done|]. cbn [skip_delims].
  destruct (Ascii.eqb c SP); simpl in *; lia.
Qed.

Lemma take_token_cases s tok rest :
  take_token s = (tok, rest) ->
  String.length s = (String.length tok + 1 + String.length rest)%nat
  \/ (rest = EmptyString /\ String.length s = String.length tok).
Proof.
  revert tok rest. induction s as [|c s IH]; intros tok rest.
  - intros [= <- <-]. by right.
  - cbn [take_token]. destruct (Ascii.eqb c SP).
    + intros [= <- <-]. left. simpl. lia.
    + destruct (take_token s) as [tok' rest'] eqn:E.
      intros [= <- <-]. destruct (IH tok' rest' eq_refl) as [H|[-> H]].
      * left. simpl. lia.
      * right. split; [done|]. simpl. lia.
Qed.

Lemma collect_args_empty n : collect_args n EmptyString = [].
Proof. by destruct n. Qed.

Lemma collect_args_tail_length n s :
  (String.length (rejoined_tail (collect_args n s)) <= S (String.length s))%nat.
Proof.
  revert s. induction n as [|n IH]; intros s; [simpl; lia|].
  cbn [collect_args]. unfold strtok.
  pose proof (skip_delims_length s) as Hskip.
  destruct (skip_delims s) as [|c s'] eqn:E; [simpl; lia|].
  destruct (take_token (String c s')) as [tok rest] eqn:Et.
  cbn [rejoined_tail]. rewrite !length_app_string.
  change (String.length " ") with 1%nat.
  destruct (take_token_cases _ _ _ Et) as [H|[-> H]].
  - specialize (IH rest). lia.
  - rewrite collect_args_empty. simpl in *. lia.
Qed.

Lemma collect_args_rejoined_length n s :
  (String.length (rejoined (collect_args n s)) <= String.length s)%nat.
Proof.
  destruct n as [|n]; [simpl; lia|].
  cbn [collect_args]. unfold strtok.
  pose proof (skip_delims_length s) as Hskip.
  destruct (skip_delims s) as [|c s'] eqn:E; [simpl; lia|].
  destruct (take_token (String c s')) as [tok rest] eqn:Et.
  rewrite rejoined_cons, length_app_string.
  destruct (take_token_cases _ _ _ Et) as [H|[-> H]].
  - pose proof (collect_args_tail_length n rest). lia.
  - rewrite collect_args_empty. simpl in *. lia.
Qed.

Lemma cstr_length s : (String.length (cstr s) <= String.length s)%nat.
Proof.
  induction s as [|c s IH]; [done|]. cbn [cstr].
  destruct (Ascii.eqb c NUL); simpl; lia.
Qed.

Lemma drop_last_length s : (String.length (drop_last s) <= String.length s)%nat.
Proof.
  induction s as [|c s IH]; [done|]. cbn [drop_last].
  destruct s; simpl in *; lia.
Qed.

Lemma strip_last_length c s : (String.length (strip_last c s) <= String.length s)%nat.
Proof.
  unfold strip_last. destruct (last_char s); [|done].
  destruct (Ascii.eqb _ _); [apply drop_last_length|done].
Qed.

(** The rejoined text of a [print] is never longer than the line. *)
Lemma print_text_fits line a0 a1 a2 a3 a4 words :
  parse_command line = a0 :: a1 :: a2 :: a3 :: a4 :: words ->
  (String.length (rejoined words) <= String.length line)%nat.
Proof.
  intros Hp. unfold parse_command in Hp.
  pose proof (collect_args_rejoined_length MAX_ARGS
                (cstr (strip_last CR (strip_last LF line)))) as Hlen.
  rewrite Hp in Hlen.
  pose proof (cstr_length (strip_last CR (strip_last LF line))).
  pose proof (strip_last_length CR (strip_last LF line)).
  pose proof (strip_last_length LF line).
  pose proof (rejoined_skip_length a4 words).
  pose proof (rejoined_skip_length a3 (a4 :: words)).
  pose proof (rejoined_skip_length a2 (a3 :: a4 :: words)).
  pose proof (rejoined_skip_length a1 (a2 :: a3 :: a4 :: words)).
  pose proof (rejoined_skip_length a0 (a1 :: a2 :: a3 :: a4 :: words)).
  lia.
Qed.

(** ** Printing a number and reading it back *)

Lemma digits_of_uint_acc d p :
  digits (NilEmpty.string_of_uint d) (Z.pos p) = Z.pos (Pos.of_uint_acc d p).
Proof.
  revert p. induction d; intros p; cbn [NilEmpty.string_of_uint digits Pos.of_uint_acc];
    [done|..];
    match goal with
    | |- context [digit_of ?c] =>
        change (digit_of c) with (Some 0) || change (digit_of c) with (Some 1)
        || change (digit_of c) with (Some 2) || change (digit_of c) with (Some 3)
        || change (digit_of c) with (Some 4) || change (digit_of c) with (Some 5)
        || change (digit_of c) with (Some 6) || change (digit_of c) with (Some 7)
        || change (digit_of c) with (Some 8) || change (digit_of c) with (Some 9)
    end;
    rewrite <- IHd; f_equal; lia.
Qed.

Lemma digits_of_uint d :
  digits (NilEmpty.string_of_uint d) 0 = Z.of_N (Pos.of_uint d).
Proof.
  induction d; cbn [NilEmpty.string_of_uint digits Pos.of_uint]; [done|..];
    match goal with
    | |- context [digit_of ?c] =>
        change (digit_of c) with (Some 0) || change (digit_of c) with (Some 1)
        || change (digit_of c) with (Some 2) || change (digit_of c) with (Some 3)
        || change (digit_of c) with (Some 4) || change (digit_of c) with (Some 5)
        || change (digit_of c) with (Some 6) || change (digit_of c) with (Some 7)
        || change (digit_of c) with (Some 8) || change (digit_of c) with (Some 9)
    end;
    [exact IHd|..]; cbn [Z.mul Z.add Z.of_N]; apply digits_of_uint_acc.
Qed.

Lemma digits_nilzero d :
  digits (NilZero.string_of_uint d) 0 = Z.of_uint d.
Proof.
  unfold Z.of_uint. destruct d; [done|..]; apply digits_of_uint.
Qed.

(** A printed unsigned number starts with a digit: no blank and no sign is
    taken from it. *)
Lemma nilzero_head d :
  sign (skip_spaces (NilZero.string_of_uint d)) = (false, NilZero.string_of_uint d).
Proof. by destruct d. Qed.

Lemma strtol_fmt_d v : LONG_MIN <= v <= LONG_MAX -> strtol (fmt_d v) = v.
Proof.
  intros Hv. unfold strtol, fmt_d.
  pose proof (DecimalZ.of_to v) as Hz.
  destruct (Z.to_int v) as [d|d]; cbn [NilZero.string_of_int].
  - rewrite nilzero_head. cbv beta iota zeta. rewrite digits_nilzero.
    change (Z.of_int (Decimal.Pos d)) with (Z.of_uint d) in Hz. lia.
  - change (sign (skip_spaces (String "-" (NilZero.string_of_uint d))))
      with (true, NilZero.string_of_uint d).
    cbv beta iota zeta. rewrite digits_nilzero.
    change (Z.of_int (Decimal.Neg d)) with (- Z.of_uint d) in Hz. lia.
Qed.

Lemma atoi_fmt_d v : - 2 ^ 31 <= v < 2 ^ 31 -> atoi (fmt_d v) = v.
Proof.
  intros Hv. unfold atoi. rewrite strtol_fmt_d by (unfold LONG_MIN, LONG_MAX; lia).
  unfold to_int. rewrite Z.mod_small; lia.
Qed.

Lemma strtoul_fmt_u v : 0 <= v <= ULONG_MAX -> strtoul (fmt_u v) = v.
Proof.
  intros Hv. unfold strtoul, fmt_u.
  pose proof (DecimalZ.of_to v) as Hz.
  destruct (Z.to_int v) as [d|d] eqn:E; cbn [NilZero.string_of_int].
  - rewrite nilzero_head. cbv beta iota zeta. rewrite digits_nilzero.
    change (Z.of_int (Decimal.Pos d)) with (Z.of_uint d) in Hz. rewrite Hz.
    destruct (ULONG_MAX <? v) eqn:Hlt; [apply Z.ltb_lt in Hlt; lia|done].
  - destruct v; try discriminate. lia.
Qed.

Lemma word_chars_uint d : all_chars word_char (NilEmpty.string_of_uint d) = true.
Proof. induction d; [done|..]; cbn [NilEmpty.string_of_uint all_chars]; by rewrite IHd. Qed.

Lemma token_fmt_d v : token (fmt_d v).
Proof.
  unfold fmt_d, NilZero.string_of_int.
  destruct (Z.to_int v) as [d|d].
  - split; [by destruct d|]. destruct d; [done|..]; apply word_chars_uint.
  - split; [done|]. cbn [all_chars].
    destruct d; [done|..]; apply word_chars_uint.
Qed.

Lemma token_fmt_u v : token (fmt_u v).
Proof. apply token_fmt_d. Qed.

(** ** The calls and the reply of a command *)

Section Only.

Variable W : World.
Variable I : state -> Prop.
Variable P : call -> Prop.
Hypothesis I_trace : forall s t, I s -> I (set_trace t s).

Lemma only_ret {A} (a : A) : only I P (ret a).
Proof.
  intros s Hs. split; [done|]. exists []. by rewrite app_nil_r.
Qed.

Lemma only_bind {A B} (m : M A) (k : A -> M B) :
  only I P m -> (forall a, only I P (k a)) -> only I P (bind m k).
Proof.
  intros Hm Hk s Hs. cbn [bind].
  destruct (Hm s Hs) as (Hi & t & Ht & HP).
  destruct (m s) as [a s1]. cbn [snd] in *.
  destruct (Hk a s1 Hi) as (Hi2 & t2 & Ht2 & HP2).
  split; [done|]. exists (t ++ t2).
  rewrite Ht2, Ht, app_assoc. split; [done|]. by apply Forall_app.
Qed.

Lemma only_get_then {A} (k : state -> M A) :
  (forall s0, I s0 -> only I P (k s0)) -> only I P (bind get k).
Proof. intros Hk s Hs. cbn [bind get]. by apply Hk. Qed.

Lemma only_emit c : P c -> only I P (emit c).
Proof.
  intros Hc s Hs. cbn [emit snd]. split; [by apply I_trace|].
  exists [c]. split; [done|]. by constructor.
Qed.

(** A step that makes no call. *)
Lemma only_silent {A} (m : M A) :
  keeps I m -> (forall s, trace (snd (m s)) = trace s) -> only I P m.
Proof.
  intros Hk Ht s Hs. split; [by apply Hk|].
  exists []. by rewrite app_nil_r.
Qed.

Lemma only_ext {A} (m m' : M A) :
  (forall s, m s = m' s) -> only I P m' -> only I P m.
Proof. intros Heq Hm s Hs. rewrite Heq. by apply Hm. Qed.

Lemma only_when b (m : M unit) : only I P m -> only I P (when b m).
Proof. destruct b; [done|]. intros _. apply only_ret. Qed.

Section Client.

Variable fd : Z.
Hypothesis P_write : forall d, P (WriteExact fd d).
Hypothesis P_perror : forall msg, P (Perror msg).

Lemma only_write_exact buf : only I P (write_exact W fd buf).
Proof.
  unfold write_exact. destruct (_ =? _)%nat; [apply only_ret|].
  apply only_bind; [by apply only_emit|]. intros h.
  destruct (write_exact_fails W h); apply only_ret.
Qed.

Lemma only_write_socket_line line : only I P (write_socket_line W fd line).
Proof.
  unfold write_socket_line.
  destruct (_ =? _); [apply only_ret|apply only_write_exact].
Qed.

Lemma only_respond line msg : only I P (respond W fd line msg).
Proof.
  unfold respond. apply only_bind; [apply only_write_socket_line|].
  intros r. destruct (r <? 0); [|apply only_ret].
  apply only_bind; [by apply only_emit|]. intros _. apply only_ret.
Qed.

Lemma only_reject line : only I P (reject W fd line).
Proof.
  unfold reject. apply only_bind; [apply only_write_socket_line|].
  intros _. apply only_ret.
Qed.

Lemma only_send_event ev : only I P (send_event_to_client W fd ev).
Proof.
  unfold send_event_to_client.
  apply only_bind; [apply only_write_socket_line|].
  intros r. destruct (r <? 0); [|apply only_ret].
  apply only_bind; [by apply only_emit|]. intros _. apply only_ret.
Qed.

Lemma only_read_shadow_cell x y : only I P (read_shadow_cell W fd x y).
Proof.
  unfold read_shadow_cell. apply only_get_then. intros s0 _.
  destruct (negb _); [apply only_reject|].
  destruct (shadow_buffer s0) as [buf|]; [|apply only_ret].
  destruct (buf !! _); [apply only_respond|apply only_ret].
Qed.

Hypothesis P_termbox : forall c, is_termbox c = true -> P c.
Hypothesis I_mirror : forall x y c, keeps I (mirror_cell x y c).
Hypothesis I_clear : keeps I (clear_shadow_buffer W).

Lemma only_mirror_cell x y c : only I P (mirror_cell x y c).
Proof. apply only_silent; [apply I_mirror|]. intros s. apply mirror_cell_trace. Qed.

Lemma only_clear : only I P (clear_shadow_buffer W).
Proof.
  apply only_silent; [apply I_clear|]. intros s.
  unfold clear_shadow_buffer. cbn [bind get].
  destruct (shadow_buffer s); [|done]. by destruct (_ && _).
Qed.

Lemma only_print_loop fuel text x y f b : only I P (print_loop W fuel text x y f b).
Proof.
  revert text x.
  induction fuel as [|fuel IH]; intros text x; cbn [print_loop]; [apply only_ret|].
  destruct text as [|c text]; [apply only_ret|].
  destruct (tb_utf8_char_to_unicode W _) as [cp n].
  destruct (_ =? 0); [apply only_ret|].
  apply only_bind; [by apply only_emit, P_termbox|]. intros _.
  apply only_bind; [apply only_mirror_cell|]. intros _. apply IH.
Qed.

Lemma only_run_command args : only I P (run_command W fd args).
Proof.
  unfold run_command.
  destruct args as [|cmd args']; [apply only_ret|].
  repeat match goal with
         | |- only _ _ (if String.eqb cmd ?v then _ else _) =>
             destruct (String.eqb cmd v) eqn:?
         end;
    repeat lazymatch goal with
      | |- only _ _ (mirror_cell _ _ _) => apply only_mirror_cell
      | |- only _ _ (print_loop _ _ _ _ _ _ _) => apply only_print_loop
      | |- only _ _ (clear_shadow_buffer _) => apply only_clear
      | |- only _ _ (bind _ _) => apply only_bind; [|intros ?]
      | |- only _ _ (if ?c then _ else _) => destruct c
      | |- only _ _ (match ?c with Some _ => _ | None => _ end) => destruct c
      | |- only _ _ (ret _) => apply only_ret
      | |- only _ _ (emit _) => apply only_emit, P_termbox; reflexivity
      | |- only _ _ (respond _ _ _ _) => apply only_respond
      | |- only _ _ (reject _ _ _) => apply only_reject
      | |- only _ _ (send_event_to_client _ _ _) => apply only_send_event
      | |- only _ _ (read_shadow_cell _ _ _ _) => apply only_read_shadow_cell
      | |- only _ _ (write_socket_line _ _ _) => apply only_write_socket_line
      end.
Qed.

Lemma only_handle_client_command line : only I P (handle_client_command W fd line).
Proof. apply only_run_command. Qed.

Lemma only_line_loop fuel line_start v : only I P (line_loop W fuel fd line_start v).
Proof.
  revert line_start. induction fuel as [|fuel IH]; intros line_start;
    cbn [line_loop]; [apply only_ret|].
  destruct (strchr_lf line_start) as [[line rest]|]; [|apply only_ret].
  apply only_bind; [apply only_handle_client_command|]. intros r.
  destruct (r =? 1); [apply only_ret|].
  destruct (r <? 0); [apply only_ret|]. apply IH.
Qed.

End Client.

End Only.

Lemma plain_fmt_d v : all_chars plain (fmt_d v) = true.
Proof.
  destruct (token_fmt_d v) as [_ Hw]. revert Hw. apply all_chars_weaken.
  intros c Hc. apply word_char_inv in Hc as (_ & H1 & H2 & _).
  unfold plain. by rewrite H1, H2.
Qed.

Lemma event_line_plain ev : is_line (event_line ev).
Proof.
  unfold is_line, event_line.
  repeat (rewrite all_chars_app; apply andb_true_iff; split);
    first [apply plain_fmt_d | reflexivity].
Qed.

Lemma wf_mirror_cell x y c : keeps wf (mirror_cell x y c).
Proof.
  intros s Hwf.
  apply (shaped_mirror_cell (shadow_buffer_width s) (shadow_buffer_height s)
           (client_socket_fd s) x y c s).
  by repeat split.
Qed.

Lemma wf_clear W : keeps wf (clear_shadow_buffer W).
Proof.
  intros s Hwf.
  apply (shaped_clear W (shadow_buffer_width s) (shadow_buffer_height s)
           (client_socket_fd s) s).
  by repeat split.
Qed.

Section Replies.

Variable W : World.
Variable fd : Z.

Lemma write_socket_line_cstr line s :
  write_socket_line W fd line s = write_socket_line W fd (cstr line) s.
Proof. unfold write_socket_line, strlen. by rewrite !cstr_idemp. Qed.

(** [shutdown]: the acknowledgement is written and 1 returned whatever the
    write gave. *)
Lemma replies_goodbye : replies W fd (write_socket_line W fd "OK" ;; ret 1).
Proof.
  intros s Hwf. cbn [bind].
  rewrite write_socket_line_eq by done.
  exists [], "OK"%string, []. cbn [fst snd push trace set_trace app ret].
  split; [done|]. split; [done|]. split; [done|]. split; [by left|].
  split; [by left|]. intros _. exact eq_refl.
Qed.

Lemma replies_reject line :
  cstr line <> EmptyString -> is_line (cstr line) ->
  String.prefix "OK" (cstr line) = false ->
  String.prefix "ERROR" (cstr line) = true ->
  replies W fd (reject W fd line).
Proof.
  intros Hne Hl Hok Herr s Hwf. unfold reject. cbn [bind].
  rewrite write_socket_line_cstr, write_socket_line_eq by (apply cstr_idemp || done).
  exists [], (cstr line), []. cbn [fst snd push trace set_trace app ret].
  split; [done|]. split; [done|].
  split; [split; [done|apply cstr_idemp]|]. split; [by left|].
  split; [by left|]. intros _. unfold fate. by rewrite Hok, Herr.
Qed.

Lemma replies_respond line msg :
  cstr line <> EmptyString ->
  (is_line (cstr line)
   \/ exists junk x y c, cstr line = cell_response W junk x y c) ->
  String.prefix "OK" (cstr line) = true ->
  replies W fd (respond W fd line msg).
Proof.
  intros Hne Hl Hok s Hwf. unfold respond. cbn [bind].
  rewrite write_socket_line_cstr, write_socket_line_eq by (apply cstr_idemp || done).
  exists [], (cstr line).
  destruct (write_exact_fails W _) eqn:Hf;
    cbn [fst snd push trace set_trace app ret bind emit].
  - replace (-1 <? 0) with true by done.
    cbn [fst snd push trace set_trace app ret bind emit].
    exists [Perror msg]. rewrite <- app_assoc.
    split; [done|]. split; [done|].
    split; [split; [done|apply cstr_idemp]|]. split; [right; by eexists|].
    split; [done|]. intros _. unfold fate. by rewrite Hok.
  - destruct (_ <? 0) eqn:E; [apply Z.ltb_lt in E; lia|].
    exists []. cbn [fst snd push trace set_trace app ret].
    split; [done|]. split; [done|].
    split; [split; [done|apply cstr_idemp]|]. split; [by left|].
    split; [done|]. intros Hfail. discriminate.
Qed.

Lemma replies_send_event ev :
  replies W fd (send_event_to_client W fd ev ;; ret 0).
Proof.
  intros s Hwf. cbn [bind]. rewrite send_event_to_client_eq.
  exists [], (event_line ev).
  destruct (write_exact_fails W _) eqn:Hf;
    cbn [fst snd push trace set_trace app ret].
  - eexists [Perror _]. rewrite <- app_assoc.
    split; [done|]. split; [done|].
    split; [split; [done|apply cstr_event_line]|]. split; [right; by eexists|].
    split; [left; apply event_line_plain|].
    intros _. exact (conj eq_refl eq_refl).
  - exists []. split; [done|]. split; [done|].
    split; [split; [done|apply cstr_event_line]|]. split; [by left|].
    split; [left; apply event_line_plain|]. intros Hfail. discriminate.
Qed.

Lemma replies_read_shadow_cell x y : replies W fd (read_shadow_cell W fd x y).
Proof.
  intros s Hwf.
  destruct (cell_at s x y) as [c|] eqn:E.
  - rewrite (read_shadow_cell_hit W fd x y c) by done.
    apply replies_respond; rewrite ?cstr_cell_response; [done| |done|done].
    right. by eauto.
  - rewrite read_shadow_cell_miss; [by apply replies_reject|done|].
    intros Hb. apply (cell_at_is_Some s x y Hwf) in Hb as [c Hc]. congruence.
Qed.

(** Termbox calls first, then the reply. *)
Lemma replies_after {A} (m : M A) (k : A -> M Z) :
  only wf (fun c => is_termbox c = true) m ->
  (forall a, replies W fd (k a)) -> replies W fd (bind m k).
Proof.
  intros Hm Hk s Hwf. cbn [bind].
  destruct (Hm s Hwf) as (Hwf1 & t & Ht & HP).
  destruct (m s) as [a s1]. cbn [snd] in *.
  destruct (Hk a s1 Hwf1) as (pre & r & tail & Htr & Hpre & Hr & Htail & Hl & Hfate).
  exists (t ++ pre), r, tail. rewrite Htr, Ht, <- !app_assoc.
  split; [done|]. split; [by apply Forall_app|].
  split; [done|]. split; [done|]. split; [done|].
  intros Hfail. apply Hfate. by rewrite Ht, <- !app_assoc.
Qed.

Lemma termbox_emit c :
  is_termbox c = true -> only wf (fun c => is_termbox c = true) (emit c).
Proof. intros Hc. by apply only_emit. Qed.

Lemma termbox_mirror_cell x y c :
  only wf (fun c => is_termbox c = true) (mirror_cell x y c).
Proof. apply only_mirror_cell. apply wf_mirror_cell. Qed.

Lemma termbox_clear : only wf (fun c => is_termbox c = true) (clear_shadow_buffer W).
Proof. apply only_clear. apply wf_clear. Qed.

Lemma termbox_print_loop fuel text x y f b :
  only wf (fun c => is_termbox c = true) (print_loop W fuel text x y f b).
Proof.
  apply only_print_loop; [done| |apply wf_mirror_cell]. done.
Qed.

(** A number after a tag makes a line. *)
Lemma tagged_number_line tag v :
  cstr tag = tag -> is_line tag -> is_line (cstr (tag +:+ fmt_d v)).
Proof.
  intros Hc Hl. rewrite cstr_app, cstr_fmt_d by done.
  unfold is_line in *. rewrite all_chars_app, Hl. apply plain_fmt_d.
Qed.

Lemma replies_run_command cmd args :
  replies W fd (run_command W fd (cmd :: args)).
Proof.
  unfold run_command.
  repeat match goal with
         | |- replies _ _ (if String.eqb cmd ?v then _ else _) =>
             destruct (String.eqb cmd v) eqn:?
         end;
    repeat lazymatch goal with
      | |- replies _ _ (bind (emit ?c) _) =>
          apply replies_after; [by apply termbox_emit|intros ?]
      | |- replies _ _ (bind (mirror_cell _ _ _) _) =>
          apply replies_after; [apply termbox_mirror_cell|intros ?]
      | |- replies _ _ (bind (clear_shadow_buffer _) _) =>
          apply replies_after; [apply termbox_clear|intros ?]
      | |- replies _ _ (bind (print_loop _ _ _ _ _ _ _) _) =>
          apply replies_after; [apply termbox_print_loop|intros ?]
      | |- replies _ _ (bind (send_event_to_client _ _ _) _) =>
          apply replies_send_event
      | |- replies _ _ (bind (write_socket_line _ _ _) _) =>
          apply replies_goodbye
      | |- replies _ _ (if ?c then _ else _) => destruct c
      | |- replies _ _ (match ?c with Some _ => _ | None => _ end) => destruct c
      | |- replies _ _ (respond _ _ _ _) =>
          apply replies_respond;
            [discriminate
            |left; first [reflexivity | by apply tagged_number_line]
            |reflexivity]
      | |- replies _ _ (reject _ _ _) =>
          apply replies_reject; [discriminate|reflexivity..]
      | |- replies _ _ (read_shadow_cell _ _ _ _) => apply replies_read_shadow_cell
      end.
Qed.

End Replies.

(** [change_cell] then [get_cell], for any two lines whose tokens read as
    the same in-bounds coordinate and as a cell value in range. *)
Lemma change_cell_then_get_cell
        (W : World) (fd : Z) (s : state) (line1 line2 : string)
        (tx ty tc tf tb tx' ty' : string) (x y c f b : Z) :
  wf s ->
  parse_command line1 = ["change_cell"; tx; ty; tc; tf; tb]%string ->
  parse_command line2 = ["get_cell"; tx'; ty']%string ->
  atoi tx = x -> atoi ty = y -> strtoul tc = c -> atoi tf = f -> atoi tb = b ->
  atoi tx' = x -> atoi ty' = y ->
  0 <= x < shadow_buffer_width s -> 0 <= y < shadow_buffer_height s ->
  0 <= c < 2 ^ 32 -> 0 <= f < 2 ^ 16 -> 0 <= b < 2 ^ 16 ->
  let s1 := snd (handle_client_command W fd line1 s) in
  answers W fd line2 s1
    (cell_response W (utf8_buffer_junk W (trace s1)) x y
       {| ch := c; fg := f; bg := b |}).
Proof.
  intros Hwf Hp1 Hp2 Hx Hy Hc Hf Hb Hx' Hy' Bx By Bc Bf Bb s1.
  pose proof (change_cell_stores W fd tx ty tc tf tb s Hwf) as Hst.
  rewrite Hx, Hy, Hc, Hf, Hb in Hst.
  unfold to_uint32, to_uint16 in Hst.
  rewrite !Z.mod_small in Hst by done.
  specialize (Hst Bx By).
  subst s1. unfold handle_client_command at 1 2. rewrite Hp1.
  pose proof (fun s c => get_cell_answers W fd line2 tx' ty' s c Hp2) as Ha.
  rewrite Hx', Hy' in Ha. apply (Ha _ _ Hst).
Qed.

Lemma substring_of_empty n m : substring n m EmptyString = EmptyString.
Proof. by destruct n, m. Qed.

(** The first [k] bytes of a buffer whose front was overwritten. *)
Lemma substring_overwrite bytes buffer k :
  (String.length bytes <= k)%nat ->
  substring 0 k (overwrite bytes buffer) =
    bytes +:+ substring (String.length bytes) (k - String.length bytes) buffer.
Proof.
  unfold overwrite. revert buffer k.
  induction bytes as [|c bytes IH]; intros buffer k Hk.
  - cbn [String.length drop]. by rewrite Nat.sub_0_r.
  - destruct k as [|k]; [simpl in Hk; lia|].
    cbn [String.length] in *.
    change (String c bytes +:+ ?r) with (String c (bytes +:+ r)).
    cbn [substring]. f_equal.
    destruct buffer as [|j buffer].
    + specialize (IH EmptyString k ltac:(lia)).
      replace (drop (S (String.length bytes)) EmptyString)
        with (drop (String.length bytes) EmptyString)
        by (by destruct (String.length bytes)).
      rewrite IH. f_equal. by rewrite !substring_of_empty.
    + cbn [drop]. rewrite IH by lia. reflexivity.
Qed.

(** The text of [get_cell] when the encoder stores [stored], a text of one
    to seven bytes, none of them NUL, and no terminator after it: the
    stored bytes, then what the buffer held after them, up to the first NUL
    or to the seventh byte of the buffer. *)
Lemma utf8_text_stored (W : World) (junk : string) (c : Z) (stored : string) (n : Z) :
  tb_utf8_unicode_to_char W c = (stored, n) -> 0 < n ->
  cstr stored = stored -> (String.length stored <= 7)%nat ->
  utf8_text W junk c =
    stored +:+ cstr (substring (String.length stored)
                               (7 - String.length stored) junk).
Proof.
  intros Henc Hn Hplain Hlen. unfold utf8_text. rewrite Henc.
  replace (n <=? 0) with false by (symmetry; apply Z.leb_gt; lia).
  rewrite substring_overwrite by done.
  by apply cstr_app.
Qed.

Lemma chr_plain v :
  0 < v < 256 -> Ascii.eqb (ascii_of_nat (Z.to_nat v)) NUL = false.
Proof.
  intros Hv. apply Ascii.eqb_neq. intros H.
  apply (f_equal nat_of_ascii) in H.
  rewrite nat_ascii_embedding in H by lia.
  change (nat_of_ascii NUL) with 0%nat in H. lia.
Qed.

(** The UTF-8 text of a Unicode codepoint other than 0: one to four bytes,
    none of them NUL. *)
Lemma utf8_encode_plain c :
  0 < c < 1114112 ->
  cstr (fst (Script.utf8_encode c)) = fst (Script.utf8_encode c)
  /\ snd (Script.utf8_encode c)
     = Z.of_nat (String.length (fst (Script.utf8_encode c)))
  /\ 0 < snd (Script.utf8_encode c) <= 4.
Proof.
  intros Hc. unfold Script.utf8_encode, Script.chr.
  repeat match goal with
         | |- context [if ?t <? ?u then _ else _] =>
             destruct (Z.ltb_spec t u)
         end;
    cbn [fst snd String.append cstr String.length];
    rewrite ?chr_plain by (Z.div_mod_to_equations; lia);
    (split; [reflexivity|split; [reflexivity|lia]]).
Qed.

(** * The claims *)

(** C1 (what the code does instead).  On a well-formed state, for every
    coordinate [(x, y)] in bounds of the shadow buffer and every cell value
    (a Unicode codepoint [c] other than 0, attributes [f] and [b] below
    [2^16]), with an encoder that stores the UTF-8 bytes of [c] and nothing
    after them, the line [change_cell x y c f b] followed by the line
    [get_cell x y] is answered with [OK_CELL x y <text> f b]: the two
    attributes come back, and the text starts with the UTF-8 bytes of [c],
    but it goes on with the bytes [utf8_buffer] held after them before the
    call, up to the first NUL among them or to the seventh byte of the
    buffer.  The array has no initialiser and the only NUL the handler
    writes is the one in its last byte. *)
Theorem change_cell_then_get_cell_reply
        (W : World) (fd : Z) (s : state) (x y c f b : Z) :
  wf s ->
  0 <= x < shadow_buffer_width s -> 0 <= y < shadow_buffer_height s ->
  x < 2 ^ 31 -> y < 2 ^ 31 ->
  0 < c < 1114112 -> 0 <= f < 2 ^ 16 -> 0 <= b < 2 ^ 16 ->
  tb_utf8_unicode_to_char W c = Script.utf8_encode c ->
  let change :=
    rejoined ["change_cell"%string; fmt_d x; fmt_d y; fmt_u c; fmt_u f; fmt_u b] in
  let query := rejoined ["get_cell"%string; fmt_d x; fmt_d y] in
  let s1 := snd (handle_client_command W fd change s) in
  let utf8 := fst (Script.utf8_encode c) in
  let left_over :=
    cstr (substring (String.length utf8) (7 - String.length utf8)
                    (utf8_buffer_junk W (trace s1))) in
  answers W fd query s1
    ("OK_CELL " +:+ fmt_d x +:+ " " +:+ fmt_d y +:+ " " +:+ (utf8 +:+ left_over)
       +:+ " " +:+ fmt_u f +:+ " " +:+ fmt_u b).
Proof.
  intros Hwf Bx By Ix Iy Bc Bf Bb Henc change query s1 utf8 left_over.
  destruct (utf8_encode_plain c Bc) as (Hplain & Hn & Hn4).
  assert (Htext : utf8_text W (utf8_buffer_junk W (trace s1)) c = utf8 +:+ left_over).
  { apply (utf8_text_stored W _ c utf8 (snd (Script.utf8_encode c))).
    - rewrite Henc. by destruct (Script.utf8_encode c).
    - lia.
    - exact Hplain.
    - fold utf8 in Hn. lia. }
  rewrite <- Htext.
  change ("OK_CELL " +:+ fmt_d x +:+ " " +:+ fmt_d y +:+ " "
            +:+ utf8_text W (utf8_buffer_junk W (trace s1)) c
            +:+ " " +:+ fmt_u f +:+ " " +:+ fmt_u b)
    with (cell_response W (utf8_buffer_junk W (trace s1)) x y
            {| ch := c; fg := f; bg := b |}).
  apply (change_cell_then_get_cell W fd s change query
           (fmt_d x) (fmt_d y) (fmt_u c) (fmt_u f) (fmt_u b) (fmt_d x) (fmt_d y));
    try done; try lia.
  - subst change. rewrite parse_command_rejoined; [done|].
    repeat first [apply Forall_nil_2 | apply Forall_cons_2];
      first [apply token_fmt_d | apply token_fmt_u | by split].
  - subst query. rewrite parse_command_rejoined; [done|].
    repeat first [apply Forall_nil_2 | apply Forall_cons_2];
      first [apply token_fmt_d | by split].
  - apply atoi_fmt_d. lia.
  - apply atoi_fmt_d. lia.
  - apply strtoul_fmt_u. unfold ULONG_MAX. lia.
  - apply atoi_fmt_d. lia.
  - apply atoi_fmt_d. lia.
  - apply atoi_fmt_d. lia.
  - apply atoi_fmt_d. lia.
Qed.

(** The input C1 fails on: [utf8_buffer] holds the bytes [xyz] when
    [get_cell] declares it.  The cell [(0, 0)] is given the letter [a], and
    [get_cell 0 0] answers [OK_CELL 0 0 ayz 1 2], not [OK_CELL 0 0 a 1 2]. *)
Lemma change_cell_then_get_cell_reply_witness :
  answers (Script.littered "xyz" Script.calm) 4 "get_cell 0 0"
    (snd (handle_client_command (Script.littered "xyz" Script.calm) 4
            "change_cell 0 0 97 1 2" (Script.screen 2 2)))
    "OK_CELL 0 0 ayz 1 2".
Proof.
  apply (change_cell_then_get_cell_reply (Script.littered "xyz" Script.calm) 4
           (Script.screen 2 2) 0 0 97 1 2); try (simpl; lia); try reflexivity.
  repeat split; simpl; lia.
Defined.

(** C2 (amended).  When step 1 of a turn sees a resize event of positive
    width and height whose byte count fits [size_t], and the allocation of
    the new buffer succeeds, the shadow buffer is freed and reallocated
    before the event line is written to the client.  From then on the cell
    at a coordinate inside [[0,w) x [0,h)] is the default cell and
    [get_cell] there is answered with the [OK_CELL] line of the default
    cell, whatever lines were handled in between, as long as none of them
    stores into that very cell: a [change_cell] at that coordinate, or a
    [print] whose walk gets to it.  [get_cell] at any other coordinate is
    answered with the out-of-bounds error. *)
Theorem resize_event_resets_cache
        (W : World) (s : state) (r : Z) (ev : tb_event) (block : nat -> tb_cell) :
  tb_peek_event_ret W (trace s ++ [TbPeekEvent 10]) = (r, ev) ->
  0 < r -> ev_type ev = TB_EVENT_RESIZE W ->
  0 < ev_w ev -> 0 < ev_h ev -> fits (ev_w ev) (ev_h ev) ->
  malloc_ret W (trace s ++ [TbPeekEvent 10] ++ freed s
                  ++ [Malloc (ev_w ev * ev_h ev * sizeof_tb_cell)])
    = Some block ->
  let s' := snd (poll_terminal W s) in
  (exists tail,
     trace s' =
       trace s ++ [TbPeekEvent 10] ++ freed s
         ++ [Malloc (ev_w ev * ev_h ev * sizeof_tb_cell);
             WriteExact (client_socket_fd s) (event_line ev +:+ nl)] ++ tail
     /\ (tail = [] \/ exists msg, tail = [Perror msg]))
  /\ (forall fd lines line tx ty,
        parse_command line = ["get_cell"; tx; ty]%string ->
        0 <= atoi tx < ev_w ev -> 0 <= atoi ty < ev_h ev ->
        Forall (fun l => stores_at W (parse_command l) (atoi tx) (atoi ty) = false)
               lines ->
        let s2 := dispatch_all W fd lines s' in
        cell_at s2 (atoi tx) (atoi ty) = Some (default_cell W)
        /\ answers W fd line s2
             (cell_response W (utf8_buffer_junk W (trace s2))
                (atoi tx) (atoi ty) (default_cell W)))
  /\ (forall fd lines line tx ty,
        parse_command line = ["get_cell"; tx; ty]%string ->
        ~ (0 <= atoi tx < ev_w ev /\ 0 <= atoi ty < ev_h ev) ->
        answers W fd line (dispatch_all W fd lines s')
                "ERROR invalid_coords_get_cell").
Proof.
  intros Hpeek Hr Hty Hw Hh Hfits Hmem s'. subst s'.
  rewrite (poll_terminal_resize W s r ev block) by done.
  rewrite send_event_to_client_eq.
  set (t := trace s ++ [TbPeekEvent 10] ++ freed s
              ++ [Malloc (ev_w ev * ev_h ev * sizeof_tb_cell)]).
  set (s0 := with_cache _ _ _ t s).
  assert (Hshape : forall t', shaped (ev_w ev) (ev_h ev) (client_socket_fd s)
                                (set_trace t' s0)).
  { intros t'. repeat split; simpl; try lia. by rewrite length_replicate. }
  assert (Hcell : forall t' x y, 0 <= x < ev_w ev -> 0 <= y < ev_h ev ->
            cell_at (set_trace t' s0) x y = Some (default_cell W)).
  { intros t' x y Hx Hy. unfold cell_at. simpl.
    replace ((0 <=? x) && _ && _ && _) with true
      by (symmetry; rewrite !andb_true_iff, !Z.leb_le, !Z.ltb_lt; lia).
    apply lookup_replicate_2. by apply cell_index_lt. }
  set (s1 := snd (_, _)).
  assert (Hs1 : exists t', s1 = set_trace t' s0).
  { subst s1. simpl. destruct (write_exact_fails W _); eexists; reflexivity. }
  split; [|split].
  - subst s1. simpl. destruct (write_exact_fails W _); simpl; subst t.
    + exists [Perror "Error writing event to client socket"%string].
      split; [|right; by eexists].
      by rewrite <- !app_assoc.
    + exists []. split; [|by left]. by rewrite <- !app_assoc.
  - intros fd lines line tx ty Hp Hx Hy Hall s2.
    destruct Hs1 as [t' ->].
    assert (Hdef : holds_default W (ev_w ev) (ev_h ev) (atoi tx) (atoi ty) s2).
    { apply (holds_default_dispatch_all W (ev_w ev) (ev_h ev)); try done.
      split; [|by apply Hcell].
      destruct (Hshape t') as (? & ? & ? & _). done. }
    split; [apply Hdef|].
    apply (get_cell_answers W fd line tx ty); [done|]. apply Hdef.
  - intros fd lines line tx ty Hp Hout.
    destruct Hs1 as [t' ->].
    pose proof (shaped_dispatch_all W _ _ _ fd lines _ (Hshape t'))
      as (Hwf & Hw' & Hh' & _).
    apply (get_cell_answers_error W fd line tx ty); [done..|].
    by rewrite Hw', Hh'.
Qed.

Lemma resize_event_resets_cache_witness :
  let W := Script.world [Script.resize_event 2 2] [] Script.never true in
  let s' := snd (poll_terminal W (Script.screen 1 1)) in
  let s2 :=
    dispatch_all W 4
      ["change_cell 0 1 97 3 4"; "print 0 1 1 2 a"; "print 0 0 1 2 ab"; "clear"]%string
      s' in
  cell_at s2 1 1 = Some (default_cell W)
  /\ answers W 4 "get_cell 1 1" s2 "OK_CELL 1 1   0 0"
  /\ answers W 4 "get_cell 2 0" s' "ERROR invalid_coords_get_cell".
Proof.
  intros W s' s2.
  destruct (resize_event_resets_cache W (Script.screen 1 1) 2
              (snd (Script.resize_event 2 2))
              (fun _ => {| ch := 7; fg := 7; bg := 7 |}))
    as (_ & Hin & Hout); try reflexivity.
  destruct (Hin 4 ["change_cell 0 1 97 3 4"; "print 0 1 1 2 a";
                   "print 0 0 1 2 ab"; "clear"]%string
              "get_cell 1 1"%string "1"%string "1"%string)
    as [Hcell Hans];
    [reflexivity| by vm_compute | by vm_compute | repeat constructor |].
  split; [exact Hcell|]. split; [exact Hans|].
  apply (Hout 4 [] "get_cell 2 0"%string "2"%string "0"%string);
    [reflexivity|]. vm_compute. intros [[_ H] _]. discriminate.
Defined.

(** C2 as stated fails when the allocation does not work: the resize event
    is forwarded all the same, the shadow buffer is empty, and [get_cell 0 0]
    is answered with the out-of-bounds error although [(0,0)] lies inside
    the new 2 by 2 screen. *)
Lemma resize_without_memory_counterexample :
  let W := Script.world [Script.resize_event 2 2] [] Script.never false in
  let s' := snd (poll_terminal W (Script.screen 1 1)) in
  In (WriteExact 4 (event_line (snd (Script.resize_event 2 2)) +:+ nl)) (trace s')
  /\ answers W 4 "get_cell 0 0" s' "ERROR invalid_coords_get_cell"
  /\ forall text, ~ answers W 4 "get_cell 0 0" s' ("OK_CELL 0 0 " +:+ text).
Proof.
  intros W s'. split; [|split].
  - vm_compute. tauto.
  - exists []. split; [reflexivity|by left].
  - intros text (tail & Ht & _). vm_compute in Ht. discriminate.
Qed.

(** C3 (amended).  For every [print x y fg bg text...] line shorter than
    the socket buffer, as all lines of the loop are, the handler walks the
    decoded codepoints of the rejoined text from left to right, up to the
    first one the decoder gives as 0.  As long as the column counter, an
    [int], stays below [INT_MAX], the calls it makes are one
    [tb_change_cell] per codepoint, at columns [x], [x+1], ... of row [y],
    then the [OK] response; the shadow buffer keeps its dimensions and
    storage size; codepoint [i] is mirrored at [(x+i, y)] whenever that
    position is in bounds, and every cell the walk does not get to is left
    as it was, so a mirror write is skipped exactly when the column or the
    row is out of bounds.  In particular, if the decoder reads the text [ab]
    as the codepoints 97 98, then on a buffer of at least 2 by 1 cells the
    line [print 0 0 1 2 ab], its text written without quotes, leaves the
    cells (97, 1, 2) at [(0, 0)] and (98, 1, 2) at [(1, 0)], and
    [get_cell 0 0] and [get_cell 1 0] are answered with the [OK_CELL] lines
    of these two cells. *)
Theorem print_walks_the_text (W : World) (fd : Z) :
  (forall line tx ty tf tb word words s,
     wf s ->
     parse_command line = ("print" :: tx :: ty :: tf :: tb :: word :: words)%string ->
     Z.of_nat (String.length line) < SOCKET_BUFFER_SIZE ->
     let x := atoi tx in
     let y := atoi ty in
     let f := to_uint16 (atoi tf) in
     let b := to_uint16 (atoi tb) in
     let cps := decoded W (rejoined (word :: words)) in
     x + Z.of_nat (length cps) <= INT_MAX ->
     exists s1,
       handle_client_command W fd line s =
         respond W fd "OK" "Error writing OK response for print" s1
       /\ trace s1 =
            trace s ++ imap (fun i cp => TbChangeCell (x + Z.of_nat i) y cp f b) cps
       /\ wf s1
       /\ shadow_buffer_width s1 = shadow_buffer_width s
       /\ shadow_buffer_height s1 = shadow_buffer_height s
       /\ (forall i cp,
             cps !! i = Some cp ->
             0 <= x + Z.of_nat i < shadow_buffer_width s ->
             0 <= y < shadow_buffer_height s ->
             cell_at s1 (x + Z.of_nat i) y = Some {| ch := cp; fg := f; bg := b |})
       /\ (forall x' y',
             ~ (y' = y /\ x <= x' < x + Z.of_nat (length cps)) ->
             cell_at s1 x' y' = cell_at s x' y'))
  /\ (forall s,
        wf s -> 2 <= shadow_buffer_width s -> 1 <= shadow_buffer_height s ->
        decoded W "ab" = [97; 98] ->
        let s' := snd (handle_client_command W fd "print 0 0 1 2 ab" s) in
        let junk := utf8_buffer_junk W (trace s') in
        cell_at s' 0 0 = Some {| ch := 97; fg := 1; bg := 2 |}
        /\ cell_at s' 1 0 = Some {| ch := 98; fg := 1; bg := 2 |}
        /\ answers W fd "get_cell 0 0" s'
             (cell_response W junk 0 0 {| ch := 97; fg := 1; bg := 2 |})
        /\ answers W fd "get_cell 1 0" s'
             (cell_response W junk 1 0 {| ch := 98; fg := 1; bg := 2 |})).
Proof.
  assert (Hgen : forall line tx ty tf tb word words s,
     wf s ->
     parse_command line = ("print" :: tx :: ty :: tf :: tb :: word :: words)%string ->
     Z.of_nat (String.length line) < SOCKET_BUFFER_SIZE ->
     let x := atoi tx in
     let y := atoi ty in
     let f := to_uint16 (atoi tf) in
     let b := to_uint16 (atoi tb) in
     let cps := decoded W (rejoined (word :: words)) in
     x + Z.of_nat (length cps) <= INT_MAX ->
     exists s1,
       handle_client_command W fd line s =
         respond W fd "OK" "Error writing OK response for print" s1
       /\ trace s1 =
            trace s ++ imap (fun i cp => TbChangeCell (x + Z.of_nat i) y cp f b) cps
       /\ wf s1
       /\ shadow_buffer_width s1 = shadow_buffer_width s
       /\ shadow_buffer_height s1 = shadow_buffer_height s
       /\ (forall i cp,
             cps !! i = Some cp ->
             0 <= x + Z.of_nat i < shadow_buffer_width s ->
             0 <= y < shadow_buffer_height s ->
             cell_at s1 (x + Z.of_nat i) y = Some {| ch := cp; fg := f; bg := b |})
       /\ (forall x' y',
             ~ (y' = y /\ x <= x' < x + Z.of_nat (length cps)) ->
             cell_at s1 x' y' = cell_at s x' y')).
  { intros line tx ty tf tb word words s Hwf Hp Hline x y f b cps Hint.
    assert (Hlen : Z.of_nat (String.length (rejoined (word :: words)))
                   < SOCKET_BUFFER_SIZE).
    { pose proof (print_text_fits line _ _ _ _ _ _ Hp). lia. }
    assert (Hfit : walk_fits x (length cps)).
    { split; [|done]. subst x. unfold atoi, to_int.
      pose proof (Z.mod_pos_bound (strtol tx + 2 ^ 31) (2 ^ 32)). lia. }
    exists (snd (paint x y f b cps s)).
    split; [|split; [|split; [|split; [|split; [|split]]]]].
    - unfold handle_client_command. rewrite Hp, run_print by done.
      cbn [bind]. fold x y f b cps. by destruct (paint x y f b cps s).
    - by apply paint_trace.
    - apply (paint_shaped (shadow_buffer_width s) (shadow_buffer_height s)
               (client_socket_fd s)). by repeat split.
    - apply (paint_shaped (shadow_buffer_width s) (shadow_buffer_height s)
               (client_socket_fd s)). by repeat split.
    - apply (paint_shaped (shadow_buffer_width s) (shadow_buffer_height s)
               (client_socket_fd s)). by repeat split.
    - intros i cp Hi Hx Hy. rewrite paint_cells by done. unfold painted.
      rewrite Z.eqb_refl.
      replace (x <=? x + Z.of_nat i) with true by (symmetry; apply Z.leb_le; lia).
      cbn [andb].
      replace (Z.to_nat (x + Z.of_nat i - x)) with i by lia.
      rewrite Hi.
      assert (is_Some (cell_at s (x + Z.of_nat i) y)) as [c0 ->]; [|done].
      by apply cell_at_is_Some.
    - intros x' y' Hout. rewrite paint_cells by done. unfold painted.
      destruct ((y' =? y) && (x <=? x')) eqn:E; [|done].
      apply andb_true_iff in E as [Ey Ex].
      apply Z.eqb_eq in Ey. apply Z.leb_le in Ex.
      rewrite lookup_ge_None_2; [done|]. lia. }
  split; [exact Hgen|].
  intros s Hwf Hw Hh Hdec s' junk.
  destruct (Hgen "print 0 0 1 2 ab"%string "0"%string "0"%string "1"%string
              "2"%string "ab"%string [] s Hwf eq_refl eq_refl)
    as (s1 & Heq & _ & Hwf1 & Hw1 & Hh1 & Hin & _).
  { change (rejoined ["ab"%string]) with "ab"%string. rewrite Hdec.
    vm_compute. discriminate. }
  change (rejoined ["ab"%string]) with "ab"%string in Hin. rewrite Hdec in Hin.
  assert (Hs' : forall x y, cell_at s' x y = cell_at s1 x y).
  { intros x y. subst s'. rewrite Heq. apply respond_cell_at. }
  assert (Ha : cell_at s' 0 0 = Some {| ch := 97; fg := 1; bg := 2 |}).
  { rewrite Hs'.
    apply (Hin 0%nat 97 eq_refl); change (atoi "0") with 0; simpl; lia. }
  assert (Hb : cell_at s' 1 0 = Some {| ch := 98; fg := 1; bg := 2 |}).
  { rewrite Hs'.
    apply (Hin 1%nat 98 eq_refl); change (atoi "0") with 0; simpl; lia. }
  split; [exact Ha|]. split; [exact Hb|]. split.
  - by apply (get_cell_answers W fd "get_cell 0 0" "0" "0" s'
                {| ch := 97; fg := 1; bg := 2 |} eq_refl).
  - by apply (get_cell_answers W fd "get_cell 1 0" "1" "0" s'
                {| ch := 98; fg := 1; bg := 2 |} eq_refl).
Qed.

Lemma print_walks_the_text_witness :
  let s' := snd (handle_client_command Script.calm 4 "print 0 0 1 2 ab"
                   (Script.screen 2 1)) in
  (cell_at s' 0 0 = Some {| ch := 97; fg := 1; bg := 2 |}
   /\ cell_at s' 1 0 = Some {| ch := 98; fg := 1; bg := 2 |}
   /\ answers Script.calm 4 "get_cell 0 0" s' "OK_CELL 0 0 a 1 2"
   /\ answers Script.calm 4 "get_cell 1 0" s' "OK_CELL 1 0 b 1 2")
  /\ exists s1,
       handle_client_command Script.calm 4 "print 1 0 1 2 ab cd" (Script.screen 4 2) =
         respond Script.calm 4 "OK" "Error writing OK response for print" s1
       /\ trace s1 =
            [TbChangeCell 1 0 97 1 2; TbChangeCell 2 0 98 1 2;
             TbChangeCell 3 0 32 1 2; TbChangeCell 4 0 99 1 2;
             TbChangeCell 5 0 100 1 2].
Proof.
  intros s'.
  destruct (print_walks_the_text Script.calm 4) as [Hgen Hab].
  split.
  - apply (Hab (Script.screen 2 1)); try reflexivity; try (simpl; lia).
    repeat split; simpl; lia.
  - destruct (Hgen "print 1 0 1 2 ab cd"%string "1"%string "0"%string "1"%string
                "2"%string "ab"%string ["cd"%string] (Script.screen 4 2))
      as (s1 & Heq & Htr & _);
      [repeat split; simpl; lia|reflexivity|reflexivity|
       vm_compute; discriminate|].
    exists s1. split; [exact Heq|exact Htr].
Defined.

(** C3 as stated fails in two places.  The walk does not make a paint call
    for each decoded codepoint: it ends at the first codepoint the decoder
    gives as 0 (the guard [if (codepoint == 0) break]).  The bytes [a], C0
    80, [b] decode to 97, 0, 98, and [print] paints the [a] alone.  And the
    example fails when the line is sent as written, with the quotes: the
    handler has no quoting, so the two double quotes are text like any other
    byte.  On a 4 by 1 buffer the line [print 0 0 1 2 "ab"] puts the quote at
    [(0,0)] and [a] at [(1,0)]. *)
Lemma print_walk_counterexample :
  (let text := "a" +:+ Script.chr 192 +:+ Script.chr 128 +:+ "b" in
   Script.utf8_decode text = (97, 1%positive)
   /\ Script.utf8_decode (drop 1 text) = (0, 2%positive)
   /\ Script.utf8_decode (drop 3 text) = (98, 1%positive)
   /\ handle_client_command Script.calm 4 ("print 0 0 1 2 " +:+ text)
        (Script.screen 4 1) =
      (0, push (WriteExact 4 ("OK" +:+ nl))
               (snd (paint 0 0 1 2 [97] (Script.screen 4 1)))))
  /\ (let line := "print 0 0 1 2 " +:+ dq +:+ "ab" +:+ dq in
      let s' := snd (handle_client_command Script.calm 4 line (Script.screen 4 1)) in
      cell_at s' 0 0 = Some {| ch := 34; fg := 1; bg := 2 |}
      /\ cell_at s' 1 0 = Some {| ch := 97; fg := 1; bg := 2 |}
      /\ answers Script.calm 4 "get_cell 0 0" s' ("OK_CELL 0 0 " +:+ dq +:+ " 1 2")
      /\ answers Script.calm 4 "get_cell 1 0" s' "OK_CELL 1 0 a 1 2"
      /\ ~ answers Script.calm 4 "get_cell 0 0" s' "OK_CELL 0 0 a 1 2"
      /\ ~ answers Script.calm 4 "get_cell 1 0" s' "OK_CELL 1 0 b 1 2").
Proof.
  split.
  - repeat split; reflexivity.
  - intros line s'. split; [|split; [|split; [|split; [|split]]]].
    + reflexivity.
    + reflexivity.
    + exists []. split; [reflexivity|by left].
    + exists []. split; [reflexivity|by left].
    + intros (tail & Ht & _). vm_compute in Ht. discriminate.
    + intros (tail & Ht & _). vm_compute in Ht. discriminate.
Qed.

(** C4 (amended).  A line whose verb is one of the twelve commands with an
    argument-count test (every recognized command but [shutdown]) and whose
    number of arguments fails that test makes the handler return 0 after
    exactly one call, the write of [ERROR invalid_args_<verb>] with the verb
    in lower case: no termbox call is made, and the shadow buffer, its
    dimensions and the other globals are what they were. *)
Theorem wrong_arity_is_rejected
        (W : World) (fd : Z) (line verb : string) (rest : list string)
        (ok : nat -> bool) (s : state) :
  parse_command line = verb :: rest ->
  verb <> "shutdown"%string ->
  arity verb = Some ok ->
  ok (length rest) = false ->
  handle_client_command W fd line s =
    (0, push (WriteExact fd ("ERROR invalid_args_" +:+ lower verb +:+ nl)) s).
Proof.
  intros Hp Hns Har Hok. unfold handle_client_command. rewrite Hp.
  unfold arity in Har.
  repeat match type of Har with
         | (if String.eqb verb ?v then _ else _) = _ =>
             let E := fresh "E" in
             destruct (String.eqb verb v) eqn:E;
             [apply String.eqb_eq in E; subst verb;
              injection Har as <-; cbn in Hok;
              unfold run_command;
              cbn [String.eqb Ascii.eqb Bool.eqb length Nat.eqb Nat.leb];
              try rewrite Hok; by rewrite reject_eq
             |]
         end.
  destruct (String.eqb verb "shutdown") eqn:Hsd; [|discriminate].
  by apply String.eqb_eq in Hsd.
Qed.

Lemma wrong_arity_is_rejected_witness :
  handle_client_command Script.calm 4 "DEBUG_SEND_EVENT 1 2 3" (Script.screen 2 2) =
    (0, push (WriteExact 4 ("ERROR invalid_args_" +:+ lower "DEBUG_SEND_EVENT" +:+ nl))
             (Script.screen 2 2))
  /\ handle_client_command Script.calm 4 "print 0 0 1 2" (Script.screen 2 2) =
    (0, push (WriteExact 4 ("ERROR invalid_args_" +:+ lower "print" +:+ nl))
             (Script.screen 2 2)).
Proof.
  split.
  - apply (wrong_arity_is_rejected Script.calm 4 _ "DEBUG_SEND_EVENT"
             ["1"; "2"; "3"]%string (fun n => n =? 8)%nat);
      [reflexivity|discriminate|reflexivity|reflexivity].
  - apply (wrong_arity_is_rejected Script.calm 4 _ "print"
             ["0"; "0"; "1"; "2"]%string (fun n => 5 <=? n)%nat);
      [reflexivity|discriminate|reflexivity|reflexivity].
Defined.

(** C4 as stated fails for [shutdown], a recognized command of no argument:
    given one, it is not answered with [ERROR invalid_args_shutdown]; the
    handler writes [OK] and returns 1, which ends the loop. *)
Lemma shutdown_skips_arity_counterexample :
  arity "shutdown" = Some (fun n => n =? 0)%nat
  /\ parse_command "shutdown now" = ["shutdown"; "now"]%string
  /\ handle_client_command Script.calm 4 "shutdown now" (Script.screen 2 2) =
       (1, push (WriteExact 4 ("OK" +:+ nl)) (Script.screen 2 2))
  /\ ~ answers Script.calm 4 "shutdown now" (Script.screen 2 2)
         "ERROR invalid_args_shutdown".
Proof.
  repeat split.
  intros (tail & Ht & _). vm_compute in Ht. discriminate.
Qed.

(** C5 (amended).  What a failed write to the client leads to depends on
    what was being written.  Every line with a token in it, handled on a
    well-formed state, makes exactly one write to the client, after termbox
    calls only.  When that write fails:
    - after a success response ([OK], [OK_CELL], [OK_WIDTH], [OK_HEIGHT])
      the handler returns 1, and the inner loop stops there with
      [keep_running] false: no later line of the buffer is handled;
    - after an error response the result of the write is not looked at:
      the handler makes no other call and returns 0, and the line after it
      is handled as usual;
    - after the event line of [DEBUG_SEND_EVENT] there is a [perror], and
      the handler returns 0 as well.
    An event line forwarded in step 1 of a turn, for a resize event as for
    any other, gets a [perror] on failure, and [send_event_to_client]
    returns nothing to the loop, which goes on with steps 2 and 3 with its
    variables untouched. *)
Theorem failed_writes (W : World) :
  (forall fd line s,
     wf s -> parse_command line <> [] ->
     exists pre r tail,
       trace (snd (handle_client_command W fd line s)) =
         trace s ++ pre ++ WriteExact fd (r +:+ nl) :: tail
       /\ Forall (fun c => is_write c = false) pre
       /\ (write_exact_fails W (trace s ++ pre ++ [WriteExact fd (r +:+ nl)]) = true ->
           fate r (fst (handle_client_command W fd line s)) tail))
  /\ (forall fd line lines v s,
        fst (handle_client_command W fd line s) = 1 ->
        dispatch_seq W fd (line :: lines) v s =
          (stop 0 v, snd (handle_client_command W fd line s)))
  /\ (forall fd line lines v s,
        fst (handle_client_command W fd line s) = 0 ->
        dispatch_seq W fd (line :: lines) v s =
          dispatch_seq W fd lines v (snd (handle_client_command W fd line s)))
  /\ (forall v s r ev,
        tb_peek_event_ret W (trace s ++ [TbPeekEvent 10]) = (r, ev) -> 0 < r ->
        let s1 :=
          snd (when (ev_type ev =? TB_EVENT_RESIZE W)
                    (update_shadow_buffer_size W (ev_w ev) (ev_h ev))
                    (push (TbPeekEvent 10) s)) in
        let w := WriteExact (client_socket_fd s) (event_line ev +:+ nl) in
        write_exact_fails W (trace s1 ++ [w]) = true ->
        loop_body W v s =
          poll_socket W v
            (push (Perror "Error writing event to client socket") (push w s1))).
Proof.
  split; [|split; [|split]].
  - intros fd line s Hwf Hne. unfold handle_client_command in *.
    destruct (parse_command line) as [|cmd args]; [done|].
    destruct (replies_run_command W fd cmd args s Hwf)
      as (pre & r & tail & Htr & Hpre & _ & _ & _ & Hfate).
    exists pre, r, tail. split; [done|]. split; [|done].
    eapply Forall_impl; [exact Hpre|]. intros c Hc. by destruct c.
  - intros fd line lines v s Hr. cbn [dispatch_seq]. unfold bind.
    destruct (handle_client_command W fd line s) as [r s1]. cbn [fst] in Hr.
    by subst r.
  - intros fd line lines v s Hr. cbn [dispatch_seq]. unfold bind.
    destruct (handle_client_command W fd line s) as [r s1]. cbn [fst] in Hr.
    by subst r.
  - intros v s r ev Hpeek Hr s1 w Hfail.
    unfold loop_body, poll_terminal. cbn [bind get emit]. rewrite Hpeek.
    replace (0 <? r) with true by (symmetry; by apply Z.ltb_lt).
    cbn [bind]. fold (push (TbPeekEvent 10) s).
    destruct (when _ _ (push (TbPeekEvent 10) s)) as [[] s1'] eqn:E.
    cbn [snd] in s1. subst s1.
    rewrite send_event_to_client_eq. fold w. by rewrite Hfail.
Qed.

Lemma failed_writes_witness :
  let Wr := Script.world [] [] (fun k => (k =? 0)%nat) true in
  let We := Script.world [Script.resize_event 2 1] [] (fun k => (k =? 0)%nat) true in
  let s := Script.screen 1 1 in
  (exists pre r tail,
     trace (snd (handle_client_command Wr 4 "get_cell 0 0" s)) =
       trace s ++ pre ++ WriteExact 4 (r +:+ nl) :: tail
     /\ Forall (fun c => is_write c = false) pre
     /\ (write_exact_fails Wr (trace s ++ pre ++ [WriteExact 4 (r +:+ nl)]) = true ->
         fate r (fst (handle_client_command Wr 4 "get_cell 0 0" s)) tail))
  /\ dispatch_seq Wr 4 ["present"; "clear"]%string first_turn s =
       (stop 0 first_turn,
        push (Perror "Error writing OK response for present")
             (push (WriteExact 4 ("OK" +:+ nl)) (push TbPresent s)))
  /\ dispatch_seq Wr 4 ["bogus"; "clear"]%string first_turn s =
       dispatch_seq Wr 4 ["clear"%string] first_turn
         (push (WriteExact 4 ("ERROR unknown_command" +:+ nl)) s)
  /\ loop_body We first_turn s =
       poll_socket We first_turn
         (push (Perror "Error writing event to client socket")
               (push (WriteExact 4 (event_line (snd (Script.resize_event 2 1)) +:+ nl))
                     (snd (update_shadow_buffer_size We 2 1
                             (push (TbPeekEvent 10) s))))).
Proof.
  intros Wr We s. split; [|split; [|split]].
  - apply (proj1 (failed_writes Wr) 4 "get_cell 0 0"%string s);
      [unfold wf; simpl; lia|discriminate].
  - apply (proj1 (proj2 (failed_writes Wr)) 4 "present"%string ["clear"%string]
             first_turn s). reflexivity.
  - apply (proj1 (proj2 (proj2 (failed_writes Wr))) 4 "bogus"%string
             ["clear"%string] first_turn s). reflexivity.
  - apply (proj2 (proj2 (proj2 (failed_writes We))) first_turn s 2
             (snd (Script.resize_event 2 1)));
      reflexivity || discriminate.
Defined.

(** C5 as stated fails for the event line.  A whole run: a key event is
    pending and the write of its event line fails; the client then sends
    [present] and closes the stream.  The failed write does not end the
    session: [present] is still handled and answered, and once the stream is
    closed the process exits with status 0. *)
Lemma failed_event_write_counterexample :
  let W := Script.world [Script.key_event 97] [ReadBytes ("present" +:+ nl)]
             (fun k => (k =? 0)%nat) true in
  let r := main W 3 initial_state in
  fst r = Some 0
  /\ filter (fun c => is_write c = true
                      \/ is_perror c = true \/ c = TbPresent)
            (trace (snd r))
     = [WriteExact 4 (event_line (snd (Script.key_event 97)) +:+ nl);
        Perror "Error writing event to client socket";
        TbPresent;
        WriteExact 4 ("OK" +:+ nl)].
Proof. vm_compute. done. Qed.

(** The other half of C5, for the record: when it is the response of a
    command that cannot be written, the handler returns 1, the value that
    also stands for [shutdown], and the run ends with status 0. *)
Example failed_response_write_exits_zero :
  let W := Script.world [] [ReadBytes ("present" +:+ nl +:+ "clear" +:+ nl)]
             (fun k => (k =? 0)%nat) true in
  let r := main W 3 initial_state in
  fst r = Some 0
  /\ filter (fun c => is_write c = true \/ is_perror c = true)
            (trace (snd r))
     = [WriteExact 4 ("OK" +:+ nl);
        Perror "Error writing OK response for present"].
Proof. vm_compute. done. Qed.

(** C6 (amended).  [update_shadow_buffer_size] always returns to its caller.
    The old storage is freed first.  If a dimension is not positive the cache
    is empty afterwards: no storage, width and height zero, and no allocation
    is tried.  Otherwise the byte count of [width * height] cells is
    computed in [size_t] and that many bytes are asked for.  If the count
    fits [size_t] and the allocation works, the new storage holds exactly
    [width * height] default cells; if the allocation fails, the failure is
    logged on standard error and the cache is empty: nothing but the log
    line tells the failure apart from a resize to nothing.  Its one caller,
    step 1 of a turn, hands nothing back to the loop: whatever the resize
    did, the turn goes on with steps 2 and 3 and the loop variables it
    started with. *)
Theorem update_shadow_buffer_size_outcome
        (W : World) (width height : Z) (s : state) :
  let t := trace s ++ freed s in
  let m := Malloc (to_uint64 (width * height * sizeof_tb_cell)) in
  let r := update_shadow_buffer_size W width height s in
  fst r = tt
  /\ client_socket_fd (snd r) = client_socket_fd s
  /\ (width <= 0 \/ height <= 0 ->
      shadow_buffer (snd r) = None /\ shadow_buffer_width (snd r) = 0 /\
      shadow_buffer_height (snd r) = 0 /\ trace (snd r) = t)
  /\ (0 < width -> 0 < height -> fits width height ->
      malloc_ret W (t ++ [m]) <> None ->
      shadow_buffer (snd r) =
        Some (replicate (Z.to_nat (width * height)) (default_cell W)) /\
      shadow_buffer_width (snd r) = width /\
      shadow_buffer_height (snd r) = height /\
      trace (snd r) = t ++ [Malloc (width * height * sizeof_tb_cell)])
  /\ (0 < width -> 0 < height -> malloc_ret W (t ++ [m]) = None ->
      shadow_buffer (snd r) = None /\ shadow_buffer_width (snd r) = 0 /\
      shadow_buffer_height (snd r) = 0 /\
      trace (snd r) = t ++ [m; Stderr (alloc_failure_log width height)])
  /\ (forall v s0, loop_body W v s0 = poll_socket W v (snd (poll_terminal W s0))).
Proof.
  intros t m r. subst r. rewrite update_shadow_buffer_size_eq. cbn [fst snd].
  fold t. change (Malloc (buffer_size width height)) with m.
  split; [done|]. split.
  { destruct (_ || _); [done|]. by destruct (malloc_ret W _). }
  split; [|split; [|split]]; [| | |apply loop_body_eq].
  - intros Hd.
    replace ((width <=? 0) || (height <=? 0)) with true; [done|].
    symmetry. apply orb_true_iff. rewrite !Z.leb_le. done.
  - intros Hw Hh Hfits Hm.
    replace ((width <=? 0) || (height <=? 0)) with false
      by (symmetry; apply orb_false_iff; split; apply Z.leb_gt; lia).
    destruct (malloc_ret W _); [|done]. cbn [with_cache shadow_buffer
      shadow_buffer_width shadow_buffer_height trace].
    rewrite fresh_cells_fits by done.
    subst m. fold (buffer_size width height).
    by rewrite buffer_size_fits.
  - intros Hw Hh Hm.
    replace ((width <=? 0) || (height <=? 0)) with false
      by (symmetry; apply orb_false_iff; split; apply Z.leb_gt; lia).
    by rewrite Hm.
Qed.

Lemma update_shadow_buffer_size_outcome_witness :
  shadow_buffer (snd (update_shadow_buffer_size Script.calm 0 5 (Script.screen 1 1)))
    = None
  /\ shadow_buffer (snd (update_shadow_buffer_size Script.calm 2 1 (Script.screen 1 1)))
     = Some (replicate 2 (default_cell Script.calm))
  /\ trace (snd (update_shadow_buffer_size
                   (Script.world [] [] Script.never false) 2 1 (Script.screen 1 1)))
     = [Free; Malloc 16; Stderr (alloc_failure_log 2 1)]
  /\ trace (snd (update_shadow_buffer_size
                   (Script.world [] [] Script.never false) 2147483647 2147483647
                   (Script.screen 1 1)))
     = [Free; Malloc 18446744039349813256;
        Stderr (alloc_failure_log 2147483647 2147483647)].
Proof.
  split; [|split; [|split]].
  - destruct (update_shadow_buffer_size_outcome Script.calm 0 5 (Script.screen 1 1))
      as (_ & _ & H & _). apply H. left. lia.
  - destruct (update_shadow_buffer_size_outcome Script.calm 2 1 (Script.screen 1 1))
      as (_ & _ & _ & H & _). apply H; [lia|lia|by vm_compute|discriminate].
  - destruct (update_shadow_buffer_size_outcome
                (Script.world [] [] Script.never false) 2 1 (Script.screen 1 1))
      as (_ & _ & _ & _ & H & _). apply H; [lia|lia|reflexivity].
  - destruct (update_shadow_buffer_size_outcome
                (Script.world [] [] Script.never false) 2147483647 2147483647
                (Script.screen 1 1))
      as (_ & _ & _ & _ & H & _). apply H; [lia|lia|reflexivity].
Defined.

(** C6 as stated fails on its last part.  A whole run: the terminal is
    resized to 2 by 2, the allocation fails, and the client sends [get_cell 0
    0] and then [shutdown].  The process does not stop on the failure: it
    logs it, forwards the event, answers [get_cell] with a command-level
    error, and ends with exit status 0 on [shutdown]. *)
Lemma failed_allocation_is_absorbed_counterexample :
  let W := Script.world [Script.resize_event 2 2]
             [ReadBytes ("get_cell 0 0" +:+ nl +:+ "shutdown" +:+ nl)]
             Script.never false in
  let r := main W 2 initial_state in
  fst r = Some 0
  /\ In (Stderr (alloc_failure_log 2 2)) (trace (snd r))
  /\ filter (fun c => is_write c = true) (trace (snd r))
     = [WriteExact 4 (event_line (snd (Script.resize_event 2 2)) +:+ nl);
        WriteExact 4 ("ERROR invalid_coords_get_cell" +:+ nl);
        WriteExact 4 ("OK" +:+ nl)].
Proof. vm_compute. tauto. Qed.

(** C7.  A line whose verb is [shutdown] makes the handler write [OK] and
    return 1.  In the turn where such a line is read, once the complete
    lines before it in the buffer have all let the loop go on, the loop
    stops with status 0 right after that write, whatever lines follow in the
    buffer: none of them is handled.  No further turn is run however many
    are allowed, [run_main_loop] then shuts termbox down, closes the client
    socket and returns 0, and the exit status [main] makes of that is 0. *)
Theorem shutdown_ends_the_session (W : World) :
  (forall fd line rest s,
     parse_command line = ("shutdown" :: rest)%string ->
     handle_client_command W fd line s =
       (1, push (WriteExact fd ("OK" +:+ nl)) s))
  /\ (forall v s a e data before line rest after rem sb more,
        let fd := client_socket_fd s in
        let count :=
          SOCKET_BUFFER_SIZE - 1 - Z.of_nat (String.length (socket_buffer v)) in
        let s0 := push (Read fd count) (push (Select fd) s) in
        keep_running v = true ->
        select_ret W (trace s ++ [Select fd]) = (a, e) -> 0 < a ->
        read_ret W (trace s ++ [Select fd; Read fd count]) = ReadBytes data ->
        data <> EmptyString -> Z.of_nat (String.length data) <= count ->
        socket_buffer v +:+ data = framed (before ++ line :: after) rem ->
        Forall is_line (before ++ line :: after) -> strchr_lf rem = None ->
        run_through W fd before s0 = Some sb ->
        parse_command line = ("shutdown" :: rest)%string ->
        let s' := push (WriteExact fd ("OK" +:+ nl)) sb in
        poll_socket W v s = (stop 0 v, s')
        /\ serve W more (stop 0 v) s' = (stop 0 v, s')
        /\ fst (drain (stop 0 v) s') = Some 0
        /\ (exists tail,
              trace (snd (drain (stop 0 v) s')) = trace s' ++ TbShutdown :: tail
              /\ Forall (fun c => is_write c = false) tail)
        /\ exit_code 0 = 0).
Proof.
  assert (Hsd : forall fd line rest s,
            parse_command line = ("shutdown" :: rest)%string ->
            handle_client_command W fd line s =
              (1, push (WriteExact fd ("OK" +:+ nl)) s)).
  { intros fd line rest s Hp. unfold handle_client_command.
    rewrite Hp. apply run_shutdown. }
  split; [exact Hsd|].
  intros v s a e data before line rest after rem sb more fd count s0
         Hv Hsel Ha Hread Hne Hlen Hbuf Hlines Hrem Hrun Hp s'.
  split; [|split; [|split; [|split]]].
  - rewrite (poll_socket_framed W v s a e data (before ++ line :: after) rem) by done.
    fold fd count s0.
    rewrite (dispatch_seq_run_through W fd before (line :: after) v s0 sb Hrun).
    cbn [dispatch_seq]. unfold bind. by rewrite (Hsd fd line rest sb Hp).
  - by apply serve_stopped.
  - unfold drain, close_client. cbn [stop keep_running bind emit get].
    by destruct (negb _).
  - unfold drain, close_client. cbn [stop keep_running bind emit get].
    destruct (negb _); cbn [when bind emit get modify ret snd trace set_trace
                                 set_client_socket_fd];
      rewrite <- ?app_assoc;
      eexists; (split; [reflexivity|repeat constructor]).
  - done.
Qed.

Lemma shutdown_ends_the_session_witness :
  let W := Script.world []
             [ReadBytes ("present" +:+ nl +:+ "shutdown" +:+ nl +:+ "clear" +:+ nl);
              ReadBytes ("width" +:+ nl)]
             Script.never true in
  let s := push (TbPeekEvent 10) (Script.screen 1 1) in
  poll_socket W first_turn s =
    (stop 0 first_turn,
     push (WriteExact 4 ("OK" +:+ nl))
          (push (WriteExact 4 ("OK" +:+ nl))
                (push TbPresent (push (Read 4 4095) (push (Select 4) s)))))
  /\ fst (main W 7 initial_state) = Some 0.
Proof.
  intros W s. split; [|reflexivity].
  refine (proj1 (proj2 (shutdown_ends_the_session W) first_turn s 1 false
              ("present" +:+ nl +:+ "shutdown" +:+ nl +:+ "clear" +:+ nl)
              ["present"%string] "shutdown"%string [] ["clear"%string]
              EmptyString
              (push (WriteExact 4 ("OK" +:+ nl))
                    (push TbPresent (push (Read 4 4095) (push (Select 4) s))))
              0%nat _ _ _ _ _ _ _ _ _ _ _));
    try reflexivity; try discriminate.
  repeat constructor.
Defined.

(** C8.  In a turn of the serving loop, a pending terminal event is written
    to the client in step 1, before the socket is even looked at: the state
    the turn ends in is the one steps 2 and 3 reach from the state step 1
    left, whose trace already holds the event line.  And when the socket is
    readable and the bytes read, put after what the buffer held, make up the
    complete lines [lines] and an incomplete rest, steps 2 and 3 hand exactly
    these lines to the handler one after the other in their order of arrival
    (up to the first that asks to stop), each answered before the next is
    looked at, and keep the rest for the next read. *)
Theorem turn_forwards_event_then_dispatches_in_order (W : World) :
  (forall v s r ev,
     tb_peek_event_ret W (trace s ++ [TbPeekEvent 10]) = (r, ev) -> 0 < r ->
     let s1 := snd (poll_terminal W s) in
     loop_body W v s = poll_socket W v s1
     /\ client_socket_fd s1 = client_socket_fd s
     /\ exists pre tail,
          trace s1 =
            trace s ++ pre
              ++ WriteExact (client_socket_fd s) (event_line ev +:+ nl) :: tail
          /\ Forall (fun c => is_write c = false) pre
          /\ (tail = [] \/ exists msg, tail = [Perror msg]))
  /\ (forall v s1 a e data lines rem,
        let fd := client_socket_fd s1 in
        let count :=
          SOCKET_BUFFER_SIZE - 1 - Z.of_nat (String.length (socket_buffer v)) in
        select_ret W (trace s1 ++ [Select fd]) = (a, e) -> 0 < a ->
        read_ret W (trace s1 ++ [Select fd; Read fd count]) = ReadBytes data ->
        data <> EmptyString -> Z.of_nat (String.length data) <= count ->
        socket_buffer v +:+ data = framed lines rem ->
        Forall is_line lines -> strchr_lf rem = None ->
        let r := dispatch_seq W fd lines v
                   (push (Read fd count) (push (Select fd) s1)) in
        poll_socket W v s1 =
          (if keep_running (fst r)
           then set_socket_buffer
                  (if SOCKET_BUFFER_SIZE - 1 <=? Z.of_nat (String.length rem)
                   then EmptyString else rem) (fst r)
           else fst r,
           snd r)).
Proof.
  split.
  - intros v s r ev Hpeek Hr s1. split; [|split].
    + apply loop_body_eq.
    + apply poll_terminal_fd.
    + by apply (poll_terminal_forwards W s r ev).
  - intros v s1 a e data lines rem fd count Hsel Ha Hread Hne Hlen Hbuf Hlines Hrem.
    by apply (poll_socket_framed W v s1 a e data).
Qed.

Lemma turn_forwards_event_then_dispatches_in_order_witness :
  let W := Script.world [Script.key_event 97]
             [ReadBytes ("width" +:+ nl +:+ "height" +:+ nl +:+ "pre")]
             Script.never true in
  filter (fun c => is_write c = true)
         (trace (snd (loop_body W (first_turn) (Script.screen 1 1))))
  = [WriteExact 4 (event_line (snd (Script.key_event 97)) +:+ nl);
     WriteExact 4 ("OK_WIDTH 80" +:+ nl);
     WriteExact 4 ("OK_HEIGHT 24" +:+ nl)]
  /\ socket_buffer (fst (loop_body W first_turn (Script.screen 1 1))) = "pre"%string.
Proof.
  intros W.
  destruct (turn_forwards_event_then_dispatches_in_order W) as [Hev Hcmd].
  destruct (Hev first_turn (Script.screen 1 1) 1 (snd (Script.key_event 97)))
    as (Hbody & _ & _); [reflexivity|reflexivity|].
  rewrite Hbody.
  rewrite (Hcmd first_turn _ 1 false
             ("width" +:+ nl +:+ "height" +:+ nl +:+ "pre")
             ["width"; "height"]%string "pre"%string);
    try reflexivity; try discriminate.
  - split; reflexivity.
  - repeat constructor.
Defined.

(** C9 (amended).  [main] writes the startup log to standard error and
    creates, binds and listens on the socket, in this order.  The first of
    these three steps to fail ends the run with status 1: the calls made
    are then exactly the ones listed, the last of which writes the line
    [error socket_create_failed], [error socket_bind_failed] or
    [error socket_listen_failed] to standard error; nothing is written to
    standard output and no connection is accepted.  When none fails, the line
    [OK <socket path>] is written to standard output right after [listen],
    before the client is waited for. *)
Theorem bootstrap_outcomes (W : World) (turns : nat) (s : state) :
  let path := socket_path W in
  let t1 := trace s ++ [startup_log; Socket] in
  let fd := socket_ret W t1 in
  let t2 := t1 ++ [Unlink path; Bind fd path] in
  let t3 := t2 ++ [Listen fd 5] in
  let r := main W turns s in
  (fd = -1 ->
   fst r = Some 1 /\
   trace (snd r) =
     t1 ++ [Perror "Error creating listen socket";
            Stderr ("error socket_create_failed" +:+ nl)])
  /\ (fd <> -1 -> bind_ret W t2 = -1 ->
      fst r = Some 1 /\
      trace (snd r) =
        t2 ++ [Perror "Error binding socket"; Close fd; Unlink path;
               Stderr ("error socket_bind_failed" +:+ nl)])
  /\ (fd <> -1 -> bind_ret W t2 <> -1 -> listen_ret W t3 = -1 ->
      fst r = Some 1 /\
      trace (snd r) =
        t3 ++ [Perror "Error listening on socket"; Close fd; Unlink path;
               Stderr ("error socket_listen_failed" +:+ nl)])
  /\ (fd <> -1 -> bind_ret W t2 <> -1 -> listen_ret W t3 <> -1 ->
      exists rest,
        trace (snd r) =
          t3 ++ Stdout ("OK " +:+ path +:+ nl)
             :: Stderr ("termbox_port C_LOG: Entering main loop. Waiting for client connection on fd "
                          +:+ fmt_d fd +:+ " at path " +:+ path +:+ "..." +:+ nl)
             :: Accept fd :: rest).
Proof.
  intros path t1 fd t2 t3 r. subst r.
  unfold main. cbn [bind emit trace set_trace].
  fold startup_log. rewrite <- !app_assoc. cbn [app]. fold t1. fold fd.
  split; [|split; [|split]].
  - intros Hfd. rewrite Hfd. cbn. by rewrite <- !app_assoc.
  - intros Hfd Hbind.
    replace (fd =? -1) with false by (symmetry; by apply Z.eqb_neq).
    cbn [bind emit modify trace set_trace set_actual_socket_path].
    fold (socket_path W). fold path.
    rewrite <- !app_assoc. cbn [app].
    change (t1 ++ [Unlink path; Bind fd path]) with t2.
    rewrite Hbind. cbn. by rewrite <- !app_assoc.
  - intros Hfd Hbind Hlisten.
    replace (fd =? -1) with false by (symmetry; by apply Z.eqb_neq).
    cbn [bind emit modify trace set_trace set_actual_socket_path].
    fold (socket_path W). fold path.
    rewrite <- !app_assoc. cbn [app].
    change (t1 ++ [Unlink path; Bind fd path]) with t2.
    replace (bind_ret W t2 =? -1) with false by (symmetry; by apply Z.eqb_neq).
    cbn [bind emit modify trace set_trace].
    change (t2 ++ [Listen fd 5]) with t3.
    rewrite Hlisten. cbn. by rewrite <- !app_assoc.
  - intros Hfd Hbind Hlisten.
    replace (fd =? -1) with false by (symmetry; by apply Z.eqb_neq).
    cbn [bind emit modify trace set_trace set_actual_socket_path].
    fold (socket_path W). fold path.
    rewrite <- !app_assoc. cbn [app].
    change (t1 ++ [Unlink path; Bind fd path]) with t2.
    replace (bind_ret W t2 =? -1) with false by (symmetry; by apply Z.eqb_neq).
    cbn [bind emit modify trace set_trace].
    change (t2 ++ [Listen fd 5]) with t3.
    replace (listen_ret W t3 =? -1) with false by (symmetry; by apply Z.eqb_neq).
    cbn [bind emit modify trace set_trace].
    set (s1 := set_trace (t3 ++ [Stdout _]) _).
    unfold run_main_loop. cbn [bind].
    pose proof (accept_client_trace W fd s1) as Hacc.
    change (actual_socket_path s1) with path in Hacc.
    destruct Hacc as [rest0 Hacc].
    destruct (accept_client W fd s1) as [[status|] s2]; cbn [snd] in Hacc.
    + cbn [bind emit ret snd trace set_trace]. rewrite Hacc.
      subst s1. cbn [trace set_trace]. rewrite <- !app_assoc. cbn [app].
      eexists. reflexivity.
    + cbn [bind].
      pose proof (keeps_serve W (extends (trace s2)) (extends_push _)
                    (fun h => extends_resize W _ _ _) (extends_command W _)
                    turns first_turn s2) as Hserve.
      destruct (serve W turns first_turn s2) as [v sv]. cbn [snd] in Hserve.
      pose proof (keeps_drain (extends (trace s2)) (extends_push _)
                    (fun s0 fd0 H => H) v sv) as Hdrain.
      destruct (drain v sv) as [res s3]. cbn [snd] in Hdrain.
      destruct Hdrain as [rest1 Hext].
      { apply Hserve. exists []. by rewrite app_nil_r. }
      destruct res as [res|];
        cbn [bind emit ret snd trace set_trace]; rewrite Hext, Hacc;
        subst s1; cbn [trace set_trace]; rewrite <- !app_assoc; cbn [app];
        eexists; reflexivity.
Qed.

Lemma bootstrap_outcomes_witness :
  (fst (main (Script.failing 1 Script.calm) 1 initial_state) = Some 1
   /\ trace (snd (main (Script.failing 1 Script.calm) 1 initial_state)) =
        [startup_log; Socket; Perror "Error creating listen socket";
         Stderr ("error socket_create_failed" +:+ nl)])
  /\ fst (main (Script.failing 2 Script.calm) 1 initial_state) = Some 1
  /\ fst (main (Script.failing 3 Script.calm) 1 initial_state) = Some 1
  /\ exists rest,
       trace (snd (main Script.calm 1 initial_state)) =
         [startup_log; Socket; Unlink "/tmp/termbox_port_42.sock";
          Bind 3 "/tmp/termbox_port_42.sock"; Listen 3 5;
          Stdout ("OK /tmp/termbox_port_42.sock" +:+ nl);
          Stderr ("termbox_port C_LOG: Entering main loop. Waiting for client connection on fd 3 at path /tmp/termbox_port_42.sock..." +:+ nl);
          Accept 3] ++ rest.
Proof.
  split; [|split; [|split]].
  - apply (proj1 (bootstrap_outcomes (Script.failing 1 Script.calm) 1
                    initial_state)). reflexivity.
  - apply (proj1 (proj2 (bootstrap_outcomes (Script.failing 2 Script.calm) 1
                           initial_state))); [discriminate|reflexivity].
  - apply (proj1 (proj2 (proj2 (bootstrap_outcomes (Script.failing 3 Script.calm) 1
                                  initial_state))));
      [discriminate|discriminate|reflexivity].
  - apply (proj2 (proj2 (proj2 (bootstrap_outcomes Script.calm 1 initial_state))));
      discriminate.
Defined.

(** C9 as stated fails on the channel of the error line.  When [socket]
    fails, nothing at all is written to standard output: the line
    [error socket_create_failed] goes to standard error.  The same holds
    for [bind] and [listen]. *)
Lemma bootstrap_error_channel_counterexample :
  (let r := main (Script.failing 1 Script.calm) 1 initial_state in
   fst r = Some 1
   /\ filter (fun c => is_stdout c = true) (trace (snd r)) = []
   /\ last (trace (snd r)) = Some (Stderr ("error socket_create_failed" +:+ nl)))
  /\ (let r := main (Script.failing 2 Script.calm) 1 initial_state in
      filter (fun c => is_stdout c = true) (trace (snd r)) = []
      /\ last (trace (snd r)) = Some (Stderr ("error socket_bind_failed" +:+ nl)))
  /\ (let r := main (Script.failing 3 Script.calm) 1 initial_state in
      filter (fun c => is_stdout c = true) (trace (snd r)) = []
      /\ last (trace (snd r)) = Some (Stderr ("error socket_listen_failed" +:+ nl))).
Proof. vm_compute. done. Qed.

(** C10.  The handler sees at most [MAX_ARGS] = 10 tokens of a line.  A
    line made of any number of space-separated tokens is cut into the first
    ten of them, and is handled exactly like the line made of these ten
    alone: the tokens after the tenth change neither the calls made nor the
    response.  So a [print] with more than five words of text paints and
    mirrors the decoded text of its first five words rejoined, and answers
    [OK]. *)
Theorem tokens_beyond_the_tenth_are_dropped (W : World) (fd : Z) :
  (forall line, (length (parse_command line) <= 10)%nat)
  /\ (forall toks,
        Forall token toks -> parse_command (rejoined toks) = take 10 toks)
  /\ (forall toks s,
        Forall token toks ->
        handle_client_command W fd (rejoined toks) s =
          handle_client_command W fd (rejoined (take 10 toks)) s)
  /\ (forall tx ty tf tb words s,
        Forall token (tx :: ty :: tf :: tb :: words) ->
        (5 < length words)%nat ->
        Z.of_nat (String.length
                    (rejoined ("print" :: tx :: ty :: tf :: tb :: words)%string))
          < SOCKET_BUFFER_SIZE ->
        handle_client_command W fd
          (rejoined ("print" :: tx :: ty :: tf :: tb :: words)%string) s =
          (paint (atoi tx) (atoi ty) (to_uint16 (atoi tf)) (to_uint16 (atoi tb))
                 (decoded W (rejoined (take 5 words))) ;;
           respond W fd "OK" "Error writing OK response for print") s).
Proof.
  split; [|split; [|split]].
  - intros line. apply collect_args_length.
  - apply parse_command_rejoined.
  - intros toks s Htoks. unfold handle_client_command.
    rewrite !parse_command_rejoined; [|by apply Forall_take|done].
    by rewrite take_take.
  - intros tx ty tf tb words s Htoks Hlen Hfit.
    unfold handle_client_command.
    rewrite parse_command_rejoined.
    2:{ constructor; [|done]. split; [done|reflexivity]. }
    change (take MAX_ARGS ("print"%string :: tx :: ty :: tf :: tb :: words))
      with ("print"%string :: tx :: ty :: tf :: tb :: take 5 words).
    destruct words as [|w1 words]; [simpl in Hlen; lia|].
    cbn [take]. apply run_print.
    pose proof (rejoined_take_length 5 (w1 :: words)) as H5.
    pose proof (rejoined_skip_length tb (w1 :: words)).
    pose proof (rejoined_skip_length tf (tb :: w1 :: words)).
    pose proof (rejoined_skip_length ty (tf :: tb :: w1 :: words)).
    pose proof (rejoined_skip_length tx (ty :: tf :: tb :: w1 :: words)).
    pose proof (rejoined_skip_length "print" (tx :: ty :: tf :: tb :: w1 :: words)).
    cbn [take] in H5. lia.
Qed.

Lemma tokens_beyond_the_tenth_are_dropped_witness :
  handle_client_command Script.calm 4 "print 0 0 1 2 a b c d e f g" (Script.screen 9 1)
  = (paint 0 0 1 2 (decoded Script.calm "a b c d e") ;;
     respond Script.calm 4 "OK" "Error writing OK response for print")
      (Script.screen 9 1)
  /\ handle_client_command Script.calm 4 "width 1 2 3 4 5 6 7 8 9 10 11" (Script.screen 9 1)
     = handle_client_command Script.calm 4 "width 1 2 3 4 5 6 7 8 9" (Script.screen 9 1).
Proof.
  destruct (tokens_beyond_the_tenth_are_dropped Script.calm 4) as (_ & _ & Hsame & Hprint).
  split.
  - apply (Hprint "0" "0" "1" "2" ["a"; "b"; "c"; "d"; "e"; "f"; "g"])%string.
    + repeat constructor; discriminate.
    + simpl. lia.
    + reflexivity.
  - apply (Hsame ["width"; "1"; "2"; "3"; "4"; "5"; "6"; "7"; "8"; "9"; "10"; "11"]%string).
    repeat constructor; discriminate.
Defined.

(** * Further properties of the program *)

Lemma length_drop_eq n s :
  String.length (drop n s) = (String.length s - n)%nat.
Proof.
  revert s. induction n as [|n IH]; intros s; simpl; [lia|].
  destruct s as [|c s]; simpl; [done|]. apply IH.
Qed.

Lemma substring_drop a b s :
  substring 0 a s +:+ substring 0 b (drop a s) = substring 0 (a + b) s.
Proof.
  revert s. induction a as [|a IH]; intros s.
  - simpl. by destruct s.
  - destruct s as [|c s]; simpl; [by destruct b|]. by rewrite IH.
Qed.

Lemma accepted_app sys_write before a b :
  accepted sys_write before (a ++ b) =
    accepted sys_write before a +:+ accepted sys_write (before ++ a) b.
Proof.
  revert before. induction a as [|o a IH]; intros before.
  - simpl. by rewrite app_nil_r.
  - cbn [app accepted]. rewrite IH, string_app_assoc.
    by rewrite <- app_assoc.
Qed.

(** The invariant of the loop: what [write] took so far is the first
    [bytes_written] bytes of the buffer. *)
Lemma write_exact_loop_inv sys_write fuel buf bw h r offers :
  conforming sys_write ->
  0 <= bw <= Z.of_nat (String.length buf) ->
  accepted sys_write [] h = substring 0 (Z.to_nat bw) buf ->
  write_exact_loop sys_write fuel buf bw h = (Some r, offers) ->
  (r = Z.of_nat (String.length buf) /\ accepted sys_write [] offers = buf)
  \/ (r = -1 /\ exists k, (k < String.length buf)%nat /\
                 accepted sys_write [] offers = substring 0 k buf).
Proof.
  intros Hconf. revert bw h.
  induction fuel as [|fuel IH]; intros bw h Hbw Hacc; cbn [write_exact_loop].
  - destruct (bw <? _) eqn:E; [done|]. apply Z.ltb_ge in E.
    intros [= <- <-]. left. split; [lia|].
    rewrite Hacc. apply substring_all. lia.
  - destruct (bw <? _) eqn:E.
    2:{ apply Z.ltb_ge in E. intros [= <- <-]. left. split; [lia|].
        rewrite Hacc. apply substring_all. lia. }
    apply Z.ltb_lt in E.
    set (o := drop (Z.to_nat bw) buf).
    pose proof (Hconf h o) as Hle.
    assert (Ho : String.length o = (String.length buf - Z.to_nat bw)%nat)
      by apply length_drop_eq.
    assert (Hacc' : accepted sys_write [] (h ++ [o]) =
                    substring 0 (Z.to_nat bw) buf
                      +:+ (if fst (sys_write (h ++ [o])) <? 0 then EmptyString
                           else substring 0 (Z.to_nat (fst (sys_write (h ++ [o])))) o)).
    { rewrite accepted_app, Hacc. cbn [accepted app].
      by rewrite string_app_empty_r. }
    destruct (sys_write (h ++ [o])) as [result eintr] eqn:Ew.
    cbn [fst] in *.
    destruct (result <? 0) eqn:Er.
    + rewrite string_app_empty_r in Hacc'.
      destruct eintr.
      * apply IH; done.
      * intros [= <- <-]. right. split; [done|].
        exists (Z.to_nat bw). split; [lia|done].
    + apply Z.ltb_ge in Er. apply IH; [lia|].
      rewrite Hacc'. unfold o. rewrite substring_drop. f_equal. lia.
Qed.

Lemma write_exact_loop_returns sys_write fuel buf bw h :
  progressing sys_write -> 0 <= bw ->
  (Z.to_nat (Z.of_nat (String.length buf) - bw) <= fuel)%nat ->
  exists r offers,
    write_exact_loop sys_write fuel buf bw h = (Some r, offers)
    /\ (length offers <=
         length h + Z.to_nat (Z.of_nat (String.length buf) - bw))%nat.
Proof.
  intros Hprog. revert bw h.
  induction fuel as [|fuel IH]; intros bw h Hbw Hfuel; cbn [write_exact_loop].
  - destruct (bw <? _) eqn:E; [apply Z.ltb_lt in E; lia|].
    eexists _, _. split; [done|lia].
  - destruct (bw <? _) eqn:E; [|eexists _, _; split; [done|lia]].
    apply Z.ltb_lt in E.
    set (o := drop (Z.to_nat bw) buf).
    assert (Ho : o <> EmptyString).
    { intros Ho. pose proof (length_drop_eq (Z.to_nat bw) buf) as Hl.
      fold o in Hl. rewrite Ho in Hl. simpl in Hl. lia. }
    destruct (Hprog h o Ho) as [[Hneg He]|Hpos];
      destruct (sys_write (h ++ [o])) as [result eintr]; cbn [fst snd] in *.
    + subst eintr. replace (result <? 0) with true by (symmetry; by apply Z.ltb_lt).
      eexists _, _. split; [done|]. rewrite length_app. simpl. lia.
    + replace (result <? 0) with false by (symmetry; apply Z.ltb_ge; lia).
      destruct (IH (bw + result) (h ++ [o])) as (r & offers & -> & Hlen);
        [lia|lia|].
      eexists _, _. split; [done|]. rewrite length_app in Hlen. simpl in Hlen. lia.
Qed.

Lemma write_exact_loop_stalls sys_write fuel buf bw h :
  stalling sys_write ->
  bw < Z.of_nat (String.length buf) ->
  fst (write_exact_loop sys_write fuel buf bw h) = None
  /\ length (snd (write_exact_loop sys_write fuel buf bw h)) = (length h + fuel)%nat.
Proof.
  intros Hst. revert h.
  induction fuel as [|fuel IH]; intros h Hbw; cbn [write_exact_loop];
    (replace (bw <? _) with true by (symmetry; by apply Z.ltb_lt));
    [split; [done|simpl; lia]|].
  set (h' := h ++ _).
  assert (Hl : length h' = S (length h)) by (unfold h'; rewrite length_app; simpl; lia).
  destruct (Hst h') as [[Hneg He]|Hz];
    destruct (sys_write h') as [result eintr]; cbn [fst snd] in *.
  - subst eintr. replace (result <? 0) with true by (symmetry; by apply Z.ltb_lt).
    destruct (IH h' Hbw) as [-> ->]. split; [done|lia].
  - subst result. cbn. rewrite Z.add_0_r.
    destruct (IH h' Hbw) as [-> ->]. split; [done|lia].
Qed.

Lemma scripted_write_conforming answers : conforming (scripted_write answers).
Proof.
  intros h o. unfold scripted_write. rewrite last_last.
  destruct (nth _ _ _) as [r e]. cbn [fst]. lia.
Qed.

(** X1.  [write_exact] is all or nothing, and in order.  With a [write] that
    never reports more bytes than it was offered, whenever the loop returns
    it returns either the full count, and then the bytes [write] took, call
    after call, are exactly the buffer; or [-1], and then they are a proper
    prefix of it.  Each call is offered the part of the buffer not yet
    written: a short write is resumed where it stopped, and an interrupted
    call is made again from the same place. *)
Theorem write_exact_all_or_nothing
        (sys_write : list string -> Z * bool) (fuel : nat) (buf : string)
        (r : Z) (offers : list string) :
  conforming sys_write ->
  write_exact_loop sys_write fuel buf 0 [] = (Some r, offers) ->
  (r = Z.of_nat (String.length buf) /\ accepted sys_write [] offers = buf)
  \/ (r = -1 /\ exists k, (k < String.length buf)%nat /\
                 accepted sys_write [] offers = substring 0 k buf).
Proof.
  intros Hconf. apply write_exact_loop_inv; [done|lia|].
  by destruct buf.
Qed.

Lemma write_exact_all_or_nothing_witness :
  let k := scripted_write [(2, false); (-1, true); (1, false)] in
  write_exact_loop k 9 "hello" 0 [] =
    (Some 5, ["hello"; "llo"; "llo"; "lo"]%string)
  /\ accepted k [] ["hello"; "llo"; "llo"; "lo"]%string = "hello"%string.
Proof.
  intros k.
  assert (Hrun : write_exact_loop k 9 "hello" 0 [] =
                   (Some 5, ["hello"; "llo"; "llo"; "lo"]%string))
    by reflexivity.
  split; [exact Hrun|].
  pose proof (scripted_write_conforming [(2, false); (-1, true); (1, false)]) as Hconf.
  destruct (write_exact_all_or_nothing k 9 "hello" 5
              ["hello"; "llo"; "llo"; "lo"]%string Hconf Hrun)
    as [[_ H]|[H _]]; [exact H|discriminate].
Defined.

(** X2.  [write_exact] returns when [write] makes headway.  If every call
    of [write] on a buffer that is not empty either fails for good or takes
    one byte at least, the loop returns after at most as many calls as the
    buffer has bytes. *)
Theorem write_exact_returns
        (sys_write : list string -> Z * bool) (fuel : nat) (buf : string) :
  progressing sys_write ->
  (String.length buf <= fuel)%nat ->
  exists r offers,
    write_exact_loop sys_write fuel buf 0 [] = (Some r, offers)
    /\ (length offers <= String.length buf)%nat.
Proof.
  intros Hprog Hfuel.
  destruct (write_exact_loop_returns sys_write fuel buf 0 [] Hprog)
    as (r & offers & Hrun & Hlen); [lia|lia|].
  exists r, offers. split; [done|]. simpl in Hlen. lia.
Qed.

Lemma write_exact_returns_witness :
  exists r offers,
    write_exact_loop (scripted_write [(1, false); (-1, false)]) 3 "abc" 0 []
      = (Some r, offers)
    /\ (length offers <= String.length "abc")%nat.
Proof.
  apply write_exact_returns; [|simpl; lia].
  intros h o Ho. unfold scripted_write. rewrite last_last.
  assert (0 < Z.of_nat (String.length o)) by (destruct o; [done|simpl; lia]).
  rewrite length_app. cbn [length].
  replace (length h + 1 - 1)%nat with (length h) by lia.
  destruct h as [|o0 [|o1 h]]; cbn [length nth fst snd]; cbv beta iota zeta;
    cbn [fst snd].
  - right. lia.
  - left. split; [lia|done].
  - right. destruct (length h); cbn [fst]; lia.
Defined.

(** X3.  [write_exact] has no way out of a [write] that takes nothing.  The
    loop tests [result < 0] only; while every call is interrupted or
    returns 0 with bytes still to write, it calls [write] again, however
    many calls it is allowed. *)
Theorem write_exact_spins
        (sys_write : list string -> Z * bool) (fuel : nat) (buf : string) :
  stalling sys_write -> buf <> EmptyString ->
  fst (write_exact_loop sys_write fuel buf 0 []) = None
  /\ length (snd (write_exact_loop sys_write fuel buf 0 [])) = fuel.
Proof.
  intros Hst Hne.
  apply (write_exact_loop_stalls sys_write fuel buf 0 []); [done|].
  destruct buf; [done|simpl; lia].
Qed.

Lemma write_exact_spins_witness :
  fst (write_exact_loop (fun _ => (0, false)) 1000 "a" 0 []) = None
  /\ length (snd (write_exact_loop (fun _ => (0, false)) 1000 "a" 0 [])) = 1000%nat.
Proof.
  apply write_exact_spins; [|discriminate].
  intros h. by right.
Defined.

Ltac not_a_verb :=
  let H := fresh in
  unfold verbs; intros H;
  repeat (apply elem_of_cons in H as [H|H]; [discriminate|]);
  by apply elem_of_nil in H.


Lemma last_char_snoc l c : last_char (l +:+ String c EmptyString) = Some c.
Proof.
  induction l as [|c0 l IH]; [done|].
  change (String c0 l +:+ String c EmptyString)
    with (String c0 (l +:+ String c EmptyString)).
  cbn [last_char]. rewrite IH.
  by destruct (l +:+ String c EmptyString) eqn:E; [destruct l|].
Qed.

Lemma drop_last_snoc l c : drop_last (l +:+ String c EmptyString) = l.
Proof.
  induction l as [|c0 l IH]; [done|].
  change (String c0 l +:+ String c EmptyString)
    with (String c0 (l +:+ String c EmptyString)).
  cbn [drop_last]. rewrite IH.
  by destruct (l +:+ String c EmptyString) eqn:E; [destruct l|].
Qed.

Lemma strip_last_snoc l c : strip_last c (l +:+ String c EmptyString) = l.
Proof.
  unfold strip_last. by rewrite last_char_snoc, Ascii.eqb_refl, drop_last_snoc.
Qed.

Lemma strip_last_other l c c' :
  c <> c' -> strip_last c' (l +:+ String c EmptyString) = l +:+ String c EmptyString.
Proof.
  intros Hne. unfold strip_last. rewrite last_char_snoc.
  destruct (Ascii.eqb c c') eqn:E; [|done]. by apply Ascii.eqb_eq in E.
Qed.

Lemma strip_last_keeps l c : last_char l <> Some c -> strip_last c l = l.
Proof.
  intros Hne. unfold strip_last. destruct (last_char l) as [c'|]; [|done].
  destruct (Ascii.eqb c' c) eqn:E; [|done]. apply Ascii.eqb_eq in E. by subst.
Qed.

(** The line ends the handler strips. *)
Lemma parse_command_line_end l :
  last_char l <> Some LF -> last_char l <> Some CR ->
  parse_command (l +:+ String LF EmptyString) = parse_command l
  /\ parse_command (l +:+ String CR EmptyString) = parse_command l
  /\ parse_command (l +:+ String CR (String LF EmptyString)) = parse_command l.
Proof.
  intros Hlf Hcr. unfold parse_command.
  rewrite (strip_last_keeps l LF), (strip_last_keeps l CR) by done.
  split; [|split].
  - by rewrite strip_last_snoc, strip_last_keeps.
  - rewrite strip_last_other by done. by rewrite strip_last_snoc.
  - replace (l +:+ String CR (String LF EmptyString))
      with ((l +:+ String CR EmptyString) +:+ String LF EmptyString)
      by (by rewrite string_app_assoc).
    by rewrite !strip_last_snoc.
Qed.

Lemma blank_last_char l c : blank l -> last_char l = Some c -> c = SP.
Proof.
  unfold blank. induction l as [|c0 l IH]; [done|]. cbn [all_chars last_char].
  rewrite andb_true_iff. intros [Hc Hl].
  destruct l as [|c1 l]; [|by apply IH].
  intros [= <-]. symmetry. by apply Ascii.eqb_eq.
Qed.

Lemma blank_no_token l : blank l -> strtok (cstr l) = None.
Proof.
  unfold blank, strtok. induction l as [|c l IH]; [done|].
  cbn [all_chars cstr]. rewrite andb_true_iff. intros [Hc Hl].
  apply Ascii.eqb_eq in Hc. subst c. cbn [skip_delims Ascii.eqb Bool.eqb].
  change (Ascii.eqb SP NUL) with false. cbv iota.
  cbn [skip_delims]. rewrite Ascii.eqb_refl. by apply IH.
Qed.

Lemma parse_command_blank l : blank l -> parse_command l = [].
Proof.
  intros Hb. unfold parse_command.
  rewrite (strip_last_keeps l LF), (strip_last_keeps l CR).
  - unfold MAX_ARGS. cbn [collect_args]. by rewrite blank_no_token.
  - intros Hl. by pose proof (blank_last_char l CR Hb Hl).
  - intros Hl. by pose proof (blank_last_char l LF Hb Hl).
Qed.

Lemma run_unknown W fd verb rest s :
  verb ∉ verbs ->
  run_command W fd (verb :: rest) s =
    (0, push (WriteExact fd ("ERROR unknown_command" +:+ nl)) s).
Proof.
  intros Hv. unfold run_command.
  repeat match goal with
         | |- context [String.eqb verb ?v] =>
             let E := fresh "E" in
             destruct (String.eqb verb v) eqn:E;
             [apply String.eqb_eq in E; subst verb; exfalso; apply Hv;
              unfold verbs;
              repeat first [apply list_elem_of_here | apply list_elem_of_further]|]
         end.
  by rewrite reject_eq.
Qed.

(** X4.  A line of spaces, or an empty one, is ignored: the handler returns
    0 without a call and without a response, and so it does when the line
    ends in a carriage return. *)
Theorem blank_line_is_ignored (W : World) (fd : Z) (l : string) (s : state) :
  blank l ->
  handle_client_command W fd l s = (0, s)
  /\ handle_client_command W fd (l +:+ String CR EmptyString) s = (0, s).
Proof.
  intros Hb. unfold handle_client_command.
  destruct (parse_command_line_end l) as (_ & -> & _).
  - intros Hl. by pose proof (blank_last_char l LF Hb Hl).
  - intros Hl. by pose proof (blank_last_char l CR Hb Hl).
  - by rewrite parse_command_blank.
Qed.

Lemma blank_line_is_ignored_witness :
  handle_client_command Script.calm 4 EmptyString (Script.screen 2 2)
    = (0, Script.screen 2 2)
  /\ handle_client_command Script.calm 4 ("   " +:+ String CR EmptyString)
       (Script.screen 2 2) = (0, Script.screen 2 2).
Proof.
  split.
  - apply (blank_line_is_ignored Script.calm 4 EmptyString (Script.screen 2 2)).
    reflexivity.
  - apply (blank_line_is_ignored Script.calm 4 "   " (Script.screen 2 2)). reflexivity.
Defined.

(** X5.  One line end is stripped before the line is cut into tokens: a
    line that ends in neither a line feed nor a carriage return is handled
    the same with a line feed, a carriage return, or a carriage return and a
    line feed after it. *)
Theorem line_end_is_stripped (W : World) (fd : Z) (l : string) (s : state) :
  last_char l <> Some LF -> last_char l <> Some CR ->
  handle_client_command W fd (l +:+ String LF EmptyString) s =
    handle_client_command W fd l s
  /\ handle_client_command W fd (l +:+ String CR EmptyString) s =
       handle_client_command W fd l s
  /\ handle_client_command W fd (l +:+ String CR (String LF EmptyString)) s =
       handle_client_command W fd l s.
Proof.
  intros Hlf Hcr. unfold handle_client_command.
  destruct (parse_command_line_end l Hlf Hcr) as (-> & -> & ->). done.
Qed.

Lemma line_end_is_stripped_witness :
  handle_client_command Script.calm 4 ("width" +:+ String CR EmptyString)
    (Script.screen 2 2)
  = handle_client_command Script.calm 4 "width" (Script.screen 2 2).
Proof.
  apply (line_end_is_stripped Script.calm 4 "width" (Script.screen 2 2));
    discriminate.
Defined.

(** X6.  A first token that is none of the thirteen verbs, compared byte by
    byte, is answered with [ERROR unknown_command], whatever follows it: the
    handler makes this one write and returns 0, and the globals are what
    they were.  The comparison is case sensitive. *)
Theorem unknown_verb_is_rejected
        (W : World) (fd : Z) (line verb : string) (rest : list string) (s : state) :
  parse_command line = verb :: rest ->
  verb ∉ verbs ->
  handle_client_command W fd line s =
    (0, push (WriteExact fd ("ERROR unknown_command" +:+ nl)) s).
Proof.
  intros Hp Hv. unfold handle_client_command. rewrite Hp. by apply run_unknown.
Qed.

Lemma unknown_verb_is_rejected_witness :
  handle_client_command Script.calm 4 "PRESENT" (Script.screen 2 2) =
    (0, push (WriteExact 4 ("ERROR unknown_command" +:+ nl)) (Script.screen 2 2))
  /\ handle_client_command Script.calm 4 "init 1 2" (Script.screen 2 2) =
    (0, push (WriteExact 4 ("ERROR unknown_command" +:+ nl)) (Script.screen 2 2)).
Proof.
  split.
  - apply (unknown_verb_is_rejected Script.calm 4 "PRESENT" "PRESENT" []);
      [reflexivity|not_a_verb].
  - apply (unknown_verb_is_rejected Script.calm 4 "init 1 2" "init" ["1"; "2"]%string);
      [reflexivity|not_a_verb].
Defined.


(** The receive buffer keeps room for a byte, turn after turn. *)
Lemma line_loop_buffer W fuel fd line_start v s :
  socket_buffer (snd (fst (line_loop W fuel fd line_start v s))) = socket_buffer v.
Proof.
  revert line_start s. induction fuel as [|fuel IH]; intros line_start s;
    cbn [line_loop]; [done|].
  destruct (strchr_lf line_start) as [[line rest]|]; [|done].
  cbn [bind]. destruct (handle_client_command W fd line s) as [r s1].
  destruct (r =? 1); [done|]. destruct (r <? 0); [done|]. apply IH.
Qed.

Lemma roomy_process_received W data v s :
  roomy v -> roomy (fst (process_received W data v s)).
Proof.
  intros Hv. unfold process_received. cbn [bind get].
  pose proof (line_loop_buffer W (String.length (socket_buffer v +:+ data))
                (client_socket_fd s) (socket_buffer v +:+ data) v s) as Hb.
  destruct (line_loop W _ _ _ v s) as [[ls v'] s1]. cbn [fst snd] in Hb.
  destruct (negb _); cbn [ret fst]; [unfold roomy; by rewrite Hb|].
  destruct (_ <=? _) eqn:E; cbn [ret fst]; unfold roomy; cbn [set_socket_buffer socket_buffer].
  - unfold SOCKET_BUFFER_SIZE. simpl. lia.
  - by apply Z.leb_gt in E.
Qed.

Lemma roomy_poll_socket W v s : roomy v -> roomy (fst (poll_socket W v s)).
Proof.
  intros Hv. unfold poll_socket. cbn [bind get emit].
  destruct (select_ret W _) as [a e].
  destruct (_ && _); [done|]. destruct (a =? 0); [done|].
  destruct (a <? 0); cbn [bind emit ret];
    (destruct (read_ret W _) as [[]|data]; [done|done|]);
    cbv zeta; (destruct (_ =? _)%nat; [done|]);
    by apply roomy_process_received.
Qed.

Lemma roomy_loop_body W v s : roomy v -> roomy (fst (loop_body W v s)).
Proof. intros Hv. rewrite loop_body_eq. by apply roomy_poll_socket. Qed.

Lemma roomy_serve W turns v s : roomy v -> roomy (fst (serve W turns v s)).
Proof.
  revert v s. induction turns as [|n IH]; intros v s Hv; cbn [serve]; [done|].
  destruct (keep_running v); [|done]. cbn [bind].
  pose proof (roomy_loop_body W v s Hv) as Hv1.
  destruct (loop_body W v s) as [v1 s1]. by apply IH.
Qed.



(** The serving loop, for any invariant and any set of calls that take in
    what a turn does. *)
Section OnlyLoop.

Variable W : World.
Variable I : state -> Prop.
Variable P : call -> Prop.
Hypothesis I_trace : forall s t, I s -> I (set_trace t s).
Hypothesis I_mirror : forall x y c, keeps I (mirror_cell x y c).
Hypothesis I_clear : keeps I (clear_shadow_buffer W).
Hypothesis I_resize : forall w h, keeps I (update_shadow_buffer_size W w h).
Hypothesis P_termbox : forall c, is_termbox c = true -> P c.
Hypothesis P_perror : forall msg, P (Perror msg).
Hypothesis P_write : forall s d, I s -> P (WriteExact (client_socket_fd s) d).
Hypothesis P_peek : P (TbPeekEvent 10).
Hypothesis P_free : P Free.
Hypothesis P_malloc : forall n, P (Malloc n).
Hypothesis P_stderr : forall text, P (Stderr text).
Hypothesis P_select : forall s, I s -> P (Select (client_socket_fd s)).
Hypothesis P_read :
  forall s n, I s -> 1 <= n <= SOCKET_BUFFER_SIZE - 1 ->
              P (Read (client_socket_fd s) n).

Lemma only_update_shadow_buffer_size w h :
  only I P (update_shadow_buffer_size W w h).
Proof.
  intros s Hs. split; [by apply I_resize|].
  rewrite update_shadow_buffer_size_eq. cbn [snd].
  assert (Hf : Forall P (freed s)).
  { unfold freed. destruct (shadow_buffer s); repeat constructor. apply P_free. }
  destruct (_ || _); cbn [with_cache trace].
  - by exists (freed s).
  - destruct (malloc_ret W _); cbn [with_cache trace]; rewrite <- !app_assoc;
      eexists; (split; [reflexivity|]); apply Forall_app; split; try done;
      repeat constructor; auto.
Qed.

Lemma only_poll_terminal : only I P (poll_terminal W).
Proof.
  unfold poll_terminal. apply only_get_then. intros s0 Hs0.
  apply only_bind; [by apply only_emit|]. intros h.
  destruct (tb_peek_event_ret W h) as [r ev].
  destruct (0 <? r); [|apply only_ret].
  apply only_bind; [|intros _; apply only_send_event; auto].
  apply only_when, only_update_shadow_buffer_size.
Qed.

Lemma only_process_received data v : only I P (process_received W data v).
Proof.
  unfold process_received. apply only_get_then. intros s0 Hs0.
  apply only_bind; [apply only_line_loop; auto|]. intros [ls v'].
  destruct (negb _); [apply only_ret|]. destruct (_ <=? _); apply only_ret.
Qed.

Lemma only_poll_socket v : roomy v -> only I P (poll_socket W v).
Proof.
  intros Hv. unfold poll_socket. apply only_get_then. intros s0 Hs0.
  apply only_bind; [by apply only_emit, P_select|]. intros h.
  destruct (select_ret W h) as [a e].
  destruct (_ && _); [apply only_ret|].
  destruct (a =? 0); [apply only_ret|].
  match goal with |- only _ _ (bind _ ?k) => set (K := k) end.
  assert (Hread : forall v', socket_buffer v' = socket_buffer v -> only I P (K v')).
  { intros v' Hb. unfold K. rewrite Hb.
    apply only_bind.
    { apply only_emit; [done|]. apply P_read; [done|]. unfold roomy in Hv. lia. }
    intros h'. destruct (read_ret W h') as [[]|data].
    - apply only_ret.
    - apply only_bind; [by apply only_emit|]. intros _. apply only_ret.
    - cbv zeta. destruct (_ =? _)%nat; [apply only_ret|apply only_process_received]. }
  destruct (a <? 0).
  - apply only_ext
      with (m' := emit (Perror "select() error") ;; K (stop 1 v)); [done|].
    apply only_bind; [by apply only_emit|]. intros _. by apply Hread.
  - apply only_ext with (m' := K v); [done|]. by apply Hread.
Qed.

Lemma only_loop_body v : roomy v -> only I P (loop_body W v).
Proof.
  intros Hv. unfold loop_body. apply only_bind; [apply only_poll_terminal|].
  intros _. by apply only_poll_socket.
Qed.

Lemma only_serve turns v : roomy v -> only I P (serve W turns v).
Proof.
  revert v. induction turns as [|n IH]; intros v Hv; cbn [serve]; [apply only_ret|].
  destruct (keep_running v); [|apply only_ret].
  intros s Hs. cbn [bind].
  destruct (only_loop_body v Hv s Hs) as (Hi & t & Ht & HP).
  pose proof (roomy_loop_body W v s Hv) as Hv1.
  destruct (loop_body W v s) as [v1 s1]. cbn [fst snd] in *.
  destruct (IH v1 Hv1 s1 Hi) as (Hi2 & t2 & Ht2 & HP2).
  split; [done|]. exists (t ++ t2).
  rewrite Ht2, Ht, app_assoc. split; [done|]. by apply Forall_app.
Qed.

Hypothesis I_fd : forall s fd, I s -> I (set_client_socket_fd fd s).
Hypothesis P_close : forall fd, P (Close fd).
Hypothesis P_shutdown : P TbShutdown.
Hypothesis P_accept : forall fd, P (Accept fd).
Hypothesis P_getfl : forall fd, P (FcntlGetfl fd).
Hypothesis P_setfl : forall fd, P (FcntlSetflNonblock fd).

Lemma only_close_client : only I P close_client.
Proof.
  unfold close_client. apply only_get_then. intros s0 _.
  apply only_bind; [by apply only_emit|]. intros _.
  apply only_silent; [|done]. intros s Hs. by apply I_fd.
Qed.

Lemma only_drain v : only I P (drain v).
Proof.
  unfold drain. destruct (keep_running v); [apply only_ret|].
  apply only_bind; [by apply only_emit|]. intros _.
  apply only_get_then. intros s0 _.
  apply only_bind; [|intros _; apply only_ret].
  apply only_when, only_close_client.
Qed.

Lemma only_accept_client listen_fd : only I P (accept_client W listen_fd).
Proof.
  unfold accept_client. apply only_get_then. intros s0 _.
  apply only_bind; [by apply only_emit|]. intros _.
  apply only_bind; [by apply only_emit|]. intros h.
  apply only_bind.
  { apply only_silent; [|done]. intros s Hs. by apply I_fd. }
  intros _. destruct (_ =? -1).
  { apply only_bind; [by apply only_emit|]. intros _.
    apply only_bind; [by apply only_emit|]. intros _. apply only_ret. }
  apply only_bind; [by apply only_emit|]. intros _.
  apply only_bind; [by apply only_emit|]. intros h1.
  destruct (_ =? -1).
  { apply only_bind; [by apply only_emit|]. intros _.
    apply only_bind; [apply only_close_client|]. intros _. apply only_ret. }
  apply only_bind; [by apply only_emit|]. intros h2.
  destruct (_ =? -1); [|apply only_ret].
  apply only_bind; [by apply only_emit|]. intros _.
  apply only_bind; [apply only_close_client|]. intros _. apply only_ret.
Qed.

Lemma roomy_first_turn : roomy first_turn.
Proof. unfold roomy, SOCKET_BUFFER_SIZE. simpl. lia. Qed.

Lemma only_run_main_loop turns listen_fd :
  only I P (run_main_loop W turns listen_fd).
Proof.
  unfold run_main_loop. apply only_bind; [apply only_accept_client|].
  intros [status|]; [apply only_ret|].
  apply only_bind; [apply only_serve, roomy_first_turn|]. intros v.
  apply only_drain.
Qed.

End OnlyLoop.

Lemma mirror_cell_fd x y c s :
  client_socket_fd (snd (mirror_cell x y c s)) = client_socket_fd s.
Proof.
  rewrite mirror_cell_eq. cbn [snd].
  destruct (cell_in_bounds s x y); [|done]. by destruct (shadow_buffer s).
Qed.

Lemma clear_shadow_buffer_fd W s :
  client_socket_fd (snd (clear_shadow_buffer W s)) = client_socket_fd s.
Proof.
  unfold clear_shadow_buffer. cbn [bind get].
  destruct (shadow_buffer s); [|done]. by destruct (_ && _).
Qed.

Lemma termbox_is_command_call fd c : is_termbox c = true -> is_command_call fd c = true.
Proof. by destruct c. Qed.

Lemma command_is_serving_call fd c :
  is_command_call fd c = true -> is_serving_call fd c = true.
Proof. by destruct c. Qed.


(** The serving loop for the client [cfd], in the form of [only]. *)
Lemma only_serve_client W cfd turns v :
  roomy v ->
  only (fun s => client_socket_fd s = cfd)
       (fun c => is_serving_call cfd c = true) (serve W turns v).
Proof.
  intros Hv. apply only_serve; try done.
  - intros x y c s0 Hs0. by rewrite mirror_cell_fd.
  - intros s0 Hs0. by rewrite clear_shadow_buffer_fd.
  - intros w h s0 Hs0. by rewrite update_shadow_buffer_size_fd.
  - intros c Hc. by apply command_is_serving_call, termbox_is_command_call.
  - intros s0 d ->. cbn. apply Z.eqb_refl.
  - intros s0 ->. cbn. apply Z.eqb_refl.
  - intros s0 n -> Hn. cbn. rewrite Z.eqb_refl. cbn.
    apply andb_true_iff. rewrite !Z.leb_le. unfold SOCKET_BUFFER_SIZE in *. lia.
Qed.

(** X7.  The serving loop talks to one descriptor.  Started with room in
    the receive buffer, however many turns it runs and whatever the world
    answers, the loop leaves [client_socket_fd] alone and keeps room in the
    buffer, and every call it makes is one of: [tb_peek_event] with a
    timeout of 10, a termbox call of a command, [free], [malloc] or the
    allocation log of a resize, [perror], a write to the client, [select] on
    the client, or [read] on the client for at least 1 and at most 4095
    bytes. *)
Theorem serving_loop_calls (W : World) (turns : nat) (v : loop_vars) (s : state) :
  roomy v ->
  let r := serve W turns v s in
  client_socket_fd (snd r) = client_socket_fd s
  /\ roomy (fst r)
  /\ exists t,
       trace (snd r) = trace s ++ t
       /\ Forall (fun c => is_serving_call (client_socket_fd s) c = true) t.
Proof.
  intros Hv r. subst r.
  destruct (only_serve_client W (client_socket_fd s) turns v Hv s eq_refl)
    as (Hfd & t & Ht & HP).
  split; [exact Hfd|]. split; [by apply roomy_serve|].
  exists t. by split.
Qed.

Lemma serving_loop_calls_witness :
  let W := Script.world [Script.resize_event 2 2]
             [ReadBytes ("get_cell 0 0" +:+ nl +:+ "pri"); ReadError true]
             Script.never true in
  let r := serve W 3 first_turn (Script.screen 1 1) in
  client_socket_fd (snd r) = 4
  /\ roomy (fst r)
  /\ exists t,
       trace (snd r) = trace (Script.screen 1 1) ++ t
       /\ Forall (fun c => is_serving_call 4 c = true) t.
Proof.
  intros W.
  apply (serving_loop_calls W 3 first_turn (Script.screen 1 1)).
  reflexivity.
Defined.


Lemma accept_client_fd W listen_fd s :
  let r := accept_client W listen_fd s in
  match fst r with
  | Some status => status = 1 /\ client_socket_fd (snd r) = -1
  | None =>
      client_socket_fd (snd r) <> -1
      /\ client_socket_fd (snd r) =
           accept_ret W (trace s ++
             [Stderr ("termbox_port C_LOG: Entering main loop. Waiting for client connection on fd "
                        +:+ fmt_d listen_fd +:+ " at path " +:+ actual_socket_path s
                        +:+ "..." +:+ nl);
              Accept listen_fd])
  end.
Proof.
  unfold accept_client. cbn [bind get emit modify trace set_trace].
  rewrite <- !app_assoc. cbn [app].
  set (fd := accept_ret W _).
  destruct (fd =? -1) eqn:E.
  - apply Z.eqb_eq in E. cbn. by rewrite E.
  - apply Z.eqb_neq in E. cbn [bind emit trace set_trace].
    destruct (_ =? -1); [by cbn|].
    cbn [bind emit trace set_trace].
    destruct (_ =? -1); by cbn.
Qed.


Lemma drain_closes v s :
  keep_running v = false ->
  fst (drain v s) = Some (loop_exit_status v)
  /\ client_socket_fd (snd (drain v s)) = -1
  /\ trace (snd (drain v s)) =
       trace s ++ TbShutdown ::
         (if client_socket_fd s =? -1 then [] else [Close (client_socket_fd s)]).
Proof.
  intros Hv. unfold drain, close_client. rewrite Hv.
  cbn [bind emit get client_socket_fd set_trace].
  destruct (client_socket_fd s =? -1) eqn:E; cbn.
  - apply Z.eqb_eq in E. done.
  - by rewrite <- app_assoc.
Qed.


(** X8.  [run_main_loop] never returns with the client socket open.
    Whenever it returns, [client_socket_fd] is [-1] again.  When the client
    was accepted and made non-blocking, the calls of the serving loop are
    followed by exactly two more: [tb_shutdown], then [close] on the client
    socket; termbox is shut down once, whatever ended the loop. *)
Theorem run_main_loop_cleans_up
        (W : World) (turns : nat) (listen_fd : Z) (s : state)
        (r : Z) (s' : state) :
  run_main_loop W turns listen_fd s = (Some r, s') ->
  client_socket_fd s' = -1
  /\ forall s1,
       accept_client W listen_fd s = (None, s1) ->
       exists t,
         trace s' = trace s1 ++ t ++ [TbShutdown; Close (client_socket_fd s1)]
         /\ Forall (fun c => is_serving_call (client_socket_fd s1) c = true) t.
Proof.
  unfold run_main_loop. cbn [bind].
  pose proof (accept_client_fd W listen_fd s) as Hacc. cbv zeta in Hacc.
  destruct (accept_client W listen_fd s) as [[status|] s1]; cbn [fst snd] in Hacc.
  - intros [= <- <-]. split; [tauto|]. by intros s2.
  - destruct Hacc as [Hfd _]. cbn [bind].
    destruct (only_serve_client W (client_socket_fd s1) turns first_turn
                roomy_first_turn s1 eq_refl) as (Hfd' & t & Ht & HP).
    destruct (serve W turns first_turn s1) as [v sv]. cbn [fst snd] in *.
    destruct (keep_running v) eqn:Hv.
    { unfold drain. rewrite Hv. by intros [=]. }
    destruct (drain_closes v sv Hv) as (Hr & Hc & Htr).
    destruct (drain v sv) as [res s2]. cbn [fst snd] in *.
    intros [= -> <-]. split; [done|].
    intros s1' [= <-]. exists t. split; [|done].
    rewrite Htr, Ht, Hfd'.
    replace (client_socket_fd s1 =? -1) with false
      by (symmetry; by apply Z.eqb_neq).
    by rewrite <- !app_assoc.
Qed.


Lemma run_main_loop_cleans_up_witness :
  let W := Script.world [] [ReadBytes ("present" +:+ nl)] Script.never true in
  let r := run_main_loop W 2 3 initial_state in
  client_socket_fd (snd r) = -1.
Proof.
  intros W r.
  assert (H : run_main_loop W 2 3 initial_state = (Some 0, snd r))
    by (vm_compute; reflexivity).
  exact (proj1 (run_main_loop_cleans_up W 2 3 initial_state 0 (snd r) H)).
Defined.

Lemma not_bootstrap_no_stdout t :
  Forall (fun c => is_bootstrap c = false) t ->
  filter (fun c => is_stdout c = true) t = [].
Proof.
  induction 1 as [|c t Hc _ IH]; [done|].
  rewrite filter_cons. destruct (decide (is_stdout c = true)) as [Hs|Hs]; [|done].
  by destruct c.
Qed.


(** X9.  Once the bootstrap is over, [main] never goes back to it.  When
    [socket], [bind] and [listen] have worked, every call after the line
    [OK <socket path>] on standard output is something else than [socket],
    [unlink], [bind], [listen] or a write to standard output: the socket
    file is not unlinked when [main] returns, and standard output carries
    this one line only. *)
Theorem main_after_bootstrap (W : World) (turns : nat) (s : state) :
  let path := socket_path W in
  let t1 := trace s ++ [startup_log; Socket] in
  let fd := socket_ret W t1 in
  let t2 := t1 ++ [Unlink path; Bind fd path] in
  let t3 := t2 ++ [Listen fd 5] in
  fd <> -1 -> bind_ret W t2 <> -1 -> listen_ret W t3 <> -1 ->
  exists rest,
    trace (snd (main W turns s)) = t3 ++ Stdout ("OK " +:+ path +:+ nl) :: rest
    /\ Forall (fun c => is_bootstrap c = false) rest.
Proof.
  intros path t1 fd t2 t3 Hfd Hbind Hlisten.
  unfold main. cbn [bind emit trace set_trace].
  fold startup_log. rewrite <- !app_assoc. cbn [app]. fold t1. fold fd.
  replace (fd =? -1) with false by (symmetry; by apply Z.eqb_neq).
  cbn [bind emit modify trace set_trace set_actual_socket_path].
  fold (socket_path W). fold path.
  rewrite <- !app_assoc. cbn [app].
  change (t1 ++ [Unlink path; Bind fd path]) with t2.
  replace (bind_ret W t2 =? -1) with false by (symmetry; by apply Z.eqb_neq).
  cbn [bind emit modify trace set_trace].
  change (t2 ++ [Listen fd 5]) with t3.
  replace (listen_ret W t3 =? -1) with false by (symmetry; by apply Z.eqb_neq).
  cbn [bind emit modify trace set_trace].
  set (s1 := set_trace (t3 ++ [Stdout _]) _).
  destruct (only_run_main_loop W (fun _ => True)
              (fun c => is_bootstrap c = false))
    with (turns := turns) (listen_fd := fd) (s := s1) as (_ & t & Ht & HP);
    try done.
  { intros c Hc. by destruct c. }
  destruct (run_main_loop W turns fd s1) as [[res|] s2]; cbn [snd] in Ht;
    cbn [bind emit ret snd trace set_trace]; rewrite Ht;
    subst s1; cbn [trace set_trace]; rewrite <- !app_assoc; cbn [app].
  - exists (t ++ [Stderr ("termbox_port C_LOG: Port process exiting." +:+ nl)]).
    split; [done|]. apply Forall_app. split; [done|]. by repeat constructor.
  - by exists t.
Qed.


Lemma main_after_bootstrap_witness :
  let W := Script.world [] [ReadBytes ("shutdown" +:+ nl)] Script.never true in
  exists rest,
    trace (snd (main W 2 initial_state)) =
      ([startup_log; Socket] ++ [Unlink (socket_path W); Bind 3 (socket_path W)]
         ++ [Listen 3 5]) ++ Stdout ("OK " +:+ socket_path W +:+ nl) :: rest
    /\ Forall (fun c => is_bootstrap c = false) rest.
Proof.
  intros W.
  apply (main_after_bootstrap W 2 initial_state); discriminate.
Defined.

Section Yields.

Context {A : Type} (Q : A -> Prop).

Lemma yields_ret a : Q a -> yields Q (ret a).
Proof. by intros Ha s. Qed.

Lemma yields_bind {B} (m : M B) (k : B -> M A) :
  (forall b, yields Q (k b)) -> yields Q (bind m k).
Proof. intros Hk s. cbn [bind]. destruct (m s) as [b s1]. apply Hk. Qed.

End Yields.

Section ZeroOrOne.

Variable W : World.

Lemma yields_respond fd line msg : yields zero_or_one (respond W fd line msg).
Proof.
  unfold respond. apply yields_bind. intros r.
  destruct (r <? 0); [apply yields_bind; intros _|];
    apply yields_ret; unfold zero_or_one; lia.
Qed.

Lemma yields_reject fd line : yields zero_or_one (reject W fd line).
Proof.
  unfold reject. apply yields_bind. intros _.
  apply yields_ret. by left.
Qed.

Lemma yields_read_shadow_cell fd x y :
  yields zero_or_one (read_shadow_cell W fd x y).
Proof.
  intros s. unfold read_shadow_cell. cbn [bind get].
  destruct (negb _); [apply yields_reject|].
  destruct (shadow_buffer s) as [buf|]; [|by left].
  destruct (buf !! _); [apply yields_respond|by left].
Qed.

Lemma yields_run_command fd args : yields zero_or_one (run_command W fd args).
Proof.
  unfold run_command.
  destruct args as [|cmd args']; [apply yields_ret; by left|].
  repeat match goal with
         | |- yields _ (if String.eqb cmd ?v then _ else _) =>
             destruct (String.eqb cmd v) eqn:?
         end;
    repeat lazymatch goal with
      | |- yields _ (bind _ _) => apply yields_bind; intros ?
      | |- yields _ (if ?c then _ else _) => destruct c
      | |- yields _ (match ?c with Some _ => _ | None => _ end) => destruct c
      | |- yields _ (ret 0) => apply yields_ret; by left
      | |- yields _ (ret 1) => apply yields_ret; by right
      | |- yields _ (respond _ _ _ _) => apply yields_respond
      | |- yields _ (reject _ _ _) => apply yields_reject
      | |- yields _ (read_shadow_cell _ _ _ _) => apply yields_read_shadow_cell
      end.
Qed.

(** The line loop stops the serving loop with status 0 or not at all. *)
Lemma line_loop_stops fuel fd line_start v s :
  let v' := snd (fst (line_loop W fuel fd line_start v s)) in
  v' = v \/ v' = stop 0 v.
Proof.
  revert line_start s. induction fuel as [|fuel IH]; intros line_start s;
    cbn [line_loop]; [by left|].
  destruct (strchr_lf line_start) as [[line rest]|]; [|by left].
  cbn [bind]. pose proof (yields_run_command fd (parse_command line) s) as Hr.
  fold (handle_client_command W fd line) in Hr.
  destruct (handle_client_command W fd line s) as [r s1]. cbn [fst] in Hr.
  destruct Hr as [-> | ->]; cbn.
  - apply IH.
  - by right.
Qed.

End ZeroOrOne.


(** X10.  [handle_client_command] returns 0 or 1, never a negative value.
    So the arm of the line loop for [cmd_result < 0] is never taken: when the
    line loop stops the serving loop, it is with [loop_exit_status] 0. *)
Theorem handler_returns_0_or_1 (W : World) (fd : Z) :
  (forall line s,
     fst (handle_client_command W fd line s) = 0
     \/ fst (handle_client_command W fd line s) = 1)
  /\ (forall fuel line_start v s,
        let v' := snd (fst (line_loop W fuel fd line_start v s)) in
        v' = v \/ v' = stop 0 v).
Proof.
  split.
  - intros line s. apply (yields_run_command W fd (parse_command line) s).
  - intros fuel line_start v s. apply (line_loop_stops W fuel fd line_start v s).
Qed.

(** X11.  Every command gets one reply.  On a well-formed state, a line
    with a token in it makes the handler write to the client exactly once: a
    non-empty text without NUL, and a line feed after it.  The text is one
    line, with no line feed inside, for every reply but [OK_CELL]: that one
    carries the text of the cell as it is, so a cell that holds a line feed
    makes it two lines on the wire.  Before the write come termbox calls
    only, after it at most the [perror] of the write itself: no command
    allocates, frees, reads, closes or shuts termbox down. *)
Theorem every_command_gets_one_reply
        (W : World) (fd : Z) (line : string) (s : state) :
  wf s -> parse_command line <> [] ->
  exists pre r tail,
    trace (snd (handle_client_command W fd line s)) =
      trace s ++ pre ++ WriteExact fd (r +:+ nl) :: tail
    /\ Forall (fun c => is_termbox c = true) pre
    /\ (r <> EmptyString /\ cstr r = r)
    /\ (tail = [] \/ exists msg, tail = [Perror msg])
    /\ (is_line r \/ exists junk x y c, r = cell_response W junk x y c).
Proof.
  intros Hwf Hne. unfold handle_client_command.
  destruct (parse_command line) as [|cmd args]; [done|].
  destruct (replies_run_command W fd cmd args s Hwf)
    as (pre & r & tail & Htr & Hpre & Hr & Htail & Hl & _).
  by exists pre, r, tail.
Qed.

Lemma every_command_gets_one_reply_witness :
  exists pre r tail,
    trace (snd (handle_client_command Script.calm 4 "print 0 0 1 2 hi"
                  (Script.screen 2 1))) =
      trace (Script.screen 2 1) ++ pre ++ WriteExact 4 (r +:+ nl) :: tail
    /\ Forall (fun c => is_termbox c = true) pre
    /\ (r <> EmptyString /\ cstr r = r)
    /\ (tail = [] \/ exists msg, tail = [Perror msg])
    /\ (is_line r
        \/ exists junk x y c, r = cell_response Script.calm junk x y c).
Proof.
  apply (every_command_gets_one_reply Script.calm 4 "print 0 0 1 2 hi"
           (Script.screen 2 1)).
  - unfold wf. simpl. lia.
  - discriminate.
Defined.

(** The [OK_CELL] reply for a cell that holds a line feed: the text of the
    reply has the line feed in it. *)
Example get_cell_of_a_line_feed :
  let s := snd (handle_client_command Script.calm 4 "change_cell 0 0 10 1 2"
                  (Script.screen 1 1)) in
  answers Script.calm 4 "get_cell 0 0" s ("OK_CELL 0 0 " +:+ nl +:+ " 1 2").
Proof. intros s. exists []. split; [reflexivity|by left]. Qed.

Section Cells.

Variable W : World.

Lemma run_clear fd s :
  run_command W fd ["clear"%string] s =
    (emit TbClear ;; clear_shadow_buffer W ;;
     respond W fd "OK" "Error writing OK response for clear") s.
Proof. reflexivity. Qed.

Lemma respond_frame fd line msg s :
  exists t, snd (respond W fd line msg s) = set_trace t s.
Proof.
  unfold respond, write_socket_line, write_exact. cbn [bind].
  destruct (strlen line =? 0); cbn.
  { exists (trace s). by destruct s. }
  destruct (_ =? _)%nat; cbn.
  { exists (trace s). by destruct s. }
  destruct (write_exact_fails W _); cbn; [by eexists|].
  destruct (_ <? 0); cbn; by eexists.
Qed.

Lemma respond_ok_trace fd msg s :
  exists tail,
    trace (snd (respond W fd "OK" msg s)) =
      trace s ++ WriteExact fd ("OK" +:+ nl) :: tail
    /\ (tail = [] \/ exists msg, tail = [Perror msg]).
Proof.
  rewrite respond_eq by done.
  destruct (write_exact_fails W _); cbn.
  - eexists. rewrite <- app_assoc. split; [done|]. right. by eexists.
  - eexists. split; [done|]. by left.
Qed.

(** The frame of the shadow buffer, which no command touches. *)
Lemma same_frame_set_cells s0 s b :
  same_frame s0 s -> shadow_buffer s <> None ->
  same_frame s0 (set_shadow_buffer (Some b) s).
Proof.
  intros (Hw & Hh & Hfd & Hp & Hb) Hsome. repeat split; try done.
  intros H. apply Hb in H. done.
Qed.

Lemma same_frame_run_command s0 fd args :
  keeps (same_frame s0) (run_command W fd args).
Proof.
  apply keeps_run_command.
  - by intros s c Hs.
  - intros s Hs. unfold clear_shadow_buffer. cbn [bind get].
    destruct (shadow_buffer s) as [buf|] eqn:E; [|exact Hs].
    destruct (_ && _); cbn; [|exact Hs].
    apply same_frame_set_cells; [done|]. by rewrite E.
  - intros x y c _ s Hs. rewrite mirror_cell_eq. cbn [snd].
    destruct (cell_in_bounds s x y); [|done].
    destruct (shadow_buffer s) as [buf|] eqn:E; [|exact Hs].
    apply same_frame_set_cells; [done|]. by rewrite E.
Qed.

(** A verb that is no writer leaves everything but the trace alone. *)
Lemma quiet_run_command fd verb rest s :
  verb ∉ writers ->
  exists t, snd (run_command W fd (verb :: rest) s) = set_trace t s.
Proof.
  intros Hv.
  assert (Hk : keeps (fun s' => exists t, s' = set_trace t s)
                 (run_command W fd (verb :: rest))).
  { unfold run_command.
    assert (Hpush : forall s' c, (exists t, s' = set_trace t s) ->
              exists t, set_trace (trace s' ++ [c]) s' = set_trace t s).
    { intros s' c [t ->]. by eexists. }
    repeat match goal with
           | |- keeps _ (if String.eqb verb ?v then _ else _) =>
               let E := fresh "E" in
               destruct (String.eqb verb v) eqn:E;
               [first [ exfalso; apply String.eqb_eq in E; subst verb; apply Hv;
                        unfold writers;
                        by repeat first [apply list_elem_of_here
                                        | apply list_elem_of_further]
                      | idtac ]|]
           end;
      repeat lazymatch goal with
        | |- keeps _ (bind _ _) => apply keeps_bind; [|intros ?]
        | |- keeps _ (if ?c then _ else _) => destruct c
        | |- keeps _ (match ?c with Some _ => _ | None => _ end) => destruct c
        | |- keeps _ (ret _) => apply keeps_ret
        | |- keeps _ (emit _) => apply keeps_emit; exact Hpush
        | |- keeps _ (respond _ _ _ _) => apply keeps_respond; exact Hpush
        | |- keeps _ (reject _ _ _) => apply keeps_reject; exact Hpush
        | |- keeps _ (send_event_to_client _ _ _) =>
            apply keeps_send_event; exact Hpush
        | |- keeps _ (read_shadow_cell _ _ _ _) =>
            apply keeps_read_shadow_cell; exact Hpush
        | |- keeps _ (write_socket_line _ _ _) =>
            apply keeps_write_socket_line; exact Hpush
        end. }
  apply Hk. exists (trace s). by destruct s.
Qed.

(** While there is no shadow buffer, no command makes one. *)
Lemma no_buffer_run_command fd args :
  keeps (fun s => shadow_buffer s = None) (run_command W fd args).
Proof.
  apply keeps_run_command.
  - by intros s c Hs.
  - intros s Hs. unfold clear_shadow_buffer. cbn [bind get]. by rewrite Hs.
  - intros x y c _ s Hs. rewrite mirror_cell_eq. cbn [snd].
    destruct (cell_in_bounds s x y); [|done]. by rewrite Hs.
Qed.

Lemma no_buffer_dispatch_all fd lines s :
  shadow_buffer s = None -> shadow_buffer (dispatch_all W fd lines s) = None.
Proof.
  revert s. induction lines as [|l lines IH]; intros s Hs; [done|].
  cbn [dispatch_all foldl]. apply IH. by apply no_buffer_run_command.
Qed.

End Cells.

(** X12.  [clear] resets the whole shadow buffer.  On a well-formed state
    the command calls [tb_clear], stores the default cell (a space with the
    default attributes) at every position and answers [OK]; the width and
    the height stay.  Right after it, [get_cell] at any position in bounds
    is answered with the [OK_CELL] line of the default cell. *)
Theorem clear_resets_every_cell
        (W : World) (fd : Z) (line : string) (s : state) :
  wf s -> parse_command line = ["clear"%string] ->
  let s' := snd (handle_client_command W fd line s) in
  (exists tail,
     trace s' = trace s ++ TbClear :: WriteExact fd ("OK" +:+ nl) :: tail
     /\ (tail = [] \/ exists msg, tail = [Perror msg]))
  /\ shadow_buffer_width s' = shadow_buffer_width s
  /\ shadow_buffer_height s' = shadow_buffer_height s
  /\ (forall x y,
        0 <= x < shadow_buffer_width s -> 0 <= y < shadow_buffer_height s ->
        cell_at s' x y = Some (default_cell W))
  /\ (forall query tx ty,
        parse_command query = ["get_cell"; tx; ty]%string ->
        0 <= atoi tx < shadow_buffer_width s ->
        0 <= atoi ty < shadow_buffer_height s ->
        answers W fd query s'
          (cell_response W (utf8_buffer_junk W (trace s'))
             (atoi tx) (atoi ty) (default_cell W))).
Proof.
  intros Hwf Hp s'. subst s'. unfold handle_client_command.
  rewrite Hp, run_clear. cbn [bind emit].
  rewrite clear_shadow_buffer_eq by done. cbn [fst snd].
  set (s2 := match shadow_buffer (set_trace _ s) with Some _ => _ | None => _ end).
  assert (Ht2 : trace s2 = trace s ++ [TbClear])
    by (subst s2; cbn; by destruct (shadow_buffer s)).
  assert (Hw2 : shadow_buffer_width s2 = shadow_buffer_width s)
    by (subst s2; cbn; by destruct (shadow_buffer s)).
  assert (Hh2 : shadow_buffer_height s2 = shadow_buffer_height s)
    by (subst s2; cbn; by destruct (shadow_buffer s)).
  assert (Hc2 : forall x y,
            0 <= x < shadow_buffer_width s -> 0 <= y < shadow_buffer_height s ->
            cell_at s2 x y = Some (default_cell W)).
  { intros x y Hx Hy. subst s2. unfold wf in Hwf. unfold cell_at. cbn.
    destruct (shadow_buffer s) as [buf|] eqn:E; [|lia]. cbn.
    replace ((0 <=? x) && _ && _ && _) with true
      by (symmetry; rewrite !andb_true_iff, !Z.leb_le, !Z.ltb_lt; lia).
    apply lookup_replicate_2. by apply cell_index_lt. }
  destruct (respond_ok_trace W fd "Error writing OK response for clear" s2)
    as (tail & Htr & Htail).
  destruct (respond_frame W fd "OK" "Error writing OK response for clear" s2)
    as [t Hfr].
  assert (Hcells : forall x y,
            0 <= x < shadow_buffer_width s -> 0 <= y < shadow_buffer_height s ->
            cell_at (snd (respond W fd "OK"
                            "Error writing OK response for clear" s2)) x y
            = Some (default_cell W)).
  { intros x y Hx Hy. rewrite Hfr, cell_at_set_trace. by apply Hc2. }
  split; [|split; [|split; [|split]]].
  - exists tail. split; [|done]. rewrite Htr, Ht2. by rewrite <- app_assoc.
  - by rewrite Hfr.
  - by rewrite Hfr.
  - exact Hcells.
  - intros query tx ty Hq Hx Hy.
    apply (get_cell_answers W fd query tx ty); [done|]. by apply Hcells.
Qed.

Lemma clear_resets_every_cell_witness :
  let s := snd (handle_client_command Script.calm 4 "change_cell 1 0 97 3 4"
                  (Script.screen 2 1)) in
  cell_at s 1 0 = Some {| ch := 97; fg := 3; bg := 4 |}
  /\ cell_at (snd (handle_client_command Script.calm 4 "clear" s)) 1 0 =
       Some (default_cell Script.calm)
  /\ answers Script.calm 4 "get_cell 1 0"
       (snd (handle_client_command Script.calm 4 "clear" s)) "OK_CELL 1 0   0 0".
Proof.
  intros s. split; [reflexivity|].
  destruct (clear_resets_every_cell Script.calm 4 "clear" s)
    as (_ & _ & _ & H & Hans).
  - unfold wf. simpl. lia.
  - reflexivity.
  - split; [apply H; simpl; lia|].
    apply (Hans "get_cell 1 0"%string "1"%string "0"%string eq_refl);
      by vm_compute.
Defined.

(** X13.  [change_cell] stores into one cell at most.  Whatever the
    coordinates, termbox is asked to change the cell and the command is
    answered [OK]; in the shadow buffer every cell other than the one named
    keeps its value, and when the coordinates fail the bounds test (or there
    is no buffer) the cells are not touched at all.  Width, height and the
    other globals stay. *)
Theorem change_cell_stores_one_cell
        (W : World) (fd : Z) (line tx ty tc tf tb : string) (s : state) :
  parse_command line = ["change_cell"; tx; ty; tc; tf; tb]%string ->
  let x := atoi tx in
  let y := atoi ty in
  let s' := snd (handle_client_command W fd line s) in
  (exists tail,
     trace s' =
       trace s ++ TbChangeCell x y (to_uint32 (strtoul tc))
                    (to_uint16 (atoi tf)) (to_uint16 (atoi tb))
         :: WriteExact fd ("OK" +:+ nl) :: tail
     /\ (tail = [] \/ exists msg, tail = [Perror msg]))
  /\ (forall x' y', (x', y') <> (x, y) -> cell_at s' x' y' = cell_at s x' y')
  /\ (cell_in_bounds s x y = false -> shadow_buffer s' = shadow_buffer s)
  /\ same_frame s s'.
Proof.
  intros Hp x y s'. subst s'. unfold handle_client_command. rewrite Hp.
  split; [|split; [|split]].
  - rewrite run_change_cell. cbn [bind emit].
    pose proof (mirror_cell_trace (atoi tx) (atoi ty)
                  {| ch := to_uint32 (strtoul tc); fg := to_uint16 (atoi tf);
                     bg := to_uint16 (atoi tb) |}
                  (set_trace (trace s ++ [TbChangeCell (atoi tx) (atoi ty)
                     (to_uint32 (strtoul tc)) (to_uint16 (atoi tf))
                     (to_uint16 (atoi tb))]) s)) as Ht.
    destruct (mirror_cell _ _ _ _) as [[] s1]. cbn [snd] in *.
    destruct (respond_ok_trace W fd "Error writing OK response for change_cell" s1)
      as (tail & Htr & Htail).
    exists tail. split; [|done]. rewrite Htr, Ht. cbn. by rewrite <- app_assoc.
  - intros x' y' Hne. rewrite run_change_cell. cbn [bind emit].
    match goal with
    | |- context [mirror_cell ?a ?b ?c ?s0] =>
        pose proof (mirror_cell_miss a b c s0 x' y') as Hmiss;
        destruct (mirror_cell a b c s0) as [[] s1]
    end.
    rewrite respond_cell_at. cbn [snd] in Hmiss. rewrite Hmiss; [done|].
    intros [= <- <-]. by apply Hne.
  - intros Hout. rewrite run_change_cell. cbn [bind emit].
    rewrite mirror_cell_eq.
    change (cell_in_bounds (set_trace _ s) (atoi tx) (atoi ty))
      with (cell_in_bounds s (atoi tx) (atoi ty)).
    fold x y. rewrite Hout.
    destruct (respond_frame W fd "OK" "Error writing OK response for change_cell"
                (set_trace (trace s ++ [TbChangeCell x y (to_uint32 (strtoul tc))
                   (to_uint16 (atoi tf)) (to_uint16 (atoi tb))]) s)) as [t ->].
    done.
  - apply (same_frame_run_command W s fd). by repeat split.
Qed.

Lemma change_cell_stores_one_cell_witness :
  let s' := snd (handle_client_command Script.calm 4 "change_cell 5 0 97 3 4"
                   (Script.screen 2 1)) in
  shadow_buffer s' = shadow_buffer (Script.screen 2 1)
  /\ In (TbChangeCell 5 0 97 3 4) (trace s').
Proof.
  intros s'.
  destruct (change_cell_stores_one_cell Script.calm 4 "change_cell 5 0 97 3 4"
              "5" "0" "97" "3" "4" (Script.screen 2 1) eq_refl)
    as ((tail & Ht & _) & _ & Hout & _).
  split.
  - apply Hout. reflexivity.
  - fold s' in Ht. rewrite Ht. left. reflexivity.
Defined.

(** X14.  No command makes a shadow buffer.  While there is none (from the
    start of the process until the first resize event, and again after a
    resize to nothing or a failed allocation), it stays absent whatever
    lines are handled, and every [get_cell] is answered with
    [ERROR invalid_coords_get_cell], whatever its coordinates. *)
Theorem no_shadow_buffer_without_a_resize
        (W : World) (fd : Z) (lines : list string) (s : state) :
  shadow_buffer s = None ->
  let s' := dispatch_all W fd lines s in
  shadow_buffer s' = None
  /\ forall query tx ty,
       parse_command query = ["get_cell"; tx; ty]%string ->
       answers W fd query s' "ERROR invalid_coords_get_cell".
Proof.
  intros Hs s'.
  assert (Hs' : shadow_buffer s' = None) by (by apply no_buffer_dispatch_all).
  split; [done|].
  intros query tx ty Hq. apply reject_answers; [done..|].
  unfold handle_client_command. rewrite Hq, run_get_cell.
  unfold read_shadow_cell, cell_in_bounds. cbn [bind get].
  rewrite Hs'. by rewrite bool_decide_eq_false_2 by (by intros H).
Qed.

Lemma no_shadow_buffer_without_a_resize_witness :
  answers Script.calm 4 "get_cell 0 0"
    (dispatch_all Script.calm 4
       ["clear"; "change_cell 0 0 97 1 2"; "print 0 0 1 2 hi"]%string initial_state)
    "ERROR invalid_coords_get_cell".
Proof.
  destruct (no_shadow_buffer_without_a_resize Script.calm 4
              ["clear"; "change_cell 0 0 97 1 2"; "print 0 0 1 2 hi"]%string
              initial_state eq_refl) as [_ H].
  apply (H "get_cell 0 0"%string "0"%string "0"%string). reflexivity.
Defined.

(** X15.  What a command can change.  No line changes the width or the
    height of the shadow buffer, the client descriptor or the socket path,
    nor whether there is a buffer.  And a line whose verb is none of
    [clear], [print] and [change_cell] changes nothing at all but the trace:
    the cells are what they were. *)
Theorem commands_keep_the_frame (W : World) (fd : Z) (line : string) (s : state) :
  let s' := snd (handle_client_command W fd line s) in
  same_frame s s'
  /\ (forall verb rest,
        parse_command line = verb :: rest -> verb ∉ writers ->
        s' = set_trace (trace s') s).
Proof.
  intros s'. split.
  - apply (same_frame_run_command W s fd). by repeat split.
  - intros verb rest Hp Hv. subst s'. unfold handle_client_command. rewrite Hp.
    destruct (quiet_run_command W fd verb rest s Hv) as [t ->]. done.
Qed.

Lemma commands_keep_the_frame_witness :
  let s := Script.screen 2 2 in
  let s' := snd (handle_client_command Script.calm 4 "get_cell 0 0" s) in
  s' = set_trace (trace s') s.
Proof.
  intros s s'.
  apply (proj2 (commands_keep_the_frame Script.calm 4 "get_cell 0 0" s)
           "get_cell"%string ["0"; "0"]%string eq_refl).
  unfold writers. intros H.
  repeat (apply elem_of_cons in H as [H|H]; [discriminate|]).
  by apply elem_of_nil in H.
Defined.

(** X16.  Stored values are cast, not checked.  [change_cell] reads the
    codepoint with [strtoul] and the attributes with [atoi] and passes them
    on as [uint32_t] and [uint16_t]: for an in-bounds position, any
    codepoint up to [ULONG_MAX] and any attributes in the range of [int],
    negative ones too, termbox is handed the codepoint modulo [2^32] and the
    attributes modulo [2^16], the shadow buffer holds that cell afterwards,
    and [get_cell] answers with the [OK_CELL] line of that cell, whose two
    numbers are the attributes modulo [2^16].  Its text is the one
    [get_cell] builds for the codepoint modulo [2^32]: with an encoder that
    stores the UTF-8 bytes of that codepoint, these bytes and then what
    [utf8_buffer] held after them. *)
Theorem change_cell_casts_its_values
        (W : World) (fd : Z) (s : state) (x y c f b : Z) :
  wf s ->
  0 <= x < shadow_buffer_width s -> 0 <= y < shadow_buffer_height s ->
  x < 2 ^ 31 -> y < 2 ^ 31 ->
  0 <= c <= ULONG_MAX -> - 2 ^ 31 <= f < 2 ^ 31 -> - 2 ^ 31 <= b < 2 ^ 31 ->
  let change :=
    rejoined ["change_cell"%string; fmt_d x; fmt_d y; fmt_u c; fmt_d f; fmt_d b] in
  let query := rejoined ["get_cell"%string; fmt_d x; fmt_d y] in
  let s1 := snd (handle_client_command W fd change s) in
  let text := utf8_text W (utf8_buffer_junk W (trace s1)) (c mod 2 ^ 32) in
  (exists tail,
     trace s1 =
       trace s ++ TbChangeCell x y (c mod 2 ^ 32) (f mod 2 ^ 16) (b mod 2 ^ 16)
         :: tail)
  /\ cell_at s1 x y =
       Some {| ch := c mod 2 ^ 32; fg := f mod 2 ^ 16; bg := b mod 2 ^ 16 |}
  /\ answers W fd query s1
       ("OK_CELL " +:+ fmt_d x +:+ " " +:+ fmt_d y +:+ " " +:+ text
          +:+ " " +:+ fmt_u (f mod 2 ^ 16) +:+ " " +:+ fmt_u (b mod 2 ^ 16))
  /\ (0 < c mod 2 ^ 32 < 1114112 ->
      tb_utf8_unicode_to_char W (c mod 2 ^ 32) = Script.utf8_encode (c mod 2 ^ 32) ->
      let utf8 := fst (Script.utf8_encode (c mod 2 ^ 32)) in
      text = utf8 +:+ cstr (substring (String.length utf8)
                                      (7 - String.length utf8)
                                      (utf8_buffer_junk W (trace s1)))).
Proof.
  intros Hwf Bx By Ix Iy Bc Bf Bb change query s1 text.
  assert (Hchange : parse_command change =
            ["change_cell"%string; fmt_d x; fmt_d y; fmt_u c; fmt_d f; fmt_d b]).
  { subst change. rewrite parse_command_rejoined; [done|].
    repeat first [apply Forall_nil_2 | apply Forall_cons_2];
      first [apply token_fmt_d | apply token_fmt_u | by split]. }
  assert (Hquery : parse_command query = ["get_cell"%string; fmt_d x; fmt_d y]).
  { subst query. rewrite parse_command_rejoined; [done|].
    repeat first [apply Forall_nil_2 | apply Forall_cons_2];
      first [apply token_fmt_d | by split]. }
  pose proof (change_cell_stores W fd (fmt_d x) (fmt_d y) (fmt_u c) (fmt_d f)
                (fmt_d b) s Hwf) as Hst.
  rewrite !atoi_fmt_d in Hst by lia. rewrite strtoul_fmt_u in Hst by done.
  specialize (Hst Bx By).
  assert (Hcell : cell_at s1 x y =
            Some {| ch := c mod 2 ^ 32; fg := f mod 2 ^ 16; bg := b mod 2 ^ 16 |}).
  { subst s1. unfold handle_client_command. rewrite Hchange. exact Hst. }
  split; [|split; [exact Hcell|split]].
  - subst s1. unfold handle_client_command. rewrite Hchange, run_change_cell.
    rewrite !atoi_fmt_d by lia. rewrite strtoul_fmt_u by done.
    cbn [bind emit].
    match goal with
    | |- context [mirror_cell ?a ?b ?c ?s0] =>
        pose proof (mirror_cell_trace a b c s0) as Ht;
        destruct (mirror_cell a b c s0) as [[] s2]
    end.
    cbn [snd trace set_trace] in Ht.
    destruct (respond_ok_trace W fd "Error writing OK response for change_cell" s2)
      as (tail & Htr & _).
    rewrite Htr, Ht, <- app_assoc. by eexists.
  - pose proof (get_cell_answers W fd query (fmt_d x) (fmt_d y) s1
                  {| ch := c mod 2 ^ 32; fg := f mod 2 ^ 16; bg := b mod 2 ^ 16 |}
                  Hquery) as Ha.
    rewrite !atoi_fmt_d in Ha by lia. by apply Ha.
  - intros Bc' Henc utf8.
    destruct (utf8_encode_plain (c mod 2 ^ 32) Bc') as (Hplain & Hn & Hn4).
    apply (utf8_text_stored W _ (c mod 2 ^ 32) utf8
             (snd (Script.utf8_encode (c mod 2 ^ 32)))).
    + rewrite Henc. by destruct (Script.utf8_encode (c mod 2 ^ 32)).
    + lia.
    + exact Hplain.
    + fold utf8 in Hn. lia.
Qed.

Lemma change_cell_casts_its_values_witness :
  let W := Script.littered "xyz" Script.calm in
  let s1 := snd (handle_client_command W 4
                   "change_cell 0 0 4294967393 -1 65538" (Script.screen 1 1)) in
  (exists tail, trace s1 = TbChangeCell 0 0 97 65535 2 :: tail)
  /\ cell_at s1 0 0 = Some {| ch := 97; fg := 65535; bg := 2 |}
  /\ answers W 4 "get_cell 0 0" s1 "OK_CELL 0 0 ayz 65535 2".
Proof.
  intros W s1.
  destruct (change_cell_casts_its_values W 4 (Script.screen 1 1)
              0 0 4294967393 (-1) 65538)
    as (Htr & Hcell & Hans & _); try (simpl; lia).
  - unfold wf. simpl. lia.
  - unfold ULONG_MAX. lia.
  - split; [exact Htr|]. split; [exact Hcell|exact Hans].
Defined.

Lemma atoi_no_number t : no_number t = true -> atoi t = 0.
Proof.
  destruct t as [|c t]; [done|]. cbn [no_number].
  rewrite !andb_true_iff, !negb_true_iff. intros [[[Hsp Hm] Hp] Hd].
  unfold atoi, strtol. cbn [skip_spaces]. rewrite Hsp.
  assert (Hsign : sign (String c t) = (false, String c t)).
  { unfold sign. destruct c as [[] [] [] [] [] [] [] []]; try done. }
  rewrite Hsign. cbn [digits].
  destruct (digit_of c); [done|]. reflexivity.
Qed.

Lemma substring_empty n : substring 0 n EmptyString = EmptyString.
Proof. by destruct n. Qed.

Lemma strchr_lf_shorter s l r :
  strchr_lf s = Some (l, r) -> (String.length r < String.length s)%nat.
Proof.
  revert l. induction s as [|c s IH]; intros l; [done|]. cbn [strchr_lf].
  destruct (Ascii.eqb c LF); [intros [= <- <-]; simpl; lia|].
  destruct (Ascii.eqb c NUL); [done|].
  destruct (strchr_lf s) as [[l' r']|]; [|done].
  intros [= <- <-]. specialize (IH l' eq_refl). simpl. lia.
Qed.

Lemma line_loop_enough W fuel fuel' fd buf v s :
  (String.length buf <= fuel)%nat -> (String.length buf <= fuel')%nat ->
  line_loop W fuel fd buf v s = line_loop W fuel' fd buf v s.
Proof.
  revert fuel' buf s.
  induction fuel as [|fuel IH]; intros fuel' buf s Hlen Hlen'.
  - destruct buf; [|simpl in Hlen; lia]. by destruct fuel'.
  - destruct fuel' as [|fuel'].
    { destruct buf; [done|simpl in Hlen'; lia]. }
    cbn [line_loop].
    destruct (strchr_lf buf) as [[line rest]|] eqn:E; [|done].
    apply strchr_lf_shorter in E. cbn [bind].
    destruct (handle_client_command W fd line s) as [r s1].
    destruct (r =? 1); [done|]. destruct (r <? 0); [done|].
    apply IH; lia.
Qed.

Lemma print_loop_enough W fuel fuel' text x y f b s :
  (String.length text <= fuel)%nat -> (String.length text <= fuel')%nat ->
  print_loop W fuel text x y f b s = print_loop W fuel' text x y f b s.
Proof.
  intros Hlen Hlen'. rewrite !print_loop_paint.
  by rewrite (codepoints_enough W fuel fuel').
Qed.


Section Wf.

Variable W : World.

Lemma wf_push s c : wf s -> wf (set_trace (trace s ++ [c]) s).
Proof. done. Qed.

Lemma wf_run_command fd args : keeps wf (run_command W fd args).
Proof.
  intros s Hwf.
  apply (shaped_run_command W (shadow_buffer_width s) (shadow_buffer_height s)
           (client_socket_fd s) fd args s).
  by repeat split.
Qed.

Hypothesis W_modest : modest W.

Lemma wf_run_main_loop turns listen_fd : keeps wf (run_main_loop W turns listen_fd).
Proof.
  apply keeps_run_main_loop.
  - apply wf_push.
  - by intros s fd Hs.
  - intros h s _. apply update_shadow_buffer_size_wf. apply W_modest.
  - apply wf_run_command.
Qed.

Lemma wf_main turns : keeps wf (main W turns).
Proof.
  unfold main.
  repeat lazymatch goal with
    | |- keeps _ (bind (run_main_loop _ _ _) _) =>
        apply keeps_bind; [apply wf_run_main_loop|intros ?]
    | |- keeps _ (bind (modify _) _) =>
        apply keeps_bind; [by intros s Hs|intros ?]
    | |- keeps _ (bind _ _) => apply keeps_bind; [|intros ?]
    | |- keeps _ (if ?c then _ else _) => destruct c
    | |- keeps _ (match ?c with Some _ => _ | None => _ end) => destruct c
    | |- keeps _ (ret _) => apply keeps_ret
    | |- keeps _ (emit _) => apply keeps_emit, wf_push
    end.
Qed.

End Wf.

(** X17.  The shadow buffer stays well formed.  Through every command, and
    through a whole run of [main] as long as the terminal reports no resize
    whose byte count leaves [size_t] (a grid of [2^61] cells or more), the
    three globals agree: either there is no buffer and width and height are
    0, or width and height are positive and the buffer holds width times
    height cells.  With that, a position that passes the bounds test of
    [print], [change_cell] and [get_cell] indexes a cell of the buffer. *)
Theorem shadow_buffer_stays_well_formed (W : World) :
  wf initial_state
  /\ (modest W -> forall turns s, wf s -> wf (snd (main W turns s)))
  /\ (forall fd line s, wf s -> wf (snd (handle_client_command W fd line s)))
  /\ (forall s x y,
        wf s -> cell_in_bounds s x y = true ->
        exists buf c,
          shadow_buffer s = Some buf
          /\ buf !! cell_index (shadow_buffer_width s) x y = Some c).
Proof.
  split; [done|]. split; [|split].
  - intros Hmodest turns s. by apply wf_main.
  - intros fd line s. apply wf_run_command.
  - intros s x y Hwf Hb. apply cell_in_bounds_true in Hb as (Hbuf & Hx & Hy).
    destruct (proj2 (cell_at_is_Some s x y Hwf) (conj Hx Hy)) as [c Hc].
    unfold cell_at in Hc. destruct (shadow_buffer s) as [buf|]; [|done].
    destruct (_ && _); [|done]. by exists buf, c.
Qed.

Lemma shadow_buffer_stays_well_formed_witness :
  let W := Script.world [Script.resize_event 3 2; Script.resize_event 0 0]
             [ReadBytes ("change_cell 2 1 97 1 2" +:+ nl)] Script.never true in
  wf (snd (main W 2 initial_state)).
Proof.
  intros W.
  apply (proj1 (proj2 (shadow_buffer_stays_well_formed W))).
  - intros h. subst W. cbn [Script.world tb_peek_event_ret].
    destruct (_ - 1)%nat as [|[|[|n]]]; cbn; unfold fits, sizeof_tb_cell; lia.
  - split; reflexivity.
Defined.

(** X18.  Bytes without a line feed.  When the bytes read, put after what
    the receive buffer held, have no line feed before their first NUL (or
    none at all), no command is handled and nothing is written in this
    turn.  The bytes are kept for the next read if they are fewer than
    4095; if they fill the buffer they are thrown away, without a word to
    the client. *)
Theorem unfinished_line_waits_or_is_dropped
        (W : World) (v : loop_vars) (s : state) (a : Z) (e : bool) (data : string) :
  let fd := client_socket_fd s in
  let count :=
    SOCKET_BUFFER_SIZE - 1 - Z.of_nat (String.length (socket_buffer v)) in
  keep_running v = true ->
  select_ret W (trace s ++ [Select fd]) = (a, e) -> 0 < a ->
  read_ret W (trace s ++ [Select fd; Read fd count]) = ReadBytes data ->
  data <> EmptyString -> Z.of_nat (String.length data) <= count ->
  strchr_lf (socket_buffer v +:+ data) = None ->
  poll_socket W v s =
    (set_socket_buffer
       (if SOCKET_BUFFER_SIZE - 1
           <=? Z.of_nat (String.length (socket_buffer v +:+ data))
        then EmptyString else socket_buffer v +:+ data) v,
     push (Read fd count) (push (Select fd) s)).
Proof.
  intros fd count Hv Hsel Ha Hread Hne Hlen Hnolf.
  rewrite (poll_socket_framed W v s a e data [] (socket_buffer v +:+ data));
    try done.
  cbn [dispatch_seq ret fst snd]. by rewrite Hv.
Qed.

Lemma unfinished_line_waits_or_is_dropped_witness :
  let W := Script.world []
             [ReadBytes ("pre" +:+ String NUL ("sent" +:+ nl))] Script.never true in
  poll_socket W first_turn (Script.screen 1 1) =
    (set_socket_buffer ("pre" +:+ String NUL ("sent" +:+ nl)) first_turn,
     push (Read 4 4095) (push (Select 4) (Script.screen 1 1))).
Proof.
  intros W.
  apply (unfinished_line_waits_or_is_dropped W first_turn (Script.screen 1 1)
           1 false ("pre" +:+ String NUL ("sent" +:+ nl)));
    try reflexivity; try discriminate.
Defined.

(** X19.  What [read] can end a turn with.  With the socket readable:
    - no byte (the client closed the stream): the loop stops with status 0,
      no further turn runs, termbox is shut down and [run_main_loop]
      returns 0;
    - an error other than [EINTR]: [perror], and the loop stops with
      status 1;
    - [EINTR]: the turn is over, the loop variables and the receive buffer
      are what they were. *)
Theorem read_outcomes (W : World) (v : loop_vars) (s : state) (a : Z) (e : bool) :
  let fd := client_socket_fd s in
  let count :=
    SOCKET_BUFFER_SIZE - 1 - Z.of_nat (String.length (socket_buffer v)) in
  let s' := push (Read fd count) (push (Select fd) s) in
  keep_running v = true ->
  select_ret W (trace s ++ [Select fd]) = (a, e) -> 0 < a ->
  (read_ret W (trace s ++ [Select fd; Read fd count]) = ReadBytes EmptyString ->
   poll_socket W v s = (stop 0 v, s')
   /\ (forall more, serve W more (stop 0 v) s' = (stop 0 v, s'))
   /\ fst (drain (stop 0 v) s') = Some 0)
  /\ (read_ret W (trace s ++ [Select fd; Read fd count]) = ReadError false ->
      let s'' := push (Perror "read() error from client socket") s' in
      poll_socket W v s = (stop 1 v, s'')
      /\ (forall more, serve W more (stop 1 v) s'' = (stop 1 v, s''))
      /\ fst (drain (stop 1 v) s'') = Some 1)
  /\ (read_ret W (trace s ++ [Select fd; Read fd count]) = ReadError true ->
      poll_socket W v s = (v, s')).
Proof.
  intros fd count s' Hv Hsel Ha.
  assert (Hps : poll_socket W v s =
            match read_ret W (trace s ++ [Select fd; Read fd count]) with
            | ReadError eintr =>
                if eintr then (v, s')
                else (stop 1 v, push (Perror "read() error from client socket") s')
            | ReadBytes data =>
                let data := substring 0 (Z.to_nat count) data in
                if (String.length data =? 0)%nat then (stop 0 v, s')
                else process_received W data v s'
            end).
  { unfold poll_socket. cbn [bind get emit]. fold fd. rewrite Hsel.
    replace (a <? 0) with false by (symmetry; apply Z.ltb_ge; lia).
    replace (a =? 0) with false by (symmetry; apply Z.eqb_neq; lia).
    cbn [andb bind ret emit trace set_trace]. fold count.
    replace (read_ret W ((trace s ++ [Select fd]) ++ [Read fd count]))
      with (read_ret W (trace s ++ [Select fd; Read fd count]))
      by (by rewrite <- app_assoc).
    destruct (read_ret W _) as [[]|data]; try reflexivity.
    cbv zeta. by destruct (String.length _ =? 0)%nat. }
  split; [|split].
  - intros Hr. rewrite Hps, Hr. cbv zeta.
    rewrite substring_empty.
    cbn [String.length Nat.eqb]. split; [done|]. split.
    + intros more. by apply serve_stopped.
    + unfold drain, close_client. cbn [stop keep_running bind emit get].
      by destruct (negb _).
  - intros Hr. rewrite Hps, Hr. split; [done|]. split.
    + intros more. by apply serve_stopped.
    + unfold drain, close_client. cbn [stop keep_running bind emit get].
      by destruct (negb _).
  - intros Hr. by rewrite Hps, Hr.
Qed.

Lemma read_outcomes_witness :
  let W := Script.world [] [ReadBytes EmptyString] Script.never true in
  poll_socket W first_turn (Script.screen 1 1) =
    (stop 0 first_turn, push (Read 4 4095) (push (Select 4) (Script.screen 1 1)))
  /\ fst (main W 5 initial_state) = Some 0.
Proof.
  intros W. split; [|reflexivity].
  apply (proj1 (read_outcomes W first_turn (Script.screen 1 1) 1 false
                  eq_refl eq_refl eq_refl)).
  reflexivity.
Defined.

(** X20.  A failed [select] ends the loop, after one more [read].  When
    [select] fails with an error other than [EINTR], the loop calls
    [perror], marks itself stopped with status 1, and still goes on to
    [read] the client socket in the same turn (the descriptor set is then
    as the program filled it, which is how [select] leaves it on an error).  Whatever that [read] gives,
    the loop is stopped when the turn ends; if it gives no byte, the status
    becomes 0. *)
Theorem failed_select_ends_the_loop
        (W : World) (v : loop_vars) (s : state) (a : Z) :
  let fd := client_socket_fd s in
  let count :=
    SOCKET_BUFFER_SIZE - 1 - Z.of_nat (String.length (socket_buffer v)) in
  let t := trace s ++ [Select fd; Perror "select() error"; Read fd count] in
  select_ret W (trace s ++ [Select fd]) = (a, false) -> a < 0 ->
  keep_running (fst (poll_socket W v s)) = false
  /\ (exists rest, trace (snd (poll_socket W v s)) = t ++ rest)
  /\ (read_ret W t = ReadBytes EmptyString ->
      fst (poll_socket W v s) = stop 0 v)
  /\ (forall eintr, read_ret W t = ReadError eintr ->
      fst (poll_socket W v s) = stop 1 v).
Proof.
  intros fd count t Hsel Ha.
  assert (Hps : poll_socket W v s =
            match read_ret W t with
            | ReadError eintr =>
                if eintr then (stop 1 v, set_trace t s)
                else (stop 1 (stop 1 v),
                      push (Perror "read() error from client socket")
                           (set_trace t s))
            | ReadBytes data =>
                let data := substring 0 (Z.to_nat count) data in
                if (String.length data =? 0)%nat
                then (stop 0 (stop 1 v), set_trace t s)
                else process_received W data (stop 1 v) (set_trace t s)
            end).
  { unfold poll_socket. cbn [bind get emit]. fold fd. rewrite Hsel.
    replace (a <? 0) with true by (symmetry; by apply Z.ltb_lt).
    replace (a =? 0) with false by (symmetry; apply Z.eqb_neq; lia).
    cbn [andb bind ret emit trace set_trace stop socket_buffer]. fold count.
    rewrite <- !app_assoc. cbn [app]. fold t.
    destruct (read_ret W t) as [[]|data]; try reflexivity.
    cbv zeta. by destruct (String.length _ =? 0)%nat. }
  assert (Hpr : forall data,
            keep_running (fst (process_received W data (stop 1 v) (set_trace t s)))
              = false
            /\ exists rest,
                 trace (snd (process_received W data (stop 1 v) (set_trace t s)))
                 = t ++ rest).
  { intros data. split.
    - unfold process_received. cbn [bind get].
      pose proof (line_loop_stops W
                    (String.length (socket_buffer (stop 1 v) +:+ data))
                    (client_socket_fd (set_trace t s))
                    (socket_buffer (stop 1 v) +:+ data) (stop 1 v)
                    (set_trace t s)) as Hst.
      cbv zeta in Hst.
      destruct (line_loop W _ _ _ (stop 1 v) (set_trace t s)) as [[ls v'] s1].
      cbn [fst snd] in Hst.
      destruct Hst as [-> | ->]; reflexivity.
    - apply (keeps_process_received W (extends t)
               (fun fd0 args => extends_command W t fd0 args)).
      exists []. cbn. by rewrite app_nil_r. }
  rewrite Hps. split; [|split; [|split]].
  - destruct (read_ret W t) as [[]|data]; try reflexivity.
    cbv zeta. destruct (String.length _ =? 0)%nat; [reflexivity|].
    apply (proj1 (Hpr _)).
  - destruct (read_ret W t) as [[]|data].
    + exists []. cbn. by rewrite app_nil_r.
    + cbn. by eexists.
    + cbv zeta. destruct (String.length _ =? 0)%nat.
      * exists []. cbn. by rewrite app_nil_r.
      * apply (proj2 (Hpr _)).
  - intros ->. cbv zeta.
    rewrite substring_empty.
    reflexivity.
  - intros eintr ->. by destruct eintr.
Qed.

Lemma failed_select_ends_the_loop_witness :
  let W := deaf (Script.world [] [ReadBytes EmptyString] Script.never true) in
  keep_running (fst (poll_socket W first_turn (Script.screen 1 1))) = false
  /\ fst (poll_socket W first_turn (Script.screen 1 1)) = stop 0 first_turn.
Proof.
  intros W.
  destruct (failed_select_ends_the_loop W first_turn (Script.screen 1 1) (-1))
    as (Hstop & _ & Heof & _); [reflexivity|lia|].
  split; [exact Hstop|]. apply Heof. reflexivity.
Defined.

(** X21.  The inner loops run to their end.  The decoding loop of [print]
    takes at least one byte of the text at every turn, and the line loop at
    least one byte of the buffer at every line: with as many turns as the
    text, or the buffer, has bytes, each has stopped by itself, and more
    turns change nothing. *)
Theorem inner_loops_run_to_their_end (W : World) :
  (forall fuel text x y f b s,
     (String.length text <= fuel)%nat ->
     print_loop W fuel text x y f b s =
       print_loop W (String.length text) text x y f b s)
  /\ (forall fuel fd buf v s,
        (String.length buf <= fuel)%nat ->
        line_loop W fuel fd buf v s =
          line_loop W (String.length buf) fd buf v s).
Proof.
  split.
  - intros fuel text x y f b s Hlen. by apply print_loop_enough.
  - intros fuel fd buf v s Hlen. by apply line_loop_enough.
Qed.

Lemma inner_loops_run_to_their_end_witness :
  print_loop Script.calm 100 "hello" 0 0 1 2 (Script.screen 5 1) =
    print_loop Script.calm 5 "hello" 0 0 1 2 (Script.screen 5 1)
  /\ line_loop Script.calm 100 4 ("width" +:+ nl +:+ "he") first_turn
       (Script.screen 5 1) =
     line_loop Script.calm 8 4 ("width" +:+ nl +:+ "he") first_turn
       (Script.screen 5 1).
Proof.
  destruct (inner_loops_run_to_their_end Script.calm) as [Hp Hl]. split.
  - apply (Hp 100%nat "hello"%string). simpl. lia.
  - apply (Hl 100%nat 4 ("width" +:+ nl +:+ "he")). simpl. lia.
Defined.

(** X22.  An event is written as one line.  The text formatted for an event
    holds neither a line feed nor a NUL, whatever the values of its fields:
    [send_event_to_client] writes it whole, followed by one line feed, and a
    reader that cuts the stream at line feeds, as the program itself does,
    gets the event text back as one line. *)
Theorem event_is_one_line (W : World) (fd : Z) (ev : tb_event) (s : state) :
  is_line (event_line ev)
  /\ (forall rest,
        strchr_lf (event_line ev +:+ nl +:+ rest) = Some (event_line ev, rest))
  /\ exists tail,
       trace (snd (send_event_to_client W fd ev s)) =
         trace s ++ WriteExact fd (event_line ev +:+ nl) :: tail
       /\ (tail = [] \/ exists msg, tail = [Perror msg]).
Proof.
  split; [apply event_line_plain|]. split.
  - intros rest. apply strchr_lf_line, event_line_plain.
  - rewrite send_event_to_client_eq. cbn [snd].
    destruct (write_exact_fails W _); cbn.
    + eexists. rewrite <- app_assoc. split; [done|]. right. by eexists.
    + eexists. split; [done|]. by left.
Qed.

(** X23.  Numbers are not validated.  A token in which [atoi] finds no
    number reads as 0: [set_cursor] with two such tokens moves the cursor to
    [(0, 0)] and is answered like any other [set_cursor]. *)
Theorem numbers_are_not_validated
        (W : World) (fd : Z) (line tx ty : string) (s : state) :
  parse_command line = ["set_cursor"; tx; ty]%string ->
  no_number tx = true -> no_number ty = true ->
  atoi tx = 0 /\ atoi ty = 0
  /\ handle_client_command W fd line s =
       respond W fd "OK" "Error writing OK response for set_cursor"
         (push (TbSetCursor 0 0) s).
Proof.
  intros Hp Hx Hy.
  pose proof (atoi_no_number tx Hx) as Hax.
  pose proof (atoi_no_number ty Hy) as Hay.
  split; [done|]. split; [done|].
  unfold handle_client_command. rewrite Hp. unfold run_command.
  cbn [String.eqb Ascii.eqb Bool.eqb length Nat.eqb nth bind emit].
  by rewrite Hax, Hay.
Qed.

Lemma numbers_are_not_validated_witness :
  handle_client_command Script.calm 4 "set_cursor left top" (Script.screen 1 1) =
    respond Script.calm 4 "OK" "Error writing OK response for set_cursor"
      (push (TbSetCursor 0 0) (Script.screen 1 1)).
Proof.
  apply (numbers_are_not_validated Script.calm 4 "set_cursor left top"
           "left" "top" (Script.screen 1 1)); reflexivity.
Defined.

Lemma skip_delims_spaces n s : skip_delims (spaces n +:+ s) = skip_delims s.
Proof. induction n as [|n IH]; [done|]. cbn. exact IH. Qed.

Lemma strtok_loose a gap rest :
  token a ->
  strtok (a +:+ spaces (S gap) +:+ rest) = Some (a, spaces gap +:+ rest).
Proof.
  intros [Hne Ha]. unfold strtok.
  destruct a as [|c a]; [done|].
  pose proof Ha as Ha'. cbn [all_chars] in Ha'.
  apply andb_true_iff in Ha' as [Hc _].
  apply word_char_inv in Hc as (Hsp & _).
  change (String c a +:+ spaces (S gap) +:+ rest)
    with (String c (a +:+ " " +:+ (spaces gap +:+ rest))).
  cbn [skip_delims]. rewrite Hsp.
  change (String c (a +:+ " " +:+ (spaces gap +:+ rest)))
    with (String c a +:+ " " +:+ (spaces gap +:+ rest)).
  by rewrite take_token_word.
Qed.

Lemma strtok_skip n s : strtok (spaces n +:+ s) = strtok s.
Proof. unfold strtok. by rewrite skip_delims_spaces. Qed.

Lemma collect_args_loose n lead toks :
  Forall token (map fst toks) ->
  collect_args n (spaces lead +:+ loose_tail toks) = take n (map fst toks).
Proof.
  revert n lead. induction toks as [|[a gap] toks IH]; intros n lead Htoks.
  - cbn [loose_tail map]. rewrite string_app_empty_r.
    destruct n; [done|]. cbn [collect_args take].
    pose proof (strtok_skip lead EmptyString) as Hs.
    rewrite string_app_empty_r in Hs. by rewrite Hs.
  - cbn [map fst] in Htoks. apply Forall_cons in Htoks as [Ha Htoks].
    destruct n as [|n]; [done|].
    cbn [collect_args take map fst loose_tail].
    rewrite strtok_skip, strtok_loose by done.
    by rewrite IH.
Qed.

Lemma all_chars_spaces p n : p SP = true -> all_chars p (spaces n) = true.
Proof. intros Hp. induction n as [|n IH]; [done|]. cbn. by rewrite Hp, IH. Qed.

Lemma loose_tail_line_chars toks :
  Forall token (map fst toks) -> all_chars line_char (loose_tail toks) = true.
Proof.
  induction toks as [|[a gap] toks IH]; intros Htoks; [done|].
  cbn [map fst] in Htoks. apply Forall_cons in Htoks as [[_ Ha] Htoks].
  cbn [loose_tail]. rewrite !all_chars_app.
  rewrite (all_chars_weaken word_char line_char a), all_chars_spaces, IH; try done.
  intros c Hc. apply word_char_inv in Hc as (_ & H1 & H2 & H3).
  unfold line_char. by rewrite H1, H2, H3.
Qed.

Lemma parse_command_loose lead toks :
  Forall token (map fst toks) ->
  parse_command (loose lead toks) = take MAX_ARGS (map fst toks).
Proof.
  intros Htoks. unfold parse_command, loose.
  assert (Hl : all_chars line_char (spaces lead +:+ loose_tail toks) = true).
  { rewrite all_chars_app, all_chars_spaces by done.
    by rewrite loose_tail_line_chars. }
  rewrite (strip_last_line_chars LF) by done.
  rewrite (strip_last_line_chars CR) by done.
  rewrite cstr_line_chars by done.
  by apply collect_args_loose.
Qed.

Lemma same_frame_trace s t : same_frame s (set_trace t s).
Proof. by repeat split. Qed.

Lemma same_frame_poll_socket W s0 v :
  keeps (same_frame s0) (poll_socket W v).
Proof.
  apply keeps_poll_socket.
  - by intros s c Hs.
  - apply same_frame_run_command.
Qed.

(** X24.  Runs of spaces count as one.  A line of tokens with any number
    of spaces in front, between and behind them is cut into the same tokens
    as the line with single spaces, and handled the same.  So the text of a
    [print] reaches the screen with every run of spaces made one space, and
    without the spaces at its ends. *)
Theorem runs_of_spaces_count_as_one
        (W : World) (fd : Z) (lead : nat) (toks : list (string * nat)) (s : state) :
  Forall token (map fst toks) ->
  parse_command (loose lead toks) = take 10 (map fst toks)
  /\ handle_client_command W fd (loose lead toks) s =
       handle_client_command W fd (rejoined (map fst toks)) s.
Proof.
  intros Htoks. split; [by apply parse_command_loose|].
  unfold handle_client_command.
  by rewrite parse_command_loose, parse_command_rejoined.
Qed.

Lemma runs_of_spaces_count_as_one_witness :
  handle_client_command Script.calm 4 "  print 0 0  1 2 a    b  "
    (Script.screen 3 1)
  = handle_client_command Script.calm 4 "print 0 0 1 2 a b" (Script.screen 3 1).
Proof.
  apply (proj2 (runs_of_spaces_count_as_one Script.calm 4 2
                  [("print", 0); ("0", 0); ("0", 1); ("1", 0); ("2", 0);
                   ("a", 3); ("b", 1)]%string%nat (Script.screen 3 1)
                  ltac:(repeat constructor; discriminate))).
Defined.

(** X25.  [DEBUG_SEND_EVENT] writes the event it is given and nothing else.
    For an event whose fields are in the range of their types, the line
    [DEBUG_SEND_EVENT type mod key ch w h x y] makes the handler write the
    event line of exactly this event, with no [OK] after it, and return 0.
    Nothing but the trace changes: an event of the resize type sent this way
    does not resize the shadow buffer. *)
Theorem debug_send_event_echoes (W : World) (fd : Z) (ev : tb_event) (s : state) :
  0 <= ev_type ev < 2 ^ 8 -> 0 <= ev_mod ev < 2 ^ 8 ->
  0 <= ev_key ev < 2 ^ 16 -> 0 <= ev_ch ev < 2 ^ 32 ->
  - 2 ^ 31 <= ev_w ev < 2 ^ 31 -> - 2 ^ 31 <= ev_h ev < 2 ^ 31 ->
  - 2 ^ 31 <= ev_x ev < 2 ^ 31 -> - 2 ^ 31 <= ev_y ev < 2 ^ 31 ->
  let line :=
    rejoined ["DEBUG_SEND_EVENT"%string; fmt_u (ev_type ev); fmt_u (ev_mod ev);
              fmt_u (ev_key ev); fmt_u (ev_ch ev); fmt_d (ev_w ev);
              fmt_d (ev_h ev); fmt_d (ev_x ev); fmt_d (ev_y ev)] in
  handle_client_command W fd line s =
    (0, if write_exact_fails W (trace s ++ [WriteExact fd (event_line ev +:+ nl)])
        then push (Perror "Error writing event to client socket")
                  (push (WriteExact fd (event_line ev +:+ nl)) s)
        else push (WriteExact fd (event_line ev +:+ nl)) s).
Proof.
  intros Ht Hm Hk Hc Hw Hh Hx Hy line. subst line.
  unfold handle_client_command. rewrite parse_command_rejoined.
  2:{ repeat first [apply Forall_nil_2 | apply Forall_cons_2];
        first [apply token_fmt_d | apply token_fmt_u | by split]. }
  cbn [take MAX_ARGS]. unfold run_command.
  cbn [String.eqb Ascii.eqb Bool.eqb length Nat.eqb nth bind].
  rewrite !atoi_fmt_d by lia.
  rewrite strtoul_fmt_u by (unfold ULONG_MAX; lia).
  unfold to_uint8, to_uint16, to_uint32. rewrite !Z.mod_small by lia.
  replace {| ev_type := ev_type ev; ev_mod := ev_mod ev; ev_key := ev_key ev;
             ev_ch := ev_ch ev; ev_w := ev_w ev; ev_h := ev_h ev;
             ev_x := ev_x ev; ev_y := ev_y ev |} with ev by (by destruct ev).
  by rewrite send_event_to_client_eq.
Qed.

Lemma debug_send_event_echoes_witness :
  handle_client_command Script.calm 4 "DEBUG_SEND_EVENT 2 0 0 0 9 9 0 0"
    (Script.screen 1 1) =
    (0, push (WriteExact 4 (event_line (snd (Script.resize_event 9 9)) +:+ nl))
             (Script.screen 1 1)).
Proof.
  apply (debug_send_event_echoes Script.calm 4 (snd (Script.resize_event 9 9))
           (Script.screen 1 1)); simpl; lia.
Defined.

(** X26.  Only a resize event changes the geometry.  In a turn whose peek
    finds no event, or an event that is not a resize, the width and the
    height of the shadow buffer, the presence of the buffer, the client
    descriptor and the socket path are after the turn what they were before
    it, whatever commands the turn handles. *)
Theorem only_a_resize_changes_the_geometry
        (W : World) (v : loop_vars) (s : state) (r : Z) (ev : tb_event) :
  tb_peek_event_ret W (trace s ++ [TbPeekEvent 10]) = (r, ev) ->
  r <= 0 \/ ev_type ev <> TB_EVENT_RESIZE W ->
  same_frame s (snd (loop_body W v s)).
Proof.
  intros Hpeek Hcase. rewrite loop_body_eq.
  apply same_frame_poll_socket.
  unfold poll_terminal. cbn [bind get emit]. rewrite Hpeek.
  destruct (0 <? r) eqn:Er; [|apply same_frame_trace].
  apply Z.ltb_lt in Er. destruct Hcase as [Hr|Hty]; [lia|].
  replace (ev_type ev =? TB_EVENT_RESIZE W) with false
    by (symmetry; by apply Z.eqb_neq).
  cbn [when bind ret]. rewrite send_event_to_client_eq. cbn [snd].
  destruct (write_exact_fails W _); by repeat split.
Qed.

Lemma only_a_resize_changes_the_geometry_witness :
  let W := Script.world [Script.key_event 97]
             [ReadBytes ("clear" +:+ nl +:+ "change_cell 0 0 98 1 1" +:+ nl)]
             Script.never true in
  same_frame (Script.screen 2 2) (snd (loop_body W first_turn (Script.screen 2 2))).
Proof.
  intros W.
  apply (only_a_resize_changes_the_geometry W first_turn (Script.screen 2 2) 1
           (snd (Script.key_event 97))); [reflexivity|].
  right. discriminate.
Defined.

(** X27.  A line may arrive in pieces.  When a read brings bytes without a
    line feed that do not fill the buffer, they are kept, and no command is
    handled; when a later read completes them, the lines that the kept bytes
    and the new ones make up together are handled in order, as if they had
    arrived at once. *)
Theorem split_line_is_put_together
        (W : World) (v : loop_vars) (s s2 : state) (a a2 : Z) (e e2 : bool)
        (data data2 : string) (lines : list string) (rem : string) :
  let fd := client_socket_fd s in
  let count :=
    SOCKET_BUFFER_SIZE - 1 - Z.of_nat (String.length (socket_buffer v)) in
  let kept := socket_buffer v +:+ data in
  let fd2 := client_socket_fd s2 in
  let count2 := SOCKET_BUFFER_SIZE - 1 - Z.of_nat (String.length kept) in
  keep_running v = true ->
  select_ret W (trace s ++ [Select fd]) = (a, e) -> 0 < a ->
  read_ret W (trace s ++ [Select fd; Read fd count]) = ReadBytes data ->
  data <> EmptyString -> Z.of_nat (String.length data) < count ->
  strchr_lf kept = None ->
  select_ret W (trace s2 ++ [Select fd2]) = (a2, e2) -> 0 < a2 ->
  read_ret W (trace s2 ++ [Select fd2; Read fd2 count2]) = ReadBytes data2 ->
  data2 <> EmptyString -> Z.of_nat (String.length data2) <= count2 ->
  kept +:+ data2 = framed lines rem ->
  Forall is_line lines -> strchr_lf rem = None ->
  let v1 := fst (poll_socket W v s) in
  let r := dispatch_seq W fd2 lines v1 (push (Read fd2 count2) (push (Select fd2) s2)) in
  poll_socket W v s =
    (set_socket_buffer kept v, push (Read fd count) (push (Select fd) s))
  /\ poll_socket W v1 s2 =
       (if keep_running (fst r)
        then set_socket_buffer
               (if SOCKET_BUFFER_SIZE - 1 <=? Z.of_nat (String.length rem)
                then EmptyString else rem) (fst r)
        else fst r,
        snd r).
Proof.
  intros fd count kept fd2 count2 Hv Hsel Ha Hread Hne Hlen Hnolf
         Hsel2 Ha2 Hread2 Hne2 Hlen2 Hframed Hlines Hrem v1 r.
  assert (H1 : poll_socket W v s =
            (set_socket_buffer kept v, push (Read fd count) (push (Select fd) s))).
  { rewrite (poll_socket_framed W v s a e data [] kept); try done; [|lia].
    cbn [dispatch_seq ret fst snd]. rewrite Hv.
    replace (SOCKET_BUFFER_SIZE - 1 <=? Z.of_nat (String.length kept)) with false;
      [done|].
    symmetry. apply Z.leb_gt. unfold kept. rewrite length_app_string.
    unfold count in Hlen. lia. }
  split; [exact H1|].
  subst r v1. rewrite H1. cbn [fst].
  by apply (poll_socket_framed W (set_socket_buffer kept v) s2 a2 e2 data2).
Qed.

Lemma split_line_is_put_together_witness :
  let W := Script.world [] [ReadBytes "wid"; ReadBytes ("th" +:+ nl)]
             Script.never true in
  let r1 := poll_socket W first_turn (Script.screen 1 1) in
  socket_buffer (fst r1) = "wid"%string
  /\ filter (fun c => is_write c = true)
            (trace (snd (poll_socket W (fst r1) (snd r1))))
     = [WriteExact 4 ("OK_WIDTH 80" +:+ nl)].
Proof.
  intros W r1.
  destruct (split_line_is_put_together W first_turn (Script.screen 1 1) (snd r1)
              1 1 false false "wid" ("th" +:+ nl) ["width"%string] EmptyString)
    as [H1 H2]; try reflexivity; try discriminate.
  { repeat constructor. }
  split.
  - subst r1. by rewrite H1.
  - subst r1. rewrite H2. reflexivity.
Defined.

(** X28.  A client that cannot be accepted is not served.  When [accept]
    fails, or when the flags of the accepted socket cannot be read or set,
    [run_main_loop] returns 1 at once, however many turns it is allowed:
    it calls [perror], closes the client socket if it got one, and leaves
    [client_socket_fd] at [-1]; no turn of the loop runs and termbox is not
    shut down. *)
Theorem failed_accept_serves_nothing
        (W : World) (turns : nat) (listen_fd : Z) (s : state) :
  let t1 := trace s ++ [waiting_log listen_fd s; Accept listen_fd] in
  let fd := accept_ret W t1 in
  let t2 := t1 ++ [connected_log; FcntlGetfl fd] in
  let t3 := t2 ++ [FcntlSetflNonblock fd] in
  let ended t := (Some 1, set_client_socket_fd (-1) (set_trace t s)) in
  (fd = -1 ->
   run_main_loop W turns listen_fd s =
     ended (t1 ++ [Perror "Error accepting client connection";
                   Stderr ("termbox_port C_LOG ERROR: Failed to accept UDS connection."
                             +:+ nl)]))
  /\ (fd <> -1 -> fcntl_getfl_ret W t2 = -1 ->
      run_main_loop W turns listen_fd s =
        ended (t2 ++ [Perror "Error getting socket flags"; Close fd]))
  /\ (fd <> -1 -> fcntl_getfl_ret W t2 <> -1 -> fcntl_setfl_ret W t3 = -1 ->
      run_main_loop W turns listen_fd s =
        ended (t3 ++ [Perror "Error setting socket to non-blocking"; Close fd])).
Proof.
  intros t1 fd t2 t3 ended.
  unfold run_main_loop, accept_client.
  cbn [bind get emit modify trace set_trace].
  fold (waiting_log listen_fd s). rewrite <- !app_assoc. cbn [app].
  fold t1. fold fd.
  split; [|split].
  - intros Hfd. rewrite Hfd. cbn. by rewrite <- !app_assoc.
  - intros Hfd Hget.
    replace (fd =? -1) with false by (symmetry; by apply Z.eqb_neq).
    cbn [bind emit trace set_trace set_client_socket_fd].
    fold connected_log. rewrite <- !app_assoc. cbn [app].
    change (t1 ++ [connected_log; FcntlGetfl fd]) with t2.
    rewrite Hget. cbn. by rewrite <- !app_assoc.
  - intros Hfd Hget Hset.
    replace (fd =? -1) with false by (symmetry; by apply Z.eqb_neq).
    cbn [bind emit trace set_trace set_client_socket_fd].
    fold connected_log. rewrite <- !app_assoc. cbn [app].
    change (t1 ++ [connected_log; FcntlGetfl fd]) with t2.
    replace (fcntl_getfl_ret W t2 =? -1) with false
      by (symmetry; by apply Z.eqb_neq).
    cbn [bind emit trace set_trace].
    change (t2 ++ [FcntlSetflNonblock fd]) with t3.
    rewrite Hset. cbn. by rewrite <- !app_assoc.
Qed.

Lemma failed_accept_serves_nothing_witness :
  run_main_loop (refusing 1 Script.calm) 9 3 initial_state =
    (Some 1,
     set_client_socket_fd (-1)
       (set_trace [waiting_log 3 initial_state; Accept 3;
                   Perror "Error accepting client connection";
                   Stderr ("termbox_port C_LOG ERROR: Failed to accept UDS connection."
                             +:+ nl)]
                  initial_state))
  /\ fst (run_main_loop (refusing 2 Script.calm) 9 3 initial_state) = Some 1
  /\ fst (run_main_loop (refusing 3 Script.calm) 9 3 initial_state) = Some 1.
Proof.
  split; [|split].
  - apply (proj1 (failed_accept_serves_nothing (refusing 1 Script.calm) 9 3
                    initial_state)). reflexivity.
  - rewrite (proj1 (proj2 (failed_accept_serves_nothing (refusing 2 Script.calm)
                             9 3 initial_state)));
      [reflexivity|discriminate|reflexivity].
  - rewrite (proj2 (proj2 (failed_accept_serves_nothing (refusing 3 Script.calm)
                             9 3 initial_state)));
      [reflexivity|discriminate|discriminate|reflexivity].
Defined.
